(** * A shallow embedding of the micro:bit CSV viewer (src/app.js)

    The viewer loads a CSV file of sensor samples, keeps a time window
    ([view]) over the samples and draws two series on a canvas; the
    window is moved by dragging, by the mouse wheel and by two controls.

    Conventions of the embedding.

    - A JavaScript number is an IEEE double.  Its finite values are
      modelled by rationals ([Q]).  The rounding of the result of an
      operation is an argument [rnd] of the definitions in which the
      control of the program or a divisor depends on it: the widening
      of a domain in [domainForKey] and the increment of the loop of
      [niceTicks].  The handlers that move the window come twice: with
      exact results ([on_wheel], [run]) and with each result rounded
      ([on_wheel_rnd], [run_rnd]), the first being the second without
      rounding.  Everywhere else the results are exact.  The three
      values that are not finite are kept where the program can meet
      them (channel values, time stamps before the filter, running
      minima that start at [Infinity]): type [num].
    - A division is written with [Q]'s [/]; the lemmas that depend on a
      quotient carry the hypothesis that its divisor is not zero.
    - What the program reads from the browser (the bounding rectangle of
      the canvas, the position of the pointer, the value of a control)
      is an argument of the handler that reads it.
    - A loop is a recursion on the list it walks, or on a fuel: a fuel
      that is shown to be enough, or, for the loop of [niceTicks], a
      number of turns after which the loop may still be running.
    - [main] runs when the file has been fetched; the handlers are
      registered before, so that [main] starts from the state the
      events before it have left. *)

From Stdlib Require Import QArith Qminmax Qabs Qround Qpower Lqa Lia ZArith List.
From Stdlib Require Import Ascii String DecimalString.
From Stdlib Require Import Sorting.Sorted Sorting.Permutation.
From stdpp Require Import base gmap strings list.

#[local] Open Scope Q_scope.

(* ================================================================== *)
(** * Part I: the program *)
(* ================================================================== *)

(** ** Numbers *)

(** A JavaScript number: [NaN], [Infinity] ([Inf false]), [-Infinity]
    ([Inf true]) or a finite value. *)
Inductive num : Type :=
| NaN
| Inf (negative : bool)
| Fin (q : Q).

(** [Number.isFinite]. *)
Definition isFinite (v : num) : bool :=
  match v with Fin _ => true | _ => false end.

(** [Math.min] and [Math.max] of two numbers. *)
Definition Math_min (a b : num) : num :=
  match a, b with
  | NaN, _ | _, NaN => NaN
  | Inf true, _ | _, Inf true => Inf true
  | Inf false, v | v, Inf false => v
  | Fin p, Fin q => Fin (Qmin p q)
  end.

Definition Math_max (a b : num) : num :=
  match a, b with
  | NaN, _ | _, NaN => NaN
  | Inf false, _ | _, Inf false => Inf false
  | Inf true, v | v, Inf true => v
  | Fin p, Fin q => Fin (Qmax p q)
  end.

(** [a < b] on finite values, as a boolean. *)
Definition Qltb (a b : Q) : bool := negb (Qle_bool b a).

(** [a < b] on numbers: false as soon as one side is [NaN]. *)
Definition num_ltb (a b : num) : bool :=
  match a, b with
  | NaN, _ | _, NaN => false
  | Inf true, Inf true => false
  | Inf true, _ => true
  | _, Inf true => false
  | Inf false, _ => false
  | Fin _, Inf false => true
  | Fin p, Fin q => Qltb p q
  end.

(** ** Rounding *)

(** Arithmetic without rounding. *)
Definition exact_result (q : Q) : Q := q.

(** [floor (log2 q)] for a positive [q]: the difference of the numbers
    of binary digits of its numerator and denominator, or one less. *)
Definition floor_log2 (q : Q) : Z :=
  let e := (Z.log2 (Qnum q) - Z.log2 (Zpos (Qden q)))%Z in
  if Qle_bool (Qpower 2 e) q then e else (e - 1)%Z.

(** The nearest integer, the even one of two that are as near. *)
Definition round_half_even (q : Q) : Z :=
  let f := Qfloor q in
  let r := q - inject_Z f in
  if Qle_bool r (1 # 2)
  then if Qle_bool (1 # 2) r then (if Z.even f then f else (f + 1)%Z) else f
  else (f + 1)%Z.

(** The double nearest to a positive [a]: [a] is scaled to a
    significand of 53 binary digits, which is rounded to an integer. *)
Definition mag (a : Q) : Q :=
  inject_Z (round_half_even (a / Qpower 2 (floor_log2 a - 52)))
  * Qpower 2 (floor_log2 a - 52).

(** The double nearest to [q], rounded to nearest, ties to even.  The
    range of the exponent is not modelled (no overflow, no subnormal
    numbers). *)
Definition round53 (q : Q) : Q :=
  if Qeq_bool q 0 then 0
  else if Qle_bool 0 q then mag (Qabs q) else - mag (Qabs q).

(** ** Utilities (lines 26-28) *)

(** [clamp = (v, a, b) => Math.max(a, Math.min(b, v))]. *)
Definition clamp (v a b : Q) : Q := Qmax a (Qmin b v).

(** ** niceTicks (lines 69-87) *)




(** [Math.pow(10, k)] for an integer [k]. *)
Definition pow10 (k : Z) : Q := Qpower 10 k.

(** The selection loop of line 79, shared with the time axis (line 203):
    [for (const c of candidates) if (|c - raw| < |step - raw|) step = c]. *)
Definition closest_step (raw : Q) (step0 : Q) (candidates : list Q) : Q :=
  fold_left
    (fun step c => if Qltb (Qabs (c - raw)) (Qabs (step - raw)) then c else step)
    candidates step0.

(** The loop of the time axis (line 206),
    [for (x = start; x <= bound; x += step)], on exact sums. *)
Fixpoint ticks_loop (fuel : nat) (v bound step : Q) : list Q :=
  match fuel with
  | O => []
  | S fuel' =>
      if Qle_bool v bound then v :: ticks_loop fuel' (v + step) bound step
      else []
  end.









(** ** Strings (the methods used by parseCSV and toDate) *)

#[local] Open Scope string_scope.

(** White space removed by [String.prototype.trim], restricted to the
    ASCII range: tab, line feed, vertical tab, form feed, carriage
    return and space. *)
Definition is_ws (c : ascii) : bool :=
  let n := nat_of_ascii c in
  ((9 <=? n) && (n <=? 13))%nat || (n =? 32)%nat.

Fixpoint trimStart (s : string) : string :=
  match s with
  | EmptyString => EmptyString
  | String c s' => if is_ws c then trimStart s' else s
  end.

Fixpoint trimEnd (s : string) : string :=
  match s with
  | EmptyString => EmptyString
  | String c s' =>
      match trimEnd s' with
      | EmptyString => if is_ws c then EmptyString else String c EmptyString
      | r => String c r
      end
  end.

Definition trim (s : string) : string := trimEnd (trimStart s).

(** [s.split(sep)] for a separator of one character. *)
Fixpoint split (sep : ascii) (s : string) : list string :=
  match s with
  | EmptyString => [EmptyString]
  | String c s' =>
      if Ascii.eqb c sep then EmptyString :: split sep s'
      else match split sep s' with
           | [] => [String c EmptyString]
           | w :: ws => String c w :: ws
           end
  end.

(** [s.replace(/\r/g, "")]. *)
Fixpoint remove_cr (s : string) : string :=
  match s with
  | EmptyString => EmptyString
  | String c s' =>
      if Ascii.eqb c (ascii_of_nat 13) then remove_cr s'
      else String c (remove_cr s')
  end.

(** [s.padStart(2, "0")]. *)
Definition padStart2 (s : string) : string :=
  match String.length s with
  | O => "00"
  | S O => String "0" s
  | _ => s
  end.

(** ** Ingestion: parseCSV, toDate and the normalisation of main *)

(** A cell of a parsed row: a finite number, or the text of the cell
    when [Number] did not give one (line 44). *)
Inductive cell : Type :=
| CNum (q : Q)
| CStr (s : string).

(** A parsed row is a JavaScript object keyed by the column names. *)
Abbreviation Row := (gmap string cell).

(** The object built for each row by the [map] of lines 488-497, the
    [Date] left out: [n_x] is [t.getTime()]. *)
Record Normalized : Type := {
  n_x : num;
  n_temp_OUT : num;
  n_moist_lv : num;
  n_light : num
}.

(** A point of [data]: a normalised row that passed the filter of line
    498, so that its [x] is finite. *)
Record Point : Type := {
  x : Q;
  temp_OUT : num;
  moist_lv : num;
  light : num
}.

(** The filter of line 498, [p => Number.isFinite(p.x)]. *)
Definition finite_point (n : Normalized) : option Point :=
  match n_x n with
  | Fin q => Some {| x := q; temp_OUT := n_temp_OUT n;
                     moist_lv := n_moist_lv n; light := n_light n |}
  | _ => None
  end.

(** [Array.prototype.sort] with the comparator [(a, b) => a.x - b.x]: a
    stable sort, written as an insertion sort that walks the array from
    its end and puts a point before the points that are not earlier. *)
Fixpoint insert_by_x (p : Point) (l : list Point) : list Point :=
  match l with
  | [] => [p]
  | q :: l' => if Qle_bool (x p) (x q) then p :: l else q :: insert_by_x p l'
  end.

Definition sort_by_x (l : list Point) : list Point :=
  fold_right insert_by_x [] l.

(** ** State (lines 98-109) *)

(** The channels a point carries; [rightKey] is one of them. *)
Inductive Key : Type := K_temp_OUT | K_moist_lv | K_light.

(** [p[key]]. *)
Definition channel (p : Point) (key : Key) : num :=
  match key with
  | K_temp_OUT => temp_OUT p
  | K_moist_lv => moist_lv p
  | K_light => light p
  end.

Definition key_name (key : Key) : string :=
  match key with
  | K_temp_OUT => "temp_OUT"
  | K_moist_lv => "moist_lv"
  | K_light => "light"
  end.

Record View : Type := { x0 : Q; x1 : Q }.

Record PanStart : Type := { pan_x : Q; pan_x0 : Q; pan_x1 : Q }.

(** The variables of the script.  [tooltip] is the point shown by the
    tooltip element, [None] while it is hidden. *)
Record State : Type := {
  data : list Point;
  rightKey : Key;
  xDomainAll : Q * Q;
  view : View;
  isPanning : bool;
  panStart : PanStart;
  tooltip : option Point
}.

(** The values of lines 99-105. *)
Definition initial : State :=
  {| data := [];
     rightKey := K_moist_lv;
     xDomainAll := (0, 1);
     view := {| x0 := 0; x1 := 1 |};
     isPanning := false;
     panStart := {| pan_x := 0; pan_x0 := 0; pan_x1 := 1 |};
     tooltip := None |}.

Definition set_view (s : State) (v : View) : State :=
  {| data := data s; rightKey := rightKey s; xDomainAll := xDomainAll s;
     view := v; isPanning := isPanning s; panStart := panStart s;
     tooltip := tooltip s |}.

Definition set_rightKey (s : State) (k : Key) : State :=
  {| data := data s; rightKey := k; xDomainAll := xDomainAll s;
     view := view s; isPanning := isPanning s; panStart := panStart s;
     tooltip := tooltip s |}.

Definition set_panning (s : State) (b : bool) (ps : PanStart) : State :=
  {| data := data s; rightKey := rightKey s; xDomainAll := xDomainAll s;
     view := view s; isPanning := b; panStart := ps;
     tooltip := tooltip s |}.

Definition set_tooltip (s : State) (t : option Point) : State :=
  {| data := data s; rightKey := rightKey s; xDomainAll := xDomainAll s;
     view := view s; isPanning := isPanning s; panStart := panStart s;
     tooltip := t |}.

(** Layout (lines 108-109). *)
Record Padding : Type :=
  { pad_left : Q; pad_right : Q; pad_top : Q; pad_bottom : Q }.

Definition padding : Padding :=
  {| pad_left := 64; pad_right := 64; pad_top := 18; pad_bottom := 46 |}.

Definition legendH : Q := 24.

(** The smallest span the wheel zooms to, [5 * 60 * 1000] (line 434). *)
Definition minSpan : Q := 5 * 60 * 1000.

(** ** Drawing (lines 111-316) *)

(** The chart area and the window drawn in it (lines 288-295). *)
Record Plot : Type := {
  plot_left : Q; plot_right : Q; plot_top : Q; plot_bottom : Q;
  plot_x0 : Q; plot_x1 : Q
}.

(** What [getBoundingClientRect] returns. *)
Record Rect : Type :=
  { rect_left : Q; rect_top : Q; rect_width : Q; rect_height : Q }.

(** The calls made on the 2D context, in the order they are made. *)
Inductive Cmd : Type :=
| Save
| Restore
| BeginPath
| Stroke
| MoveTo (px py : Q)
| LineTo (px py : Q)
| LineWidth (w : Q)
| StrokeStyle (colour : string)
| FillStyle (colour : string)
| Font (size : Q)
| GlobalAlpha (alpha : Q)
| TextAlign (align : string)
| TextBaseline (baseline : string)
| FillText (text : string) (px py : Q)
| FillRect (px py w h : Q).

(** [domainForKey(key, domainX)] (lines 135-149); [acc] is the pair of
    the variables [min] and [max], and [rnd] rounds the results of
    lines 146-148. *)
Definition domain_step (key : Key) (lo hi : Q) (acc : num * num) (p : Point)
  : num * num :=
  if Qltb (x p) lo || Qltb hi (x p) then acc
  else
    let v := channel p key in
    if negb (isFinite v) then acc
    else (Math_min acc.1 v, Math_max acc.2 v).

Definition domainForKey (rnd : Q -> Q) (data : list Point) (key : Key)
    (domainX : Q * Q) : Q * Q :=
  let acc := fold_left (domain_step key domainX.1 domainX.2) data
                       (Inf false, Inf true) in
  match acc with
  | (Fin min, Fin max) =>
      if Qeq_bool min max then (rnd (min - 1), rnd (max + 1))
      else
        let pad := rnd (rnd (max - min) * rnd 0.06) in
        (rnd (min - pad), rnd (max + pad))
  | _ => (0, 1)
  end.

(** [xToPx(x, plot)] and [yToPx(y, yDomain, top, bottom)] (lines 151-159). *)
Definition xToPx (t : Q) (plot : Plot) : Q :=
  plot_left plot
  + (t - plot_x0 plot) / (plot_x1 plot - plot_x0 plot)
    * (plot_right plot - plot_left plot).

Definition yToPx (y : Q) (yDomain : Q * Q) (top bottom : Q) : Q :=
  bottom - (y - yDomain.1) / (yDomain.2 - yDomain.1) * (bottom - top).

(** [drawText] (lines 116-123). *)
Definition drawText (text : string) (px py : Q) (align baseline : string)
    (alpha : Q) : list Cmd :=
  [Save; GlobalAlpha alpha; TextAlign align; TextBaseline baseline;
   FillText text px py; Restore].

(** One of the two loops of [drawSeries] (lines 233-241 and 248-256),
    from the point where [started] has the given value. *)
Fixpoint series_path (plot : Plot) (key : Key) (yDomain : Q * Q)
    (started : bool) (data : list Point) : list Cmd :=
  match data with
  | [] => []
  | p :: rest =>
      if Qltb (x p) (plot_x0 plot) || Qltb (plot_x1 plot) (x p)
      then series_path plot key yDomain started rest
      else
        match channel p key with
        | Fin v =>
            let px := xToPx (x p) plot in
            let py := yToPx v yDomain (plot_top plot) (plot_bottom plot) in
            (if started then LineTo px py else MoveTo px py)
              :: series_path plot key yDomain true rest
        | _ => series_path plot key yDomain started rest
        end
  end.

(** [drawSeries] (lines 224-272); [dpr] is [window.devicePixelRatio || 1]. *)
Definition drawSeries (data : list Point) (rightKey : Key) (dpr : Q)
    (plot : Plot) (keyLeft keyRight : Key) (yLeftDomain yRightDomain : Q * Q)
  : list Cmd :=
  [Save; LineWidth (2 * dpr)]
  ++ [StrokeStyle "rgba(122,162,255,0.95)"; BeginPath]
  ++ series_path plot keyLeft yLeftDomain false data
  ++ [Stroke]
  ++ [StrokeStyle "rgba(255,212,121,0.92)"; BeginPath]
  ++ series_path plot keyRight yRightDomain false data
  ++ [Stroke]
  ++ [FillStyle "rgba(122,162,255,0.95)";
      FillRect (plot_left plot) (plot_top plot + 6 * dpr) (10 * dpr) (10 * dpr);
      FillStyle "rgba(231,238,252,0.88)";
      Font (12 * dpr)]
  ++ drawText "temp_OUT" (plot_left plot + 16 * dpr) (plot_top plot + 12 * dpr)
       "left" "middle" 0.95
  ++ [FillStyle "rgba(255,212,121,0.92)";
      FillRect (plot_left plot + 110 * dpr) (plot_top plot + 6 * dpr)
               (10 * dpr) (10 * dpr);
      FillStyle "rgba(231,238,252,0.88)"]
  ++ drawText (key_name rightKey) (plot_left plot + 126 * dpr)
       (plot_top plot + 12 * dpr) "left" "middle" 0.95
  ++ [Restore].

(** What a call of [draw] computes before it paints (lines 274-299), and
    what its call of [drawSeries] paints.  The call of [drawAxes] that
    comes before, the labels and the status line are left out:
    [series] is painted once [drawAxes] has returned, and its calls of
    [niceTicks] need not return (see [tick_loop]).  [width] is the
    width of the parent of the canvas and [rnd] the rounding of
    [domainForKey]. *)
Record Frame : Type := {
  frame_plot : Plot;
  yLeftDomain : Q * Q;
  yRightDomain : Q * Q;
  series : list Cmd
}.

Definition draw (rnd : Q -> Q) (s : State) (width dpr : Q) : option Frame :=
  match data s with
  | [] => None
  | _ =>
      let cssW := Qmax 680 (inject_Z (Qfloor width)) in
      let cssH := 520 in
      let plot :=
        {| plot_left := pad_left padding;
           plot_right := cssW - pad_right padding;
           plot_top := pad_top padding + legendH;
           plot_bottom := cssH - pad_bottom padding;
           plot_x0 := x0 (view s);
           plot_x1 := x1 (view s) |} in
      let yL := domainForKey rnd (data s) K_temp_OUT
                  (plot_x0 plot, plot_x1 plot) in
      let yR := domainForKey rnd (data s) (rightKey s)
                  (plot_x0 plot, plot_x1 plot) in
      Some {| frame_plot := plot; yLeftDomain := yL; yRightDomain := yR;
              series := drawSeries (data s) (rightKey s) dpr plot
                          K_temp_OUT (rightKey s) yL yR |}
  end.

(** ** Interaction (lines 318-447) *)

(** [data[i]] for an integer index: [undefined] out of range. *)
Definition at_index (data : list Point) (i : Z) : option Point :=
  if (i <? 0)%Z then None else data !! Z.to_nat i.

(** The loop of lines 341-345.  [None] stands for a loop that is still
    running when the fuel is used up, or that read outside the array;
    [bsearch_total] shows that neither happens. *)
Fixpoint bsearch (fuel : nat) (data : list Point) (xVal : Q) (lo hi : Z)
  : option Z :=
  if (lo <? hi)%Z then
    match fuel with
    | O => None
    | S fuel' =>
        let mid := ((lo + hi) / 2)%Z in
        p ← at_index data mid;
        if Qltb (x p) xVal then bsearch fuel' data xVal (mid + 1)%Z hi
        else bsearch fuel' data xVal lo mid
    end
  else Some lo.

(** One turn of the loop of lines 349-352 on the pair of [best] and
    [bestDx]. *)
Definition nearest_step (data : list Point) (xVal : Q)
    (acc : option Z * num) (i : Z) : option Z * num :=
  match at_index data i with
  | Some p =>
      let dx := Qabs (x p - xVal) in
      if num_ltb (Fin dx) acc.2 then (Some i, Fin dx) else acc
  | None => acc
  end.

Record Hit : Type :=
  { hit_p : Point; hit_cssX : Q; hit_cssY : Q; hit_plot : Plot }.

(** The target time of line 339. *)
Definition pixel_time (plot : Plot) (cssX : Q) : Q :=
  plot_x0 plot
  + (cssX - plot_left plot) / (plot_right plot - plot_left plot)
    * (plot_x1 plot - plot_x0 plot).

(** Lines 340-353: the index of the point returned for a target time. *)
Definition nearest_index (data : list Point) (xVal : Q) : option Z :=
  let len := Z.of_nat (length data) in
  lo ← bsearch (length data) data xVal 0 (len - 1);
  let candidates :=
    List.filter (fun i => (0 <=? i)%Z && (i <? len)%Z)
                [lo; (lo - 1)%Z; (lo + 1)%Z] in
  (fold_left (nearest_step data xVal) candidates
             (head candidates, Inf false)).1.

(** [hitTest(mouseX, mouseY)] (lines 319-357); [rect] is the bounding
    rectangle of the canvas, [None] is [null]. *)
Definition hitTest (s : State) (mouseX mouseY : Q) (rect : Rect) : option Hit :=
  match data s with
  | [] => None
  | _ =>
      let cssX := mouseX - rect_left rect in
      let cssY := mouseY - rect_top rect in
      let cssW := rect_width rect in
      let cssH := rect_height rect in
      let plot :=
        {| plot_left := pad_left padding;
           plot_right := cssW - pad_right padding;
           plot_top := pad_top padding + legendH;
           plot_bottom := cssH - pad_bottom padding;
           plot_x0 := x0 (view s);
           plot_x1 := x1 (view s) |} in
      if Qltb cssX (plot_left plot) || Qltb (plot_right plot) cssX
         || Qltb cssY (plot_top plot) || Qltb (plot_bottom plot) cssY
      then None
      else
        let xVal := pixel_time plot cssX in
        best ← nearest_index (data s) xVal;
        p ← at_index (data s) best;
        Some {| hit_p := p; hit_cssX := cssX; hit_cssY := cssY;
                hit_plot := plot |}
  end.

(** The mousemove handler (lines 388-407). *)
Definition on_mousemove (s : State) (clientX clientY : Q) (rect : Rect) : State :=
  if isPanning s then
    let cssX := clientX - rect_left rect in
    let dx := cssX - pan_x (panStart s) in
    let span := pan_x1 (panStart s) - pan_x0 (panStart s) in
    let pxSpan := rect_width rect - pad_left padding - pad_right padding in
    let msPerPx := span / pxSpan in
    let shift := - dx * msPerPx in
    let new0 := clamp (pan_x0 (panStart s) + shift)
                      (xDomainAll s).1 ((xDomainAll s).2 - span) in
    set_view s {| x0 := new0; x1 := new0 + span |}
  else
    match hitTest s clientX clientY rect with
    | None => set_tooltip s None
    | Some hit => set_tooltip s (Some (hit_p hit))
    end.

(** The mouseleave, mousedown and mouseup handlers (lines 409-420). *)
Definition on_mouseleave (s : State) : State := set_tooltip s None.

Definition on_mousedown (s : State) (clientX : Q) (rect : Rect) : State :=
  let cssX := clientX - rect_left rect in
  set_panning s true
    {| pan_x := cssX; pan_x0 := x0 (view s); pan_x1 := x1 (view s) |}.

Definition on_mouseup (s : State) : State := set_panning s false (panStart s).

(** The wheel handler (lines 422-447).  [zoomFactor] is the value of
    [Math.exp(e.deltaY * 0.0012)], which the handler takes as given. *)
Definition on_wheel (s : State) (clientX zoomFactor : Q) (rect : Rect) : State :=
  let cssX := clientX - rect_left rect in
  let plotLeft := pad_left padding in
  let plotRight := rect_width rect - pad_right padding in
  if Qltb cssX plotLeft || Qltb plotRight cssX then s
  else
    let centerRatio := (cssX - plotLeft) / (plotRight - plotLeft) in
    let span := x1 (view s) - x0 (view s) in
    let newSpan := clamp (span * zoomFactor) (5 * 60 * 1000)
                         ((xDomainAll s).2 - (xDomainAll s).1) in
    let center := x0 (view s) + span * centerRatio in
    let new0 := center - newSpan * centerRatio in
    let new1 := center + newSpan * (1 - centerRatio) in
    let '(new0, new1) :=
      if Qltb new0 (xDomainAll s).1
      then ((xDomainAll s).1, new1 + ((xDomainAll s).1 - new0))
      else (new0, new1) in
    let '(new0, new1) :=
      if Qltb (xDomainAll s).2 new1
      then (new0 - (new1 - (xDomainAll s).2), (xDomainAll s).2)
      else (new0, new1) in
    let new0 := clamp new0 (xDomainAll s).1 ((xDomainAll s).2 - newSpan) in
    let new1 := new0 + newSpan in
    set_view s {| x0 := new0; x1 := new1 |}.

(** ** Controls (lines 449-477) *)

Definition on_rightAxis_change (s : State) (value : Key) : State :=
  set_rightKey s value.

(** [v] is [rangeSelect.value]. *)
Definition on_range_change (s : State) (v : string) : State :=
  if String.eqb v "all" then
    set_view s {| x0 := (xDomainAll s).1; x1 := (xDomainAll s).2 |}
  else
    let hours : Q := if String.eqb v "6h" then 6 else 24 in
    let end_ := (xDomainAll s).2 in
    let span := hours * 60 * 60 * 1000 in
    set_view s {| x0 := Qmax (xDomainAll s).1 (end_ - span); x1 := end_ |}.

Definition on_reset (s : State) : State :=
  set_view (set_rightKey s K_moist_lv)
           {| x0 := (xDomainAll s).1; x1 := (xDomainAll s).2 |}.

(** The events of a session and the handler each one runs. *)
Inductive Event : Type :=
| MouseMove (clientX clientY : Q) (rect : Rect)
| MouseLeave
| MouseDown (clientX : Q) (rect : Rect)
| MouseUp
| Wheel (clientX zoomFactor : Q) (rect : Rect)
| RightAxisChange (value : Key)
| RangeChange (value : string)
| ResetClick.

Definition handle (s : State) (e : Event) : State :=
  match e with
  | MouseMove cx cy r => on_mousemove s cx cy r
  | MouseLeave => on_mouseleave s
  | MouseDown cx r => on_mousedown s cx r
  | MouseUp => on_mouseup s
  | Wheel cx f r => on_wheel s cx f r
  | RightAxisChange k => on_rightAxis_change s k
  | RangeChange v => on_range_change s v
  | ResetClick => on_reset s
  end.

Definition run (s : State) (events : list Event) : State :=
  fold_left handle events s.

(** ** The handlers in doubles *)

(** The same handlers with the result of each addition, subtraction,
    multiplication and division rounded by [rnd].  The products of
    integer literals ([5 * 60 * 1000], [hours * 60 * 60 * 1000]), the
    change of sign, [Math.max] and [Math.min] are exact in doubles.
    The tooltip of a move without drag is the one of [hitTest]. *)
Definition on_mousemove_rnd (rnd : Q -> Q) (s : State) (clientX clientY : Q)
    (rect : Rect) : State :=
  if isPanning s then
    let cssX := rnd (clientX - rect_left rect) in
    let dx := rnd (cssX - pan_x (panStart s)) in
    let span := rnd (pan_x1 (panStart s) - pan_x0 (panStart s)) in
    let pxSpan :=
      rnd (rnd (rect_width rect - pad_left padding) - pad_right padding) in
    let msPerPx := rnd (span / pxSpan) in
    let shift := rnd (- dx * msPerPx) in
    let new0 := clamp (rnd (pan_x0 (panStart s) + shift))
                      (xDomainAll s).1 (rnd ((xDomainAll s).2 - span)) in
    set_view s {| x0 := new0; x1 := rnd (new0 + span) |}
  else
    match hitTest s clientX clientY rect with
    | None => set_tooltip s None
    | Some hit => set_tooltip s (Some (hit_p hit))
    end.

Definition on_mousedown_rnd (rnd : Q -> Q) (s : State) (clientX : Q)
    (rect : Rect) : State :=
  let cssX := rnd (clientX - rect_left rect) in
  set_panning s true
    {| pan_x := cssX; pan_x0 := x0 (view s); pan_x1 := x1 (view s) |}.

Definition on_wheel_rnd (rnd : Q -> Q) (s : State) (clientX zoomFactor : Q)
    (rect : Rect) : State :=
  let cssX := rnd (clientX - rect_left rect) in
  let plotLeft := pad_left padding in
  let plotRight := rnd (rect_width rect - pad_right padding) in
  if Qltb cssX plotLeft || Qltb plotRight cssX then s
  else
    let centerRatio := rnd (rnd (cssX - plotLeft) / rnd (plotRight - plotLeft)) in
    let span := rnd (x1 (view s) - x0 (view s)) in
    let newSpan := clamp (rnd (span * zoomFactor)) (5 * 60 * 1000)
                         (rnd ((xDomainAll s).2 - (xDomainAll s).1)) in
    let center := rnd (x0 (view s) + rnd (span * centerRatio)) in
    let new0 := rnd (center - rnd (newSpan * centerRatio)) in
    let new1 := rnd (center + rnd (newSpan * rnd (1 - centerRatio))) in
    let '(new0, new1) :=
      if Qltb new0 (xDomainAll s).1
      then ((xDomainAll s).1, rnd (new1 + rnd ((xDomainAll s).1 - new0)))
      else (new0, new1) in
    let '(new0, new1) :=
      if Qltb (xDomainAll s).2 new1
      then (rnd (new0 - rnd (new1 - (xDomainAll s).2)), (xDomainAll s).2)
      else (new0, new1) in
    let new0 := clamp new0 (xDomainAll s).1 (rnd ((xDomainAll s).2 - newSpan)) in
    let new1 := rnd (new0 + newSpan) in
    set_view s {| x0 := new0; x1 := new1 |}.

Definition on_range_change_rnd (rnd : Q -> Q) (s : State) (v : string) : State :=
  if String.eqb v "all" then
    set_view s {| x0 := (xDomainAll s).1; x1 := (xDomainAll s).2 |}
  else
    let hours : Q := if String.eqb v "6h" then 6 else 24 in
    let end_ := (xDomainAll s).2 in
    let span := hours * 60 * 60 * 1000 in
    set_view s {| x0 := Qmax (xDomainAll s).1 (rnd (end_ - span)); x1 := end_ |}.

Definition handle_rnd (rnd : Q -> Q) (s : State) (e : Event) : State :=
  match e with
  | MouseMove cx cy r => on_mousemove_rnd rnd s cx cy r
  | MouseLeave => on_mouseleave s
  | MouseDown cx r => on_mousedown_rnd rnd s cx r
  | MouseUp => on_mouseup s
  | Wheel cx f r => on_wheel_rnd rnd s cx f r
  | RightAxisChange k => on_rightAxis_change s k
  | RangeChange v => on_range_change_rnd rnd s v
  | ResetClick => on_reset s
  end.

Definition run_rnd (rnd : Q -> Q) (s : State) (events : list Event) : State :=
  fold_left (handle_rnd rnd) events s.

(** ** Load (lines 479-513) *)

(** Lines 501-504, on the array [data] that the normalisation built:
    [None] is the error thrown for an empty array.  [pre] is the state
    when the file arrives: the handlers were registered before the
    fetch, and [main] assigns [data], [xDomainAll] and [view] alone. *)
Definition start (pre : State) (points : list Point) : option State :=
  match points with
  | [] => None
  | _ =>
      first ← at_index points 0;
      last ← at_index points (Z.of_nat (length points) - 1);
      let xDomainAll := (x first, x last) in
      Some {| data := points; rightKey := rightKey pre;
              xDomainAll := xDomainAll;
              view := {| x0 := xDomainAll.1; x1 := xDomainAll.2 |};
              isPanning := isPanning pre; panStart := panStart pre;
              tooltip := tooltip pre |}
  end.

Section Ingestion.
(** What the JavaScript runtime supplies: [Number(s)] and [String(n)]
    for a string [s] and a finite number [n], and the time value of
    [new Date(s)], [NaN] for an invalid date. *)
Variable Number_str : string -> num.
Variable String_num : Q -> string.
Variable Date_getTime : string -> num.

(** Lines 40-45: the object of one row. *)
Definition parse_row (headers cols : list string) : Row :=
  fold_left
    (fun (obj : Row) (kc : string * string) =>
       let key := kc.1 in
       let raw := trim kc.2 in
       match Number_str raw with
       | Fin q => <[key := CNum q]> obj
       | _ => <[key := CStr raw]> obj
       end)
    (zip headers cols) (∅ : Row).

(** Lines 36-47: the loop over the lines after the header. *)
Fixpoint parse_lines (headers : list string) (lines : list string) : list Row :=
  match lines with
  | [] => []
  | line :: rest =>
      let cols := split "," line in
      if negb (length cols =? length headers)%nat then parse_lines headers rest
      else parse_row headers cols :: parse_lines headers rest
  end.

Definition parseCSV (text : string) : list Row :=
  let lines := split (ascii_of_nat 10) (trim (remove_cr text)) in
  match lines with
  | [] | [_] => []
  | header :: rest => parse_lines (List.map trim (split "," header)) rest
  end.

(** The string of a property of a row that may be missing. *)
Definition ToString (v : option cell) : string :=
  match v with
  | None => "undefined"
  | Some (CNum q) => String_num q
  | Some (CStr s) => s
  end.

(** [Number(v)] of a property of a row that may be missing. *)
Definition ToNumber (v : option cell) : num :=
  match v with
  | None => NaN
  | Some (CNum q) => Fin q
  | Some (CStr s) => Number_str s
  end.

Definition pad2 (v : option cell) : string := padStart2 (ToString v).

(** [toDate(row)], as the time value of the date it returns. *)
Definition toDate (row : Row) : num :=
  let y := row !! "year" in
  let m := row !! "month" in
  let d := row !! "date" in
  let hh := row !! "hour" in
  let mm := row !! "min" in
  let ss := row !! "sec" in
  let iso := ToString y +:+ "-" +:+ pad2 m +:+ "-" +:+ pad2 d +:+ "T"
             +:+ pad2 hh +:+ ":" +:+ pad2 mm +:+ ":" +:+ pad2 ss in
  Date_getTime iso.

(** Lines 488-497. *)
Definition normalize_row (r : Row) : Normalized :=
  {| n_x := toDate r;
     n_temp_OUT := ToNumber (r !! "temp_OUT");
     n_moist_lv := ToNumber (r !! "moist_lv");
     n_light := ToNumber (r !! "light") |}.

(** Lines 487-499: [raw.map(...).filter(...).sort(...)]. *)
Definition normalize (raw : list Row) : list Point :=
  sort_by_x (omap finite_point (List.map normalize_row raw)).

(** What a line after the header gives to [data]: nothing when the
    number of its columns is not that of the header (line 38) or when
    its date is not finite (line 498). *)
Definition accepted (headers : list string) (line : string) : option Point :=
  let cols := split "," line in
  if (length cols =? length headers)%nat
  then finite_point (normalize_row (parse_row headers cols))
  else None.

(** [main], given the text of a response that was fetched and the
    state [pre] that the events before have left. *)
Definition main (pre : State) (text : string) : option State :=
  start pre (normalize (parseCSV text)).
End Ingestion.

(** ** The properties the theorems speak of *)

Definition span (v : View) : Q := x1 v - x0 v.

(** A window [a, b] lies in the extent of the data and is at least
    [minSpan] wide. *)
Definition window_ok (s : State) (a b : Q) : Prop :=
  (xDomainAll s).1 <= a /\ a < b /\ b <= (xDomainAll s).2 /\ minSpan <= b - a.

Definition view_ok (s : State) : Prop :=
  window_ok s (x0 (view s)) (x1 (view s)).

(** The canvas is wider than its two paddings, as it is once [draw] has
    given it a width of 680 pixels or more. *)
Definition rect_ok (rect : Rect) : Prop :=
  pad_left padding + pad_right padding < rect_width rect.

(** The events whose handler divides by the width of the plot carry a
    rectangle of positive plot width. *)
Definition event_ok (e : Event) : Prop :=
  match e with
  | MouseMove _ _ rect | Wheel _ _ rect => rect_ok rect
  | _ => True
  end.

(** The cursor of a wheel event is over the plot (line 429). *)
Definition over_plot (clientX : Q) (rect : Rect) : Prop :=
  pad_left padding <= clientX - rect_left rect
  /\ clientX - rect_left rect <= rect_width rect - pad_right padding.

(** The locals of the wheel handler: [centerRatio] (line 431), [newSpan]
    (line 434), [center] (line 436), and [new0] and [new1] as lines
    437-438 compute them, before the window is shifted and clamped. *)
Definition centerRatio (clientX : Q) (rect : Rect) : Q :=
  (clientX - rect_left rect - pad_left padding)
  / (rect_width rect - pad_right padding - pad_left padding).

Definition wheel_span (s : State) (zoomFactor : Q) : Q :=
  clamp (span (view s) * zoomFactor) (5 * 60 * 1000)
        ((xDomainAll s).2 - (xDomainAll s).1).

Definition anchorMs (s : State) (clientX : Q) (rect : Rect) : Q :=
  x0 (view s) + span (view s) * centerRatio clientX rect.

Definition wheel_new0 (s : State) (clientX zoomFactor : Q) (rect : Rect) : Q :=
  anchorMs s clientX rect - wheel_span s zoomFactor * centerRatio clientX rect.

Definition wheel_new1 (s : State) (clientX zoomFactor : Q) (rect : Rect) : Q :=
  anchorMs s clientX rect
  + wheel_span s zoomFactor * (1 - centerRatio clientX rect).

(** The window of lines 437-438 lies in the extent: lines 439-441 leave
    it as it is. *)
Definition no_shift (s : State) (clientX zoomFactor : Q) (rect : Rect) : Prop :=
  (xDomainAll s).1 <= wheel_new0 s clientX zoomFactor rect
  /\ wheel_new1 s clientX zoomFactor rect <= (xDomainAll s).2.

(** The local [shift] of the mousemove handler (lines 391-396). *)
Definition pan_shift (s : State) (clientX : Q) (rect : Rect) : Q :=
  - (clientX - rect_left rect - pan_x (panStart s))
  * ((pan_x1 (panStart s) - pan_x0 (panStart s))
     / (rect_width rect - pad_left padding - pad_right padding)).

(** What the handlers keep true from one event to the next: the window
    is a good one, and so is the window recorded when a drag began. *)
Definition session_ok (s : State) : Prop :=
  view_ok s
  /\ (isPanning s = true ->
      window_ok s (pan_x0 (panStart s)) (pan_x1 (panStart s))).

(** The same for a window that is only known not to be empty. *)
Definition session_open (s : State) : Prop :=
  x0 (view s) < x1 (view s)
  /\ (isPanning s = true -> pan_x0 (panStart s) < pan_x1 (panStart s)).

(** A rounding whose result is off by [eps] at most, for a result of
    magnitude [2^53] at most. *)
Definition max_error (rnd : Q -> Q) (eps : Q) : Prop :=
  forall q, Qabs q <= Qpower 2 53 -> Qabs (rnd q - q) <= eps.

(** A window [a, b] that is good up to [t]: it may end [t] after the
    extent of the data and be [t] less than [minSpan] wide. *)
Definition window_near (t : Q) (s : State) (a b : Q) : Prop :=
  (xDomainAll s).1 <= a /\ b <= (xDomainAll s).2 + t /\ minSpan - t <= b - a.

Definition session_near (t : Q) (s : State) : Prop :=
  window_near t s (x0 (view s)) (x1 (view s))
  /\ (isPanning s = true ->
      window_near t s (pan_x0 (panStart s)) (pan_x1 (panStart s))).

(** The test of line 429 and the local [newSpan] of line 434 in
    doubles. *)
Definition over_plot_rnd (rnd : Q -> Q) (clientX : Q) (rect : Rect) : Prop :=
  pad_left padding <= rnd (clientX - rect_left rect)
  /\ rnd (clientX - rect_left rect) <= rnd (rect_width rect - pad_right padding).

Definition wheel_span_rnd (rnd : Q -> Q) (s : State) (zoomFactor : Q) : Q :=
  clamp (rnd (rnd (x1 (view s) - x0 (view s)) * zoomFactor)) (5 * 60 * 1000)
        (rnd ((xDomainAll s).2 - (xDomainAll s).1)).

(** The divisors of the two handlers in doubles: [pxSpan] (line 393)
    and [plotRight - plotLeft] (line 431).  An event whose handler
    divides carries a rectangle for which the divisor is positive. *)
Definition pxSpan_rnd (rnd : Q -> Q) (rect : Rect) : Q :=
  rnd (rnd (rect_width rect - pad_left padding) - pad_right padding).

Definition plotWidth_rnd (rnd : Q -> Q) (rect : Rect) : Q :=
  rnd (rnd (rect_width rect - pad_right padding) - pad_left padding).

Definition event_ok_rnd (rnd : Q -> Q) (e : Event) : Prop :=
  match e with
  | MouseMove _ _ rect => 0 < pxSpan_rnd rnd rect
  | Wheel _ _ rect => 0 < plotWidth_rnd rnd rect
  | _ => True
  end.

(** What the roundings of [n] events can add up to: each event rounds
    the span it reads and the end of the window it writes. *)
Definition drift (eps : Q) (n : nat) : Q :=
  inject_Z (Z.of_nat n) * (2 * eps).

(** The value drawn for a point of a series: the points outside the
    window and the values that are not finite are passed over (lines
    234-236). *)
Definition drawn (plot : Plot) (key : Key) (p : Point) : option Q :=
  if Qltb (x p) (plot_x0 plot) || Qltb (plot_x1 plot) (x p) then None
  else match channel p key with Fin v => Some v | _ => None end.

(** The pixel of a point of a series. *)
Definition vertex (plot : Plot) (yDomain : Q * Q) (p : Point) (v : Q) : Q * Q :=
  (xToPx (x p) plot, yToPx v yDomain (plot_top plot) (plot_bottom plot)).

Definition vertices (plot : Plot) (key : Key) (yDomain : Q * Q)
    (data : list Point) : list (Q * Q) :=
  omap (fun p => v ← drawn plot key p; Some (vertex plot yDomain p v)) data.

(** One unbroken line through the given pixels. *)
Definition polyline (vs : list (Q * Q)) : list Cmd :=
  match vs with
  | [] => []
  | v :: vs' => MoveTo v.1 v.2 :: List.map (fun w => LineTo w.1 w.2) vs'
  end.

(** The pieces of a path: [moveTo] begins a piece, [lineTo] extends the
    piece it follows. *)
Definition subpath_step (c : Cmd) (acc : list (Q * Q) * list (list (Q * Q)))
  : list (Q * Q) * list (list (Q * Q)) :=
  match c with
  | LineTo a b => ((a, b) :: acc.1, acc.2)
  | MoveTo a b => ([], ((a, b) :: acc.1) :: acc.2)
  | _ => acc
  end.

Definition subpaths (cmds : list Cmd) : list (list (Q * Q)) :=
  let acc := fold_right subpath_step ([], []) cmds in
  match acc.1 with
  | [] => acc.2
  | pending => pending :: acc.2
  end.

(** The distance in time between a point and a target. *)
Definition time_distance (xVal : Q) (p : Point) : Q := Qabs (x p - xVal).

(** The points are in the order of their time. *)
Definition by_x (p q : Point) : Prop := x p <= x q.

(** The pointer is over the plot of a canvas (line 336). *)
Definition in_plot (mouseX mouseY : Q) (rect : Rect) : Prop :=
  pad_left padding <= mouseX - rect_left rect
  /\ mouseX - rect_left rect <= rect_width rect - pad_right padding
  /\ pad_top padding + legendH <= mouseY - rect_top rect
  /\ mouseY - rect_top rect <= rect_height rect - pad_bottom padding.

(** The plot [hitTest] builds (lines 327-334) and its target time. *)
Definition hit_plot_of (s : State) (rect : Rect) : Plot :=
  {| plot_left := pad_left padding;
     plot_right := rect_width rect - pad_right padding;
     plot_top := pad_top padding + legendH;
     plot_bottom := rect_height rect - pad_bottom padding;
     plot_x0 := x0 (view s);
     plot_x1 := x1 (view s) |}.

Definition target_time (s : State) (mouseX : Q) (rect : Rect) : Q :=
  pixel_time (hit_plot_of s rect) (mouseX - rect_left rect).

(** What the theorems ask of a rounding: it keeps the order, zero is a
    double, and a result of magnitude [2^53] at most is off by a half
    at most. *)
Record Rounding (rnd : Q -> Q) : Prop := {
  rnd_mono : forall a b, a <= b -> rnd a <= rnd b;
  rnd_zero : rnd 0 == 0;
  rnd_half : forall q, Qabs q <= Qpower 2 53 -> Qabs (rnd q - q) <= 1 # 2
}.

(** A value is a double: the rounding leaves it as it is. *)
Definition is_double (rnd : Q -> Q) (v : Q) : Prop := rnd v == v.


(** ** Sample sessions *)

(** A point with a temperature and nothing else of interest. *)
Definition sample (t temp : Q) : Point :=
  {| x := t; temp_OUT := Fin temp; moist_lv := Fin 0; light := Fin 0 |}.

(** A canvas of 928 by 520 pixels at the origin of the page: its plot is
    800 pixels wide, from 64 to 864, and 432 pixels high, from 42 to 474. *)
Definition canvas : Rect :=
  {| rect_left := 0; rect_top := 0; rect_width := 928; rect_height := 520 |}.

(** The state after a load of the given points with no event before
    it. *)
Definition loaded (points : list Point) : State :=
  default initial (start initial points).

(** Five points ten milliseconds apart. *)
Definition five_points : list Point :=
  [sample 0 1; sample 10 2; sample 20 3; sample 30 4; sample 40 5].

(** Two points at the same time, and a third ten milliseconds later. *)
Definition twin_points : list Point :=
  [sample 0 1; sample 0 2; sample 10 3].

(** Three rows that span one hour. *)
Definition hour_points : list Point :=
  [sample 0 20; sample 1800000 21; sample 3600000 22].

(** One row, and two rows one minute apart. *)
Definition one_point : list Point := [sample 1000 20].

Definition minute_points : list Point := [sample 0 20; sample 60000 21].

(** A reading that is missing between two readings. *)
Definition gap_points : list Point :=
  [sample 0 20;
   {| x := 1800000; temp_OUT := NaN; moist_lv := Fin 0; light := Fin 0 |};
   sample 3600000 22].

(** A runtime for the samples.  [Number] and [String] are those of the
    numbers written with decimal digits alone, the only ones the samples
    hold; the dates are read in a time zone that is UTC. *)
Fixpoint digits_value (s : string) (acc : N) : option N :=
  match s with
  | EmptyString => Some acc
  | String c s' =>
      let n := N_of_ascii c in
      if (48 <=? n)%N && (n <=? 57)%N
      then digits_value s' (acc * 10 + (n - 48))%N
      else None
  end.

Definition Number_dec (s : string) : num :=
  match s with
  | EmptyString => Fin 0
  | _ => match digits_value s 0 with
         | Some n => Fin (inject_Z (Z.of_N n))
         | None => NaN
         end
  end.

Definition String_dec (q : Q) : string :=
  NilZero.string_of_uint (N.to_uint (Z.to_N (Qfloor q))).

(** The days from 1970-01-01 to a day of the Gregorian calendar. *)
Definition days_from_civil (y m d : Z) : Z :=
  let y' := if (m <=? 2)%Z then (y - 1)%Z else y in
  let era := (y' / 400)%Z in
  let yoe := (y' - era * 400)%Z in
  let mp := ((m + 9) mod 12)%Z in
  let doy := ((153 * mp + 2) / 5 + d - 1)%Z in
  let doe := (yoe * 365 + yoe / 4 - yoe / 100 + doy)%Z in
  (era * 146097 + doe - 719468)%Z.

(** The decimal number written at [n, n + len) in [s]. *)
Definition field_at (s : string) (n len : nat) : option Z :=
  let f := substring n len s in
  if (String.length f =? len)%nat then Z.of_N <$> digits_value f 0 else None.

Definition sep_at (s : string) (n : nat) (c : ascii) : bool :=
  match get n s with Some c' => Ascii.eqb c c' | None => false end.

(** [new Date(s).getTime()] for [s] of the form YYYY-MM-DDTHH:MM:SS. *)
Definition Date_utc (s : string) : num :=
  match field_at s 0 4, field_at s 5 2, field_at s 8 2,
        field_at s 11 2, field_at s 14 2, field_at s 17 2 with
  | Some y, Some m, Some d, Some hh, Some mm, Some ss =>
      if (String.length s =? 19)%nat
         && sep_at s 4 "-" && sep_at s 7 "-" && sep_at s 10 "T"
         && sep_at s 13 ":" && sep_at s 16 ":"
         && (1 <=? m)%Z && (m <=? 12)%Z && (1 <=? d)%Z && (d <=? 31)%Z
         && (hh <=? 23)%Z && (mm <=? 59)%Z && (ss <=? 59)%Z
      then Fin (inject_Z ((((days_from_civil y m d * 24 + hh) * 60 + mm) * 60
                           + ss) * 1000))
      else NaN
  | _, _, _, _, _, _ => NaN
  end.

Definition LF : string := String (ascii_of_nat 10) EmptyString.

Definition csv_header : string :=
  "year,month,date,hour,min,sec,temp_OUT,moist_lv,light".

(** A file of four lines after the header: a reading at eleven, a line
    that lacks a column, a line whose month is not one, and a reading
    at ten. *)
Definition csv_text : string :=
  csv_header +:+ LF
  +:+ "2026,2,8,11,0,0,21,512,30" +:+ LF
  +:+ "2026,2,8,11,30,0,22,512" +:+ LF
  +:+ "2026,13,8,12,0,0,23,512,30" +:+ LF
  +:+ "2026,2,8,10,0,0,20,512,30" +:+ LF.

(** A file whose only reading has a temperature that is not a number. *)
Definition csv_text_abc : string :=
  csv_header +:+ LF +:+ "2026,2,8,10,0,0,abc,512,30".

(** A path passes through a pixel. *)
Definition draws (cmds : list Cmd) (w : Q * Q) : Prop :=
  In (MoveTo w.1 w.2) cmds \/ In (LineTo w.1 w.2) cmds.

(** A drag to the right, a zoom at the middle of the plot, the six hour
    range and a reset. *)
Definition hour_events : list Event :=
  [MouseDown 400 canvas; MouseMove 500 100 canvas; MouseUp;
   Wheel 464 (1 # 2) canvas; RangeChange "6h"; ResetClick].

(** The hour of [hour_points] after a zoom to its middle half: a window
    from a quarter past to a quarter to. *)
Definition zoomed : State := on_wheel (loaded hour_points) 464 (1 # 2) canvas.

(** The same window while it is dragged from the pixel 400. *)
Definition dragging : State := on_mousedown zoomed 400 canvas.

(** The minute of [minute_points] after a turn of the wheel, and the
    window it leaves while it is dragged from the pixel 400. *)
Definition short_zoomed : State :=
  on_wheel (loaded minute_points) 464 1 canvas.

Definition short_dragging : State := on_mousedown short_zoomed 400 canvas.

(** The hour of [hour_points] after a turn of the wheel near the left
    edge of the plot, computed in doubles, and the window it leaves
    while it is dragged from the pixel 400. *)
Definition fine_zoomed : State :=
  on_wheel_rnd round53 (loaded hour_points) 71 (1 # 16) canvas.

Definition fine_dragging : State := on_mousedown_rnd round53 fine_zoomed 400 canvas.

(** The hour of [hour_points], loaded after the right axis was set to
    [light]. *)
Definition late_hour : State :=
  default initial (start (run initial [RightAxisChange K_light]) hour_points).

(** The plot of [canvas] over the hour of [gap_points], and the domain
    of its temperatures. *)
Definition gap_plot : Plot := hit_plot_of (loaded gap_points) canvas.

Definition gap_domain : Q * Q :=
  domainForKey round53 gap_points K_temp_OUT (plot_x0 gap_plot, plot_x1 gap_plot).

(** The lines of [csv_text] after its header, and the state [main]
    leaves. *)
Definition csv_lines : list string :=
  ["2026,2,8,11,0,0,21,512,30"; "2026,2,8,11,30,0,22,512";
   "2026,13,8,12,0,0,23,512,30"; "2026,2,8,10,0,0,20,512,30"].

Definition csv_loaded : State :=
  default initial (main Number_dec String_dec Date_utc initial csv_text).

(** Two readings of 2^54, an hour apart. *)
Definition big_points : list Point :=
  [sample 0 18014398509481984; sample 3600000 18014398509481984].

(** ** Invariants of the loops *)

(** What the pair of [min] and [max] is after the points [seen]. *)
Definition acc_inv (key : Key) (lo hi : Q) (seen : list Point)
    (acc : num * num) : Prop :=
  match acc with
  | (Inf false, Inf true) => True
  | (Fin a, Fin b) =>
      a <= b
      /\ forall p v, In p seen -> lo <= x p <= hi -> channel p key = Fin v ->
                     a <= v <= b
  | _ => False
  end
  /\ (forall p v, In p seen -> lo <= x p <= hi -> channel p key = Fin v ->
                  isFinite acc.1 = true).

(** Where the loop of lines 341-345 stands: the points before [lo] are
    before the target, the points after [hi] are not, and neither is
    the point at [hi] once [hi] has moved. *)
Definition bracket (data : list Point) (xVal : Q) (lo hi : Z) : Prop :=
  (0 <= lo <= hi)%Z /\ (hi < Z.of_nat (length data))%Z
  /\ (forall j q, (j < lo)%Z -> at_index data j = Some q -> x q < xVal)
  /\ (forall j q, (hi < j)%Z -> at_index data j = Some q -> xVal <= x q)
  /\ (hi = (Z.of_nat (length data) - 1)%Z
      \/ exists q, at_index data hi = Some q /\ xVal <= x q).

(** The index lines 346-353 choose around the index [r] the search
    ended at: [r - 1] when the point there is strictly nearer, [r]
    otherwise, provided the point at [r + 1] is not nearer than both. *)
Definition chosen (data : list Point) (xVal : Q) (r : Z) (pr : Point) : Z :=
  match at_index data (r - 1) with
  | Some q => if Qltb (time_distance xVal q) (time_distance xVal pr)
              then (r - 1)%Z else r
  | None => r
  end.

(** ** Further parts of the program *)

(** The values the loop of line 85 (and of line 206) pushes when it
    runs [n] times from [v]: each is the one before plus [step]. *)
Fixpoint progression (v step : Q) (n : nat) : list Q :=
  match n with
  | O => []
  | S n' => v :: progression (v + step) step n'
  end.

(** The time axis of [drawAxes] (lines 194-206): the table of steps, the
    step chosen for a plot and the times at which a grid line and a
    label are drawn.  The fuel of the loop is one more than the number
    of whole steps from [start] to its bound. *)
Definition stepCandidates : list Q :=
  [5 * 60 * 1000; 10 * 60 * 1000; 15 * 60 * 1000; 30 * 60 * 1000;
   60 * 60 * 1000; 2 * 60 * 60 * 1000; 3 * 60 * 60 * 1000; 6 * 60 * 60 * 1000;
   12 * 60 * 60 * 1000; 24 * 60 * 60 * 1000].

Definition targetXTicks : Q := 7.

Definition timeStep (plot : Plot) : Q :=
  let xSpan := plot_x1 plot - plot_x0 plot in
  let raw := xSpan / targetXTicks in
  closest_step raw (hd 0 stepCandidates) stepCandidates.

Definition timeTicks (plot : Plot) : list Q :=
  let step := timeStep plot in
  let start := inject_Z (Qfloor (plot_x0 plot / step)) * step in
  let bound := plot_x1 plot + step in
  ticks_loop (S (Z.to_nat (Qfloor ((bound - start) / step)))) start bound step.

(** Where [showTooltip] puts the tooltip (lines 371-381): [tRect] is the
    bounding rectangle of the tooltip, the result is the pair of
    [left] and [top]. *)
Definition tooltip_position (cssX cssY : Q) (rect tRect : Rect) : Q * Q :=
  let pad := 12 in
  let left := cssX + pad in
  let top := cssY + pad in
  let left :=
    if Qltb (rect_width rect) (left + rect_width tRect)
    then cssX - rect_width tRect - pad else left in
  let top :=
    if Qltb (rect_height rect) (top + rect_height tRect)
    then cssY - rect_height tRect - pad else top in
  (left, top).

(** ** Further notions the theorems speak of *)

(** The finite values of a channel at the points of a window, in the
    order of the points. *)
Definition window_values (data : list Point) (key : Key) (lo hi : Q) : list Q :=
  omap (fun p =>
          if Qltb (x p) lo || Qltb hi (x p) then None
          else match channel p key with Fin v => Some v | _ => None end)
       data.

(** The events of a pointer that moves over the canvas or leaves it. *)
Definition hover_event (e : Event) : Prop :=
  match e with
  | MouseMove _ _ _ | MouseLeave => True
  | _ => False
  end.


(** The depth of the stack of saved states of the context after some
    calls, from the depth [d]: [None] when a [restore] finds it empty. *)
Fixpoint stack_depth (cmds : list Cmd) (d : nat) : option nat :=
  match cmds with
  | [] => Some d
  | Save :: rest => stack_depth rest (S d)
  | Restore :: rest =>
      match d with
      | O => None
      | S d' => stack_depth rest d'
      end
  | _ :: rest => stack_depth rest d
  end.

(** The bounding rectangle of a tooltip of 120 by 80 pixels. *)
Definition tip : Rect :=
  {| rect_left := 0; rect_top := 0; rect_width := 120; rect_height := 80 |}.

(* ================================================================== *)
(** * Part II: the proofs *)
(* ================================================================== *)

#[local] Close Scope string_scope.

(** ** Rational numbers and their tests *)

Lemma Qltb_lt (a b : Q) : Qltb a b = true <-> a < b.
Proof.
  unfold Qltb. rewrite negb_true_iff. split.
  - intros H. destruct (Qlt_le_dec a b) as [|Hle]; [done|].
    apply Qle_bool_iff in Hle. congruence.
  - intros H. destruct (Qle_bool b a) eqn:E; [|done].
    apply Qle_bool_iff in E. lra.
Qed.

Lemma Qltb_ge (a b : Q) : Qltb a b = false <-> b <= a.
Proof.
  unfold Qltb. rewrite negb_false_iff. apply Qle_bool_iff.
Qed.

Lemma Qle_bool_gt (a b : Q) : Qle_bool a b = false <-> b < a.
Proof.
  split.
  - intros H. destruct (Qlt_le_dec b a) as [|Hle]; [done|].
    apply Qle_bool_iff in Hle. congruence.
  - intros H. destruct (Qle_bool a b) eqn:E; [|done].
    apply Qle_bool_iff in E. lra.
Qed.

(** The tests of the program, read as the order they decide. *)
Ltac q_bool :=
  repeat match goal with
  | H : Qltb _ _ = true |- _ => apply Qltb_lt in H
  | H : Qltb _ _ = false |- _ => apply Qltb_ge in H
  | H : Qle_bool _ _ = true |- _ => apply Qle_bool_iff in H
  | H : Qle_bool _ _ = false |- _ => apply Qle_bool_gt in H
  | H : Qeq_bool _ _ = true |- _ => apply Qeq_bool_iff in H
  | H : Qeq_bool _ _ = false |- _ => apply Qeq_bool_neq in H
  end.

(** Each [Qmax] and [Qmin] is named and replaced by what it satisfies. *)
Ltac q_minmax :=
  repeat match goal with
  | |- context [Qmax ?a ?b] =>
      let m := fresh "m" in
      pose proof (Q.max_spec a b); set (m := Qmax a b) in *; clearbody m
  | |- context [Qmin ?a ?b] =>
      let m := fresh "m" in
      pose proof (Q.min_spec a b); set (m := Qmin a b) in *; clearbody m
  | H : context [Qmax ?a ?b] |- _ =>
      let m := fresh "m" in
      pose proof (Q.max_spec a b); set (m := Qmax a b) in *; clearbody m
  | H : context [Qmin ?a ?b] |- _ =>
      let m := fresh "m" in
      pose proof (Q.min_spec a b); set (m := Qmin a b) in *; clearbody m
  end.

Ltac q_solve := q_bool; q_minmax; intuition lra.

Lemma clamp_lower (v a b : Q) : a <= clamp v a b.
Proof. unfold clamp. q_solve. Qed.

Lemma clamp_upper (v a b : Q) : a <= b -> clamp v a b <= b.
Proof. unfold clamp. intros. q_solve. Qed.

Lemma clamp_id (v a b : Q) : a <= v <= b -> clamp v a b == v.
Proof. unfold clamp. intros. q_solve. Qed.

(** Closed facts about numbers are settled by computation. *)
Ltac q_compute :=
  vm_compute; repeat split; try reflexivity; try discriminate.

(** ** Rounding *)

(** *** Powers of two *)

Lemma pow2_pos (z : Z) : 0 < Qpower 2 z.
Proof. apply Qpower_0_lt. lra. Qed.

Lemma pow2_succ (z : Z) : Qpower 2 (z + 1) == 2 * Qpower 2 z.
Proof. rewrite Qpower_plus by lra. change (Qpower 2 1) with 2. ring. Qed.

Lemma pow2_le (x y : Z) : (x <= y)%Z -> Qpower 2 x <= Qpower 2 y.
Proof.
  intros H. replace y with (x + (y - x))%Z by lia.
  rewrite Qpower_plus by lra.
  assert (H1 : 1 <= Qpower 2 (y - x)).
  { apply Qpower_1_le; [lra|lia]. }
  pose proof (pow2_pos x). nra.
Qed.

Lemma pow2_lt_inv (x y : Z) : Qpower 2 x < Qpower 2 y -> (x < y)%Z.
Proof.
  intros H. destruct (Z.lt_ge_cases x y) as [|Hge]; [done|].
  pose proof (pow2_le y x Hge). lra.
Qed.

Lemma pow2_inject (n : Z) : (0 <= n)%Z -> inject_Z (2 ^ n) == Qpower 2 n.
Proof. intros H. rewrite Zpower_Qpower by done. reflexivity. Qed.

Lemma floor_log2_spec (q : Q) :
  0 < q -> Qpower 2 (floor_log2 q) <= q /\ q < Qpower 2 (floor_log2 q + 1).
Proof.
  intros Hq. unfold floor_log2.
  destruct q as [n d]. cbn [Qnum Qden].
  assert (Hn : (0 < n)%Z) by (unfold Qlt in Hq; cbn in Hq; lia).
  pose proof (Z.log2_spec n Hn) as [Hn1 Hn2].
  pose proof (Z.log2_spec (Zpos d) ltac:(lia)) as [Hd1 Hd2].
  pose proof (Z.log2_nonneg n) as Ha. pose proof (Z.log2_nonneg (Zpos d)) as Hb.
  set (a := Z.log2 n) in *. set (b := Z.log2 (Zpos d)) in *.
  assert (Hq' : (n # d) * inject_Z (Zpos d) == inject_Z n).
  { unfold Qeq, Qmult, inject_Z. cbn. lia. }
  assert (Hnq1 : Qpower 2 a <= inject_Z n).
  { rewrite <- pow2_inject by done. rewrite <- Zle_Qle. done. }
  assert (Hnq2 : inject_Z n < Qpower 2 (a + 1)).
  { rewrite <- pow2_inject by lia. rewrite <- Zlt_Qlt.
    replace (a + 1)%Z with (Z.succ a) by lia. done. }
  assert (Hdq1 : Qpower 2 b <= inject_Z (Zpos d)).
  { rewrite <- pow2_inject by done. rewrite <- Zle_Qle. done. }
  assert (Hdq2 : inject_Z (Zpos d) < Qpower 2 (b + 1)).
  { rewrite <- pow2_inject by lia. rewrite <- Zlt_Qlt.
    replace (b + 1)%Z with (Z.succ b) by lia. done. }
  assert (H1 : Qpower 2 (a + 1) == Qpower 2 (a - b + 1) * Qpower 2 b).
  { rewrite <- Qpower_plus by lra. replace (a - b + 1 + b)%Z with (a + 1)%Z by lia.
    reflexivity. }
  assert (H2 : Qpower 2 a == Qpower 2 (a - b - 1) * Qpower 2 (b + 1)).
  { rewrite <- Qpower_plus by lra. replace (a - b - 1 + (b + 1))%Z with a by lia.
    reflexivity. }
  pose proof (pow2_pos (a - b + 1)). pose proof (pow2_pos (a - b - 1)).
  pose proof (pow2_pos b). pose proof (pow2_pos (b + 1)).
  assert (Hd0 : 0 < inject_Z (Zpos d)) by (unfold Qlt; cbn; lia).
  assert (Hup : (n # d) < Qpower 2 (a - b + 1)).
  { set (Q1 := Qpower 2 (a - b + 1)) in *. set (D := inject_Z (Zpos d)) in *.
    set (B := Qpower 2 b) in *. set (qq := n # d) in *.
    clearbody Q1 D B qq. nra. }
  assert (Hlo : Qpower 2 (a - b - 1) < (n # d)).
  { set (Q1 := Qpower 2 (a - b - 1)) in *. set (D := inject_Z (Zpos d)) in *.
    set (B := Qpower 2 (b + 1)) in *. set (qq := n # d) in *.
    clearbody Q1 D B qq. nra. }
  destruct (Qle_bool (Qpower 2 (a - b)) (n # d)) eqn:E.
  - apply Qle_bool_iff in E. split; [done|done].
  - assert (E' : (n # d) < Qpower 2 (a - b)).
    { apply Qnot_le_lt. intros H'. apply Qle_bool_iff in H'. congruence. }
    split; [lra|]. replace (a - b - 1 + 1)%Z with (a - b)%Z by lia. done.
Qed.

(** *** Rounding to an integer *)

Lemma round_half_even_near (q : Q) :
  Qabs (inject_Z (round_half_even q) - q) <= 1 # 2.
Proof.
  unfold round_half_even.
  pose proof (Qfloor_le q) as H1. pose proof (Qlt_floor q) as H2.
  rewrite inject_Z_plus in H2. change (inject_Z 1) with 1 in H2.
  apply Qabs_Qle_condition.
  destruct (Qle_bool (q - inject_Z (Qfloor q)) (1 # 2)) eqn:E1.
  - apply Qle_bool_iff in E1.
    destruct (Qle_bool (1 # 2) (q - inject_Z (Qfloor q))) eqn:E2.
    + apply Qle_bool_iff in E2. destruct (Z.even (Qfloor q)).
      * lra.
      * rewrite inject_Z_plus. change (inject_Z 1) with 1. lra.
    + lra.
  - assert (E' : 1 # 2 < q - inject_Z (Qfloor q)).
    { apply Qnot_le_lt. intros H'. apply Qle_bool_iff in H'. congruence. }
    rewrite inject_Z_plus. change (inject_Z 1) with 1. lra.
Qed.

Lemma round_half_even_comp (p q : Q) :
  p == q -> round_half_even p = round_half_even q.
Proof.
  intros H. unfold round_half_even.
  assert (Hf : Qfloor p = Qfloor q) by (by apply Qfloor_comp).
  rewrite Hf.
  assert (Hr : p - inject_Z (Qfloor q) == q - inject_Z (Qfloor q)) by lra.
  assert (H1 : Qle_bool (p - inject_Z (Qfloor q)) (1 # 2)
               = Qle_bool (q - inject_Z (Qfloor q)) (1 # 2)).
  { destruct (Qle_bool (q - _) _) eqn:E.
    - apply Qle_bool_iff. apply Qle_bool_iff in E. lra.
    - destruct (Qle_bool (p - _) _) eqn:E'; [|done].
      apply Qle_bool_iff in E'. assert (Qle_bool (q - inject_Z (Qfloor q)) (1 # 2) = true)
        by (apply Qle_bool_iff; lra). congruence. }
  assert (H2 : Qle_bool (1 # 2) (p - inject_Z (Qfloor q))
               = Qle_bool (1 # 2) (q - inject_Z (Qfloor q))).
  { destruct (Qle_bool _ (q - _)) eqn:E.
    - apply Qle_bool_iff. apply Qle_bool_iff in E. lra.
    - destruct (Qle_bool _ (p - _)) eqn:E'; [|done].
      apply Qle_bool_iff in E'. assert (Qle_bool (1 # 2) (q - inject_Z (Qfloor q)) = true)
        by (apply Qle_bool_iff; lra). congruence. }
  by rewrite H1, H2.
Qed.

Lemma round_half_even_Z (z : Z) : round_half_even (inject_Z z) = z.
Proof.
  unfold round_half_even. rewrite Qfloor_Z.
  assert (H : inject_Z z - inject_Z z == 0) by ring.
  destruct (Qle_bool (inject_Z z - inject_Z z) (1 # 2)) eqn:E1.
  - destruct (Qle_bool (1 # 2) (inject_Z z - inject_Z z)) eqn:E2; [|done].
    apply Qle_bool_iff in E2. lra.
  - assert (Qle_bool (inject_Z z - inject_Z z) (1 # 2) = true)
      by (apply Qle_bool_iff; lra). congruence.
Qed.

Lemma round_half_even_mono (p q : Q) :
  p <= q -> (round_half_even p <= round_half_even q)%Z.
Proof.
  intros H.
  pose proof (round_half_even_near p) as Hp.
  pose proof (round_half_even_near q) as Hq.
  apply Qabs_Qle_condition in Hp, Hq.
  destruct (Z.le_gt_cases (round_half_even p) (round_half_even q)) as [|Hgt];
    [done|].
  assert (Hz : (round_half_even q + 1 <= round_half_even p)%Z) by lia.
  rewrite Zle_Qle, inject_Z_plus in Hz. change (inject_Z 1) with 1 in Hz.
  assert (Heq : p == q) by lra.
  rewrite (round_half_even_comp p q Heq) in Hgt. lia.
Qed.

(** *** The double nearest to a value *)

Lemma round53_cases (q : Q) :
  (q == 0 /\ round53 q = 0)
  \/ (0 < q /\ round53 q = mag (Qabs q))
  \/ (q < 0 /\ round53 q = - mag (Qabs q)).
Proof.
  unfold round53.
  destruct (Qeq_bool q 0) eqn:E0.
  - left. apply Qeq_bool_iff in E0. by split.
  - apply Qeq_bool_neq in E0. right.
    destruct (Qle_bool 0 q) eqn:E1.
    + apply Qle_bool_iff in E1. left. split; [|done].
      destruct (Qlt_le_dec 0 q) as [|Hle]; [done|]. exfalso. apply E0. lra.
    + right. split; [|done]. apply Qnot_le_lt. intros H.
      apply Qle_bool_iff in H. congruence.
Qed.

Lemma ulp_scale (e : Z) : Qpower 2 52 * Qpower 2 (e - 52) == Qpower 2 e.
Proof.
  rewrite <- Qpower_plus by lra. replace (52 + (e - 52))%Z with e by lia.
  reflexivity.
Qed.

Lemma mag_scaled (a : Q) :
  0 < a ->
  Qpower 2 52 <= a / Qpower 2 (floor_log2 a - 52)
  /\ a / Qpower 2 (floor_log2 a - 52) < Qpower 2 53
  /\ a / Qpower 2 (floor_log2 a - 52) * Qpower 2 (floor_log2 a - 52) == a.
Proof.
  intros Ha. destruct (floor_log2_spec a Ha) as [H1 H2].
  pose proof (pow2_pos (floor_log2 a - 52)) as Hu.
  pose proof (ulp_scale (floor_log2 a)) as Hs.
  rewrite pow2_succ in H2.
  assert (H53 : Qpower 2 53 == 2 * Qpower 2 52) by (vm_compute; reflexivity).
  set (u := Qpower 2 (floor_log2 a - 52)) in *.
  split; [apply Qle_shift_div_l; [done|lra]|].
  split; [apply Qlt_shift_div_r; [done|]; lra|].
  field. lra.
Qed.

Lemma mag_bounds (a : Q) :
  0 < a ->
  Qpower 2 (floor_log2 a) <= mag a /\ mag a <= Qpower 2 (floor_log2 a + 1).
Proof.
  intros Ha. destruct (mag_scaled a Ha) as (H1 & H2 & _).
  pose proof (pow2_pos (floor_log2 a - 52)) as Hu.
  pose proof (ulp_scale (floor_log2 a)) as Hs.
  pose proof (pow2_succ (floor_log2 a)) as Hs1.
  assert (H53 : Qpower 2 53 == 2 * Qpower 2 52) by (vm_compute; reflexivity).
  unfold mag. set (x := a / Qpower 2 (floor_log2 a - 52)) in *.
  assert (Hlo : (2 ^ 52 <= round_half_even x)%Z).
  { rewrite <- (round_half_even_Z (2 ^ 52)). apply round_half_even_mono.
    rewrite pow2_inject by lia. done. }
  assert (Hhi : (round_half_even x <= 2 ^ 53)%Z).
  { rewrite <- (round_half_even_Z (2 ^ 53)). apply round_half_even_mono.
    rewrite pow2_inject by lia. lra. }
  rewrite Zle_Qle in Hlo, Hhi. rewrite pow2_inject in Hlo, Hhi by lia.
  set (r := inject_Z (round_half_even x)) in *.
  set (u := Qpower 2 (floor_log2 a - 52)) in *.
  clearbody r u. split; nra.
Qed.

Lemma mag_near (a : Q) :
  0 < a -> Qabs (mag a - a) <= (1 # 2) * Qpower 2 (floor_log2 a - 52).
Proof.
  intros Ha. destruct (mag_scaled a Ha) as (_ & _ & H3).
  pose proof (pow2_pos (floor_log2 a - 52)) as Hu.
  unfold mag. set (x := a / Qpower 2 (floor_log2 a - 52)) in *.
  pose proof (round_half_even_near x) as Hn.
  apply Qabs_Qle_condition in Hn. apply Qabs_Qle_condition.
  set (r := inject_Z (round_half_even x)) in *.
  set (u := Qpower 2 (floor_log2 a - 52)) in *.
  clearbody r u x. split; nra.
Qed.

Lemma floor_log2_mono (a b : Q) :
  0 < a -> a <= b -> (floor_log2 a <= floor_log2 b)%Z.
Proof.
  intros Ha Hab.
  destruct (floor_log2_spec a Ha) as [H1 _].
  destruct (floor_log2_spec b ltac:(lra)) as [_ H2].
  assert (H : Qpower 2 (floor_log2 a) < Qpower 2 (floor_log2 b + 1)) by lra.
  apply pow2_lt_inv in H. lia.
Qed.

Lemma mag_mono (a b : Q) : 0 < a -> a <= b -> mag a <= mag b.
Proof.
  intros Ha Hab. assert (Hb : 0 < b) by lra.
  pose proof (floor_log2_mono a b Ha Hab) as He.
  destruct (Z.eq_dec (floor_log2 a) (floor_log2 b)) as [Heq|Hne].
  - unfold mag. rewrite Heq.
    pose proof (pow2_pos (floor_log2 b - 52)) as Hu.
    assert (Hx : a / Qpower 2 (floor_log2 b - 52)
                 <= b / Qpower 2 (floor_log2 b - 52)).
    { apply Qmult_le_compat_r; [done|]. apply Qinv_le_0_compat. lra. }
    apply round_half_even_mono in Hx. rewrite Zle_Qle in Hx.
    set (u := Qpower 2 (floor_log2 b - 52)) in *. clearbody u. nra.
  - destruct (mag_bounds a Ha) as [_ H1]. destruct (mag_bounds b Hb) as [H2 _].
    pose proof (pow2_le (floor_log2 a + 1) (floor_log2 b) ltac:(lia)). lra.
Qed.

Lemma mag_pos (a : Q) : 0 < a -> 0 < mag a.
Proof.
  intros Ha. destruct (mag_bounds a Ha) as [H _].
  pose proof (pow2_pos (floor_log2 a)). lra.
Qed.

Lemma Qabs_of_pos (q : Q) : 0 < q -> 0 < Qabs q /\ Qabs q == q.
Proof. intros H. rewrite Qabs_pos by lra. split; [done|reflexivity]. Qed.

Lemma Qabs_of_neg (q : Q) : q < 0 -> 0 < Qabs q /\ Qabs q == - q.
Proof. intros H. rewrite Qabs_neg by lra. split; [lra|reflexivity]. Qed.

Lemma round53_mono (a b : Q) : a <= b -> round53 a <= round53 b.
Proof.
  intros Hab.
  destruct (round53_cases a) as [[Ha ->]|[[Ha ->]|[Ha ->]]];
    destruct (round53_cases b) as [[Hb ->]|[[Hb ->]|[Hb ->]]]; try lra.
  - destruct (Qabs_of_pos b Hb) as [Hpb _]. pose proof (mag_pos _ Hpb). lra.
  - destruct (Qabs_of_pos a Ha) as [Hpa Hea].
    destruct (Qabs_of_pos b Hb) as [Hpb Heb].
    apply mag_mono; [done|lra].
  - destruct (Qabs_of_neg a Ha) as [Hpa _]. pose proof (mag_pos _ Hpa). lra.
  - destruct (Qabs_of_neg a Ha) as [Hpa _]. pose proof (mag_pos _ Hpa).
    destruct (Qabs_of_pos b Hb) as [Hpb _]. pose proof (mag_pos _ Hpb). lra.
  - destruct (Qabs_of_neg a Ha) as [Hpa Hea].
    destruct (Qabs_of_neg b Hb) as [Hpb Heb].
    assert (H : mag (Qabs b) <= mag (Qabs a)) by (apply mag_mono; [done|lra]).
    lra.
Qed.

Lemma mag_half (a : Q) :
  0 < a -> a <= Qpower 2 53 -> Qabs (mag a - a) <= 1 # 2.
Proof.
  intros Ha Hle. destruct (floor_log2_spec a Ha) as [H1 H2].
  assert (He : (floor_log2 a <= 53)%Z).
  { assert (H : Qpower 2 (floor_log2 a) < Qpower 2 54).
    { assert (Qpower 2 53 < Qpower 2 54) by (vm_compute; reflexivity). lra. }
    apply pow2_lt_inv in H. lia. }
  destruct (Z.eq_dec (floor_log2 a) 53%Z) as [E|E].
  - rewrite E in H1. assert (Heq : a == Qpower 2 53) by lra.
    unfold mag. rewrite E. change (53 - 52)%Z with 1%Z. change (Qpower 2 1) with 2.
    assert (Hx : a / 2 == inject_Z (2 ^ 52)).
    { rewrite Heq. vm_compute. reflexivity. }
    rewrite (round_half_even_comp _ _ Hx), round_half_even_Z.
    assert (H0 : inject_Z (2 ^ 52) * 2 - a == 0).
    { rewrite Heq. vm_compute. reflexivity. }
    rewrite H0. done.
  - pose proof (mag_near a Ha) as Hn.
    pose proof (pow2_le (floor_log2 a - 52) 0 ltac:(lia)) as Hu.
    change (Qpower 2 0) with 1 in Hu.
    pose proof (pow2_pos (floor_log2 a - 52)).
    eapply Qle_trans; [exact Hn|]. lra.
Qed.

Lemma Rounding_round53 : Rounding round53.
Proof.
  split.
  - exact round53_mono.
  - reflexivity.
  - intros q Hq.
    destruct (round53_cases q) as [[H ->]|[[H ->]|[H ->]]].
    + apply Qabs_Qle_condition. lra.
    + destruct (Qabs_of_pos q H) as [Hp He].
      pose proof (mag_half (Qabs q) Hp Hq) as Hm.
      apply Qabs_Qle_condition in Hm. apply Qabs_Qle_condition. lra.
    + destruct (Qabs_of_neg q H) as [Hp He].
      pose proof (mag_half (Qabs q) Hp Hq) as Hm.
      apply Qabs_Qle_condition in Hm. apply Qabs_Qle_condition. lra.
Qed.

Lemma Rounding_exact : Rounding exact_result.
Proof.
  split; unfold exact_result.
  - done.
  - reflexivity.
  - intros q _. assert (H : q - q == 0) by ring.
    rewrite H. done.
Qed.

(** ** niceTicks *)



Lemma pow10_0 : pow10 0 == 1.
Proof. reflexivity. Qed.








(** The loop of line 79 returns a candidate, and none is nearer. *)
Lemma closest_step_spec (raw : Q) (candidates : list Q) :
  forall step0,
    In (closest_step raw step0 candidates) (step0 :: candidates)
    /\ forall c, In c (step0 :: candidates) ->
                 Qabs (closest_step raw step0 candidates - raw) <= Qabs (c - raw).
Proof.
  unfold closest_step.
  induction candidates as [|c cs IH]; intros step0.
  - simpl. split; [by left|]. intros c [<-|[]]. lra.
  - cbn [fold_left]. destruct (Qltb _ _) eqn:E; q_bool.
    + destruct (IH c) as [Hin Hmin]. split; [by right|].
      intros c' [<-|Hc'].
      * specialize (Hmin c (or_introl eq_refl)). lra.
      * by apply Hmin.
    + destruct (IH step0) as [Hin Hmin]. split.
      * destruct Hin as [<-|Hin]; [by left|right; by right].
      * intros c' [<-|[<-|Hc']].
        -- apply Hmin. by left.
        -- specialize (Hmin step0 (or_introl eq_refl)). lra.
        -- apply Hmin. by right.
Qed.



(** The loop of the time axis ends by its test once the fuel exceeds
    the number of steps from [v] to [bound]: more fuel changes
    nothing. *)
Lemma ticks_loop_ends (st bound : Q) :
  0 < st ->
  forall (fuel : nat) (v : Q) (extra : nat),
    (bound - v) / st < inject_Z (Z.of_nat fuel) ->
    ticks_loop (fuel + extra) v bound st = ticks_loop fuel v bound st.
Proof.
  intros Hst. induction fuel as [|fuel IH]; intros v extra Hv.
  - assert (bound < v).
    { change (inject_Z (Z.of_nat 0)) with 0 in Hv.
      assert (Hd : bound - v == (bound - v) / st * st) by (field; lra).
      set (q := (bound - v) / st) in *. clearbody q. nra. }
    destruct extra as [|extra]; [done|]. cbn [Nat.add ticks_loop].
    destruct (Qle_bool v bound) eqn:E; [q_bool; lra|done].
  - cbn [Nat.add ticks_loop]. destruct (Qle_bool v bound); [|done].
    f_equal. apply IH.
    rewrite Nat2Z.inj_succ in Hv. unfold Z.succ in Hv. rewrite inject_Z_plus in Hv.
    change (inject_Z 1) with 1 in Hv.
    assert (Heq : (bound - (v + st)) / st == (bound - v) / st - 1) by (field; lra).
    lra.
Qed.

(** *** The loop of line 85 *)








(** ** Ingestion *)

(** *** The sort of line 499 *)

Lemma insert_by_x_perm (p : Point) (l : list Point) :
  Permutation (insert_by_x p l) (p :: l).
Proof.
  induction l as [|q l IH]; [done|]. cbn [insert_by_x].
  destruct (Qle_bool (x p) (x q)); [done|].
  rewrite IH. apply perm_swap.
Qed.

Lemma insert_by_x_hd (p a : Point) (l : list Point) :
  by_x a p -> HdRel by_x a l -> HdRel by_x a (insert_by_x p l).
Proof.
  intros Hap Hl. destruct l as [|q l]; cbn [insert_by_x]; [by constructor|].
  destruct (Qle_bool (x p) (x q)); constructor; [done|].
  by inversion Hl.
Qed.

Lemma insert_by_x_sorted (p : Point) (l : list Point) :
  Sorted by_x l -> Sorted by_x (insert_by_x p l).
Proof.
  induction 1 as [|q l Hs IH Hhd]; cbn [insert_by_x].
  - by repeat constructor.
  - destruct (Qle_bool (x p) (x q)) eqn:E; q_bool.
    + constructor; [by constructor|]. by constructor.
    + constructor; [done|]. apply insert_by_x_hd; [|done].
      unfold by_x. lra.
Qed.

Lemma sort_by_x_perm (l : list Point) : Permutation (sort_by_x l) l.
Proof.
  induction l as [|p l IH]; [done|]. cbn [sort_by_x fold_right].
  rewrite insert_by_x_perm. by constructor.
Qed.

Lemma sort_by_x_sorted (l : list Point) : Sorted by_x (sort_by_x l).
Proof.
  induction l as [|p l IH]; [constructor|].
  cbn [sort_by_x fold_right]. by apply insert_by_x_sorted.
Qed.

(** *** parseCSV and main *)

Section IngestionFacts.
Variable Number_str : string -> num.
Variable String_num : Q -> string.
Variable Date_getTime : string -> num.

Lemma normalize_parse_lines (headers : list string) (lines : list string) :
  omap finite_point
       (List.map (normalize_row Number_str String_num Date_getTime)
                 (parse_lines Number_str headers lines))
  = omap (accepted Number_str String_num Date_getTime headers) lines.
Proof.
  induction lines as [|line lines IH]; [done|].
  cbn [parse_lines omap list_omap]. unfold accepted at 1.
  destruct (length (split "," line) =? length headers)%nat; cbn [negb].
  - cbn [List.map omap list_omap]. by rewrite IH.
  - exact IH.
Qed.

Lemma start_data (pre : State) (points : list Point) (s : State) :
  start pre points = Some s -> data s = points.
Proof.
  unfold start. destruct points as [|p l]; [done|].
  destruct (at_index _ 0) as [a|]; [|done].
  destruct (at_index _ _) as [b|]; [|done].
  cbn. by intros [= <-].
Qed.

Lemma finite_point_spec (n : Normalized) (p : Point) :
  finite_point n = Some p ->
  n_x n = Fin (x p) /\ temp_OUT p = n_temp_OUT n
  /\ moist_lv p = n_moist_lv n /\ light p = n_light n.
Proof.
  unfold finite_point. destruct (n_x n); [done|done|]. by intros [= <-].
Qed.

(** C9, as amended.  When [main] succeeds on a text of a header and
    the lines [rest], whatever the events before it have left, [data]
    is sorted by time and holds, once each,
    what the lines of [rest] give: a line gives a point only if it has
    as many columns as the header and the date composed from its row is
    a finite instant.  A field that does not parse as a number does not
    keep a row out: the channels of the point are what [Number] makes
    of the cells, finite or not. *)
Theorem ingestion_contract (pre : State) (text header : string)
    (rest : list string) (s : State) :
  split (ascii_of_nat 10) (trim (remove_cr text)) = header :: rest ->
  main Number_str String_num Date_getTime pre text = Some s ->
  Sorted by_x (data s)
  /\ Permutation (data s)
       (omap (accepted Number_str String_num Date_getTime
                       (List.map trim (split "," header))) rest)
  /\ forall line p,
       accepted Number_str String_num Date_getTime
                (List.map trim (split "," header)) line = Some p ->
       let row := parse_row Number_str (List.map trim (split "," header))
                            (split "," line) in
       length (split "," line) = length (List.map trim (split "," header))
       /\ toDate String_num Date_getTime row = Fin (x p)
       /\ temp_OUT p = ToNumber Number_str (row !! "temp_OUT"%string)
       /\ moist_lv p = ToNumber Number_str (row !! "moist_lv"%string)
       /\ light p = ToNumber Number_str (row !! "light"%string).
Proof.
  intros Hlines Hmain. unfold main in Hmain.
  apply start_data in Hmain. rewrite Hmain. clear Hmain s.
  unfold normalize, parseCSV. rewrite Hlines.
  split; [apply sort_by_x_sorted|]. split.
  - rewrite sort_by_x_perm. destruct rest as [|line rest]; [done|].
    by rewrite normalize_parse_lines.
  - intros line p. unfold accepted.
    destruct (Nat.eqb_spec (length (split "," line))
                (length (List.map trim (split "," header)))); [|done].
    intros Hp%finite_point_spec. by split.
Qed.
End IngestionFacts.

(** C9 on [csv_text]: of its four lines the two whole readings are
    kept, the earlier first. *)
Lemma ingestion_witness :
  Sorted by_x (data csv_loaded)
  /\ Permutation (data csv_loaded)
       (omap (accepted Number_dec String_dec Date_utc
                (List.map trim (split "," csv_header))) csv_lines)
  /\ forall line p,
       accepted Number_dec String_dec Date_utc
                (List.map trim (split "," csv_header)) line = Some p ->
       let row := parse_row Number_dec (List.map trim (split "," csv_header))
                            (split "," line) in
       length (split "," line) = length (List.map trim (split "," csv_header))
       /\ toDate String_dec Date_utc row = Fin (x p)
       /\ temp_OUT p = ToNumber Number_dec (row !! "temp_OUT"%string)
       /\ moist_lv p = ToNumber Number_dec (row !! "moist_lv"%string)
       /\ light p = ToNumber Number_dec (row !! "light"%string).
Proof.
  apply (ingestion_contract Number_dec String_dec Date_utc initial csv_text
           csv_header csv_lines csv_loaded); vm_compute; reflexivity.
Defined.

(** Against C9 as stated: the temperature [abc] of [csv_text_abc] does
    not parse, and its row is in [data], with [NaN] for temperature. *)
Lemma row_with_unparsed_field_accepted :
  Number_dec "abc" = NaN
  /\ exists s,
       main Number_dec String_dec Date_utc initial csv_text_abc = Some s
       /\ data s = [{| x := 1770544800000; temp_OUT := NaN;
                       moist_lv := Fin 512; light := Fin 30 |}].
Proof.
  split; [reflexivity|]. eexists. split; vm_compute; reflexivity.
Qed.

(** ** The window *)

Lemma on_wheel_cases (s : State) (cx f : Q) (r : Rect) :
  on_wheel s cx f r = s
  \/ exists new0,
      on_wheel s cx f r
      = set_view s {| x0 := clamp new0 (xDomainAll s).1
                                  ((xDomainAll s).2 - wheel_span s f);
                      x1 := clamp new0 (xDomainAll s).1
                                  ((xDomainAll s).2 - wheel_span s f)
                            + wheel_span s f |}.
Proof.
  unfold on_wheel, wheel_span, span.
  destruct (Qltb _ _ || Qltb _ _); [by left|right].
  repeat match goal with |- context [if ?b then _ else _] => destruct b end;
    eexists; reflexivity.
Qed.

Lemma minSpan_pos : 0 < minSpan.
Proof. unfold minSpan. lra. Qed.

Lemma wheel_span_lower (s : State) (f : Q) : minSpan <= wheel_span s f.
Proof. unfold wheel_span, minSpan. apply clamp_lower. Qed.

Lemma wheel_span_upper (s : State) (f : Q) :
  minSpan <= (xDomainAll s).2 - (xDomainAll s).1 ->
  wheel_span s f <= (xDomainAll s).2 - (xDomainAll s).1.
Proof. unfold wheel_span, minSpan. apply clamp_upper. Qed.

Lemma window_ok_extent (s : State) (a b : Q) :
  window_ok s a b -> minSpan <= (xDomainAll s).2 - (xDomainAll s).1.
Proof. unfold window_ok. lra. Qed.

Lemma window_ok_clamped (s : State) (v w : Q) :
  minSpan <= w <= (xDomainAll s).2 - (xDomainAll s).1 ->
  let a := clamp v (xDomainAll s).1 ((xDomainAll s).2 - w) in
  window_ok s a (a + w).
Proof.
  intros Hw a. pose proof minSpan_pos.
  pose proof (clamp_lower v (xDomainAll s).1 ((xDomainAll s).2 - w)).
  pose proof (clamp_upper v (xDomainAll s).1 ((xDomainAll s).2 - w)).
  unfold window_ok. fold a in H0, H1. repeat split; lra.
Qed.

Lemma on_wheel_ok (s : State) (cx f : Q) (r : Rect) :
  session_ok s -> session_ok (on_wheel s cx f r).
Proof.
  intros [Hv Hp].
  destruct (on_wheel_cases s cx f r) as [->|[new0 ->]]; [by split|].
  pose proof (window_ok_extent _ _ _ Hv) as Hext.
  split; [|exact Hp].
  apply (window_ok_clamped s new0 (wheel_span s f)).
  split; [apply wheel_span_lower|by apply wheel_span_upper].
Qed.

Lemma on_mousemove_ok (s : State) (cx cy : Q) (r : Rect) :
  session_ok s -> session_ok (on_mousemove s cx cy r).
Proof.
  intros [Hv Hp]. unfold on_mousemove.
  destruct (isPanning s) eqn:Hpan.
  - specialize (Hp eq_refl). split; [|intros _; exact Hp].
    match goal with |- view_ok (set_view _ {| x0 := clamp ?v _ _ ; x1 := _ |}) =>
      apply (window_ok_clamped s v (pan_x1 (panStart s) - pan_x0 (panStart s))) end.
    unfold window_ok in Hp. lra.
  - destruct (hitTest s cx cy r); (split; [exact Hv|simpl; congruence]).
Qed.

Lemma on_range_change_ok (s : State) (v : string) :
  session_ok s -> session_ok (on_range_change s v).
Proof.
  intros [Hv Hp]. pose proof (window_ok_extent _ _ _ Hv) as Hext.
  pose proof minSpan_pos.
  unfold on_range_change.
  destruct (String.eqb v "all"); (split; [|exact Hp]).
  - unfold view_ok, window_ok; simpl. lra.
  - unfold view_ok, window_ok; simpl.
    assert (Hh : minSpan <= (if String.eqb v "6h" then 6 else 24) * 60 * 60 * 1000).
    { unfold minSpan. destruct (String.eqb v "6h"); lra. }
    revert Hh. generalize ((if String.eqb v "6h" then 6 else 24) * 60 * 60 * 1000).
    intros hs Hh. q_solve.
Qed.

Lemma on_reset_ok (s : State) : session_ok s -> session_ok (on_reset s).
Proof.
  intros [Hv Hp]. pose proof (window_ok_extent _ _ _ Hv) as Hext.
  pose proof minSpan_pos.
  split; [|exact Hp]. unfold view_ok, window_ok; simpl. lra.
Qed.

Lemma handle_ok (s : State) (e : Event) : session_ok s -> session_ok (handle s e).
Proof.
  intros H. destruct e; simpl.
  - by apply on_mousemove_ok.
  - exact H.
  - destruct H as [Hv Hp]. split; [exact Hv|]. intros _. exact Hv.
  - destruct H as [Hv Hp]. split; [exact Hv|]. simpl. discriminate.
  - by apply on_wheel_ok.
  - exact H.
  - by apply on_range_change_ok.
  - by apply on_reset_ok.
Qed.

Lemma handle_xDomainAll (s : State) (e : Event) :
  xDomainAll (handle s e) = xDomainAll s /\ data (handle s e) = data s.
Proof.
  destruct e; simpl; try done.
  - unfold on_mousemove. destruct (isPanning s); [done|].
    by destruct (hitTest _ _ _ _).
  - by destruct (on_wheel_cases s clientX zoomFactor rect) as [->|[new0 ->]].
  - unfold on_range_change. by destruct (String.eqb _ _).
Qed.

Lemma run_ok (events : list Event) (s : State) :
  session_ok s -> session_ok (run s events).
Proof.
  revert s. induction events as [|e events IH]; intros s H; [exact H|].
  simpl. apply IH. by apply handle_ok.
Qed.

Lemma run_xDomainAll (events : list Event) (s : State) :
  xDomainAll (run s events) = xDomainAll s /\ data (run s events) = data s.
Proof.
  revert s. induction events as [|e events IH]; intros s; [done|].
  simpl. destruct (IH (handle s e)) as [-> ->]. apply handle_xDomainAll.
Qed.

Lemma on_wheel_unshifted (s : State) (cx f : Q) (r : Rect) :
  over_plot cx r ->
  minSpan <= (xDomainAll s).2 - (xDomainAll s).1 ->
  (xDomainAll s).1 <= wheel_new0 s cx f r ->
  wheel_new1 s cx f r <= (xDomainAll s).2 ->
  x0 (view (on_wheel s cx f r)) == wheel_new0 s cx f r
  /\ x1 (view (on_wheel s cx f r)) == wheel_new1 s cx f r.
Proof.
  intros [Hl Hr] Hext H0 H1.
  pose proof (wheel_span_lower s f) as Hlo.
  pose proof (wheel_span_upper s f Hext) as Hhi.
  unfold on_wheel.
  destruct (Qltb (cx - rect_left r) _) eqn:E1; [q_bool; lra|].
  destruct (Qltb _ (cx - rect_left r)) eqn:E2; [q_bool; lra|].
  cbn [orb].
  change (x1 (view s) - x0 (view s)) with (span (view s)).
  change ((cx - rect_left r - pad_left padding)
          / (rect_width r - pad_right padding - pad_left padding))
    with (centerRatio cx r).
  change (clamp (span (view s) * f) (5 * 60 * 1000)
                ((xDomainAll s).2 - (xDomainAll s).1)) with (wheel_span s f).
  change (x0 (view s) + span (view s) * centerRatio cx r) with (anchorMs s cx r).
  change (anchorMs s cx r - wheel_span s f * centerRatio cx r)
    with (wheel_new0 s cx f r).
  change (anchorMs s cx r + wheel_span s f * (1 - centerRatio cx r))
    with (wheel_new1 s cx f r).
  assert (Hd : wheel_new1 s cx f r - wheel_new0 s cx f r == wheel_span s f)
    by (unfold wheel_new0, wheel_new1; ring).
  destruct (Qltb (wheel_new0 s cx f r) _) eqn:E3; [q_bool; lra|].
  destruct (Qltb _ (wheel_new1 s cx f r)) eqn:E4; [q_bool; lra|].
  cbn [set_view view x0 x1].
  pose proof (clamp_id (wheel_new0 s cx f r) (xDomainAll s).1
                ((xDomainAll s).2 - wheel_span s f)) as Hc.
  split; [apply Hc; lra|]. rewrite Hc by lra. lra.
Qed.

(** *** Load *)

Lemma at_index_last (points : list Point) (p : Point) :
  at_index (points ++ [p]) (Z.of_nat (length (points ++ [p])) - 1) = Some p.
Proof.
  unfold at_index. rewrite length_app. simpl length.
  case Z.ltb_spec; [lia|intros _].
  replace (Z.to_nat _) with (length points) by lia.
  by rewrite list_lookup_middle.
Qed.

Lemma start_some (pre : State) (points : list Point) (first last : Point) :
  at_index points 0 = Some first ->
  at_index points (Z.of_nat (length points) - 1) = Some last ->
  start pre points
  = Some {| data := points; rightKey := rightKey pre;
            xDomainAll := (x first, x last);
            view := {| x0 := x first; x1 := x last |};
            isPanning := isPanning pre;
            panStart := panStart pre;
            tooltip := tooltip pre |}.
Proof.
  intros H0 H1. unfold start. destruct points as [|p points]; [done|].
  rewrite H0. cbn [mbind option_bind]. by rewrite H1.
Qed.

Lemma start_nonempty (pre : State) (points : list Point) :
  points <> [] -> exists s, start pre points = Some s.
Proof.
  intros Hne. destruct points as [|p points]; [done|].
  destruct (exists_last (l := p :: points)) as [l' [q Hq]]; [done|].
  eexists. apply (start_some _ _ p q); [done|]. rewrite Hq. apply at_index_last.
Qed.

(** ** The window in doubles *)

Lemma handle_exact (s : State) (e : Event) :
  handle_rnd exact_result s e = handle s e.
Proof. by destruct e. Qed.

Lemma run_exact (events : list Event) (s : State) :
  run_rnd exact_result s events = run s events.
Proof.
  revert s. induction events as [|e events IH]; intros s; [done|].
  simpl. rewrite handle_exact. apply IH.
Qed.

Lemma pow2_53 : Qpower 2 53 == 9007199254740992.
Proof. reflexivity. Qed.

Lemma pow2_51 : Qpower 2 51 == 2251799813685248.
Proof. reflexivity. Qed.

Lemma max_error_exact : max_error exact_result 0.
Proof. intros q _. unfold exact_result. apply Qabs_Qle_condition. lra. Qed.

Lemma max_error_round53 : max_error round53 (1 # 2).
Proof. intros q. apply Rounding_round53. Qed.

Section Near.
Variables (rnd : Q -> Q) (eps : Q).
Hypothesis Herr : max_error rnd eps.

Lemma rnd_near (q : Q) :
  - 9007199254740992 <= q <= 9007199254740992 ->
  q - eps <= rnd q <= q + eps.
Proof.
  intros Hq. assert (H : Qabs (rnd q - q) <= eps).
  { apply Herr. rewrite pow2_53. apply Qabs_Qle_condition. lra. }
  apply Qabs_Qle_condition in H. lra.
Qed.

Lemma eps_nonneg : 0 <= eps.
Proof.
  assert (H : 0 - eps <= rnd 0 <= 0 + eps) by (apply rnd_near; lra). lra.
Qed.

(** The window that lines 397-399 write: [w] is the start before the
    clamp, [p0] and [p1] the window the drag began on. *)
Lemma pan_bounds (t : Q) (s : State) (p0 p1 w : Q) :
  Qabs (xDomainAll s).1 <= Qpower 2 51 ->
  Qabs (xDomainAll s).2 <= Qpower 2 51 ->
  0 <= t <= minSpan -> eps <= minSpan ->
  (xDomainAll s).1 <= p0 -> p0 <= p1 -> p1 <= (xDomainAll s).2 + t ->
  let sp := rnd (p1 - p0) in
  let n0 := clamp w (xDomainAll s).1 (rnd ((xDomainAll s).2 - sp)) in
  (xDomainAll s).1 <= n0
  /\ rnd (n0 + sp) <= (xDomainAll s).2 + t + 2 * eps
  /\ p1 - p0 - 2 * eps <= rnd (n0 + sp) - n0 <= p1 - p0 + 2 * eps.
Proof.
  intros H0 H1 Ht Hm Ha Hab Hb sp n0. pose proof eps_nonneg as He.
  rewrite pow2_51 in H0, H1. apply Qabs_Qle_condition in H0, H1.
  unfold minSpan in *.
  assert (Hsp : p1 - p0 - eps <= sp <= p1 - p0 + eps) by (apply rnd_near; lra).
  clearbody sp.
  assert (Hr : (xDomainAll s).2 - sp - eps <= rnd ((xDomainAll s).2 - sp)
               <= (xDomainAll s).2 - sp + eps) by (apply rnd_near; lra).
  assert (Hn : (xDomainAll s).1 <= n0
               /\ (n0 <= (xDomainAll s).1 \/ n0 <= rnd ((xDomainAll s).2 - sp))).
  { unfold n0, clamp. q_solve. }
  clearbody n0. generalize dependent (rnd ((xDomainAll s).2 - sp)). intros r Hr Hn.
  assert (Hx : n0 + sp - eps <= rnd (n0 + sp) <= n0 + sp + eps)
    by (apply rnd_near; intuition lra).
  intuition lra.
Qed.

Lemma pan_near (t : Q) (s : State) (p0 p1 w : Q) :
  Qabs (xDomainAll s).1 <= Qpower 2 51 ->
  Qabs (xDomainAll s).2 <= Qpower 2 51 ->
  0 <= t -> t + 2 * eps <= minSpan ->
  window_near t s p0 p1 ->
  let sp := rnd (p1 - p0) in
  let n0 := clamp w (xDomainAll s).1 (rnd ((xDomainAll s).2 - sp)) in
  window_near (t + 2 * eps) s n0 (rnd (n0 + sp)).
Proof.
  intros H0 H1 Ht Hm (Ha & Hb & Hc) sp n0. pose proof eps_nonneg as He.
  destruct (pan_bounds t s p0 p1 w) as (A & B & C); try done; try lra.
  fold sp n0 in A, B, C. unfold window_near. lra.
Qed.

(** The window that lines 442-443 write: [w] is the start before the
    clamp, [v] the span before the clamp. *)
Lemma zoom_bounds (s : State) (v w : Q) :
  Qabs (xDomainAll s).1 <= Qpower 2 51 ->
  Qabs (xDomainAll s).2 <= Qpower 2 51 ->
  eps <= minSpan ->
  minSpan <= (xDomainAll s).2 - (xDomainAll s).1 ->
  let ns := clamp v (5 * 60 * 1000) (rnd ((xDomainAll s).2 - (xDomainAll s).1)) in
  let n0 := clamp w (xDomainAll s).1 (rnd ((xDomainAll s).2 - ns)) in
  minSpan <= ns
  /\ ns <= (xDomainAll s).2 - (xDomainAll s).1 + eps
  /\ (xDomainAll s).1 <= n0
  /\ rnd (n0 + ns) <= (xDomainAll s).2 + 2 * eps
  /\ ns - eps <= rnd (n0 + ns) - n0 <= ns + eps.
Proof.
  intros H0 H1 Hm Hext ns n0. pose proof eps_nonneg as He.
  rewrite pow2_51 in H0, H1. apply Qabs_Qle_condition in H0, H1.
  unfold minSpan in *.
  assert (HE : (xDomainAll s).2 - (xDomainAll s).1 - eps
               <= rnd ((xDomainAll s).2 - (xDomainAll s).1)
               <= (xDomainAll s).2 - (xDomainAll s).1 + eps)
    by (apply rnd_near; lra).
  assert (Hns : 300000 <= ns
                /\ ns <= (xDomainAll s).2 - (xDomainAll s).1 + eps).
  { unfold ns, clamp. q_solve. }
  clearbody ns.
  assert (Hr : (xDomainAll s).2 - ns - eps <= rnd ((xDomainAll s).2 - ns)
               <= (xDomainAll s).2 - ns + eps) by (apply rnd_near; lra).
  assert (Hn : (xDomainAll s).1 <= n0
               /\ (n0 <= (xDomainAll s).1 \/ n0 <= rnd ((xDomainAll s).2 - ns))).
  { unfold n0, clamp. q_solve. }
  clearbody n0. generalize dependent (rnd ((xDomainAll s).2 - ns)). intros r Hr Hn.
  assert (Hx : n0 + ns - eps <= rnd (n0 + ns) <= n0 + ns + eps)
    by (apply rnd_near; intuition lra).
  intuition lra.
Qed.

Lemma zoom_near (s : State) (v w : Q) :
  Qabs (xDomainAll s).1 <= Qpower 2 51 ->
  Qabs (xDomainAll s).2 <= Qpower 2 51 ->
  2 * eps <= minSpan ->
  minSpan <= (xDomainAll s).2 - (xDomainAll s).1 ->
  let ns := clamp v (5 * 60 * 1000) (rnd ((xDomainAll s).2 - (xDomainAll s).1)) in
  let n0 := clamp w (xDomainAll s).1 (rnd ((xDomainAll s).2 - ns)) in
  window_near (2 * eps) s n0 (rnd (n0 + ns)).
Proof.
  intros H0 H1 Hm Hext ns n0. pose proof eps_nonneg as He.
  destruct (zoom_bounds s v w) as (A & B & C & D & E); try done; try lra.
  fold ns n0 in A, B, C, D, E. unfold window_near. lra.
Qed.

Lemma on_wheel_rnd_inside (s : State) (cx f : Q) (r : Rect) :
  over_plot_rnd rnd cx r ->
  exists w,
    let ns := wheel_span_rnd rnd s f in
    let n0 := clamp w (xDomainAll s).1 (rnd ((xDomainAll s).2 - ns)) in
    on_wheel_rnd rnd s cx f r = set_view s {| x0 := n0; x1 := rnd (n0 + ns) |}.
Proof.
  intros [Hl Hr]. unfold on_wheel_rnd, wheel_span_rnd.
  destruct (Qltb (rnd (cx - rect_left r)) _) eqn:E1; [q_bool; lra|].
  destruct (Qltb _ (rnd (cx - rect_left r))) eqn:E2; [q_bool; lra|].
  cbn [orb].
  repeat match goal with |- context [if ?b then _ else _] => destruct b end;
    eexists; reflexivity.
Qed.

Lemma on_wheel_rnd_cases (s : State) (cx f : Q) (r : Rect) :
  on_wheel_rnd rnd s cx f r = s
  \/ exists w,
      let ns := wheel_span_rnd rnd s f in
      let n0 := clamp w (xDomainAll s).1 (rnd ((xDomainAll s).2 - ns)) in
      on_wheel_rnd rnd s cx f r
      = set_view s {| x0 := n0; x1 := rnd (n0 + ns) |}.
Proof.
  unfold on_wheel_rnd, wheel_span_rnd.
  destruct (Qltb _ _ || Qltb _ _); [by left|right].
  repeat match goal with |- context [if ?b then _ else _] => destruct b end;
    eexists; reflexivity.
Qed.

Lemma window_near_mono (t t' : Q) (s : State) (a b : Q) :
  t <= t' -> window_near t s a b -> window_near t' s a b.
Proof. unfold window_near. intros. intuition lra. Qed.

Lemma window_near_full (t : Q) (s : State) :
  0 <= t -> minSpan <= (xDomainAll s).2 - (xDomainAll s).1 ->
  window_near t s (xDomainAll s).1 (xDomainAll s).2.
Proof. unfold window_near. intros. intuition lra. Qed.

Lemma handle_rnd_xDomainAll (s : State) (e : Event) :
  xDomainAll (handle_rnd rnd s e) = xDomainAll s
  /\ data (handle_rnd rnd s e) = data s.
Proof.
  destruct e; simpl; try done.
  - unfold on_mousemove_rnd. destruct (isPanning s); [done|].
    by destruct (hitTest _ _ _ _).
  - by destruct (on_wheel_rnd_cases s clientX zoomFactor rect) as [->|(w & ->)].
  - unfold on_range_change_rnd. by destruct (String.eqb _ _).
Qed.

Lemma handle_near (t : Q) (s : State) (e : Event) :
  Qabs (xDomainAll s).1 <= Qpower 2 51 ->
  Qabs (xDomainAll s).2 <= Qpower 2 51 ->
  minSpan <= (xDomainAll s).2 - (xDomainAll s).1 ->
  0 <= t -> t + 2 * eps <= minSpan ->
  session_near t s -> session_near (t + 2 * eps) (handle_rnd rnd s e).
Proof.
  intros H0 H1 Hext Ht Hm [Hv Hp]. pose proof eps_nonneg as He.
  assert (Hle : t <= t + 2 * eps) by lra.
  assert (Hp' : isPanning s = true ->
                window_near (t + 2 * eps) s (pan_x0 (panStart s))
                            (pan_x1 (panStart s))).
  { intros E. by apply (window_near_mono t), Hp. }
  pose proof (window_near_mono _ _ _ _ _ Hle Hv) as Hv'.
  destruct e; simpl.
  - unfold on_mousemove_rnd. destruct (isPanning s) eqn:Hpan.
    + split; [|intros _; by apply Hp'].
      apply (pan_near t s); try done. by apply Hp.
    + destruct (hitTest s clientX clientY rect);
        (split; [exact Hv'|simpl; congruence]).
  - by split.
  - split; [exact Hv'|]. intros _. exact Hv'.
  - split; [exact Hv'|]. simpl. discriminate.
  - destruct (on_wheel_rnd_cases s clientX zoomFactor rect)
      as [->|(w & ->)]; [by split|].
    split; [|exact Hp'].
    apply (window_near_mono (2 * eps)); [lra|].
    assert (Hm' : 2 * eps <= minSpan) by lra.
    exact (zoom_near s _ w H0 H1 Hm' Hext).
  - by split.
  - unfold on_range_change_rnd.
    destruct (String.eqb value "all"); (split; [|exact Hp']).
    + apply window_near_full; [lra|done].
    + unfold window_near; simpl.
      rewrite pow2_51 in H0, H1. apply Qabs_Qle_condition in H0, H1.
      unfold minSpan in *.
      assert (Hh : 300000
                   <= (if String.eqb value "6h" then 6 else 24) * 60 * 60 * 1000
                   <= 86400000).
      { destruct (String.eqb value "6h"); lra. }
      revert Hh.
      generalize ((if String.eqb value "6h" then 6 else 24) * 60 * 60 * 1000).
      intros hs Hh.
      assert (Hr : (xDomainAll s).2 - hs - eps <= rnd ((xDomainAll s).2 - hs)
                   <= (xDomainAll s).2 - hs + eps) by (apply rnd_near; lra).
      q_solve.
  - split; [|exact Hp']. apply window_near_full; [lra|done].
Qed.

Lemma drift_S (n : nat) : drift eps (S n) == 2 * eps + drift eps n.
Proof.
  unfold drift. rewrite Nat2Z.inj_succ, <- Z.add_1_r, inject_Z_plus. ring.
Qed.

Lemma drift_nonneg (n : nat) : 0 <= drift eps n.
Proof.
  unfold drift. pose proof eps_nonneg.
  apply Qmult_le_0_compat; [|lra].
  change 0 with (inject_Z 0). rewrite <- Zle_Qle. lia.
Qed.

Lemma run_near (events : list Event) (t : Q) (s : State) :
  Qabs (xDomainAll s).1 <= Qpower 2 51 ->
  Qabs (xDomainAll s).2 <= Qpower 2 51 ->
  minSpan <= (xDomainAll s).2 - (xDomainAll s).1 ->
  0 <= t -> t + drift eps (length events) <= minSpan ->
  session_near t s ->
  session_near (t + drift eps (length events)) (run_rnd rnd s events)
  /\ xDomainAll (run_rnd rnd s events) = xDomainAll s
  /\ data (run_rnd rnd s events) = data s.
Proof.
  revert t s. induction events as [|e events IH]; intros t s H0 H1 Hext Ht Hm Hs.
  - simpl. split; [|done]. destruct Hs as [Hv Hp].
    assert (Hle : t <= t + drift eps 0) by (pose proof (drift_nonneg 0); lra).
    split; [|intros E]; by apply (window_near_mono t); [|auto].
  - pose proof eps_nonneg as He. pose proof (drift_nonneg (length events)) as Hd.
    cbn [length] in Hm. rewrite drift_S in Hm.
    destruct (handle_rnd_xDomainAll s e) as [Hx Hdata].
    destruct (IH (t + 2 * eps) (handle_rnd rnd s e)) as ([Hv Hp] & Hx' & Hd').
    + by rewrite Hx.
    + by rewrite Hx.
    + by rewrite Hx.
    + lra.
    + lra.
    + apply handle_near; try done. lra.
    + cbn [run_rnd fold_left length].
      fold (run_rnd rnd (handle_rnd rnd s e) events).
      split; [|split; congruence].
      assert (Hle : t + 2 * eps + drift eps (length events)
                    <= t + drift eps (S (length events)))
        by (rewrite drift_S; lra).
      split; [|intros E]; eapply window_near_mono; try exact Hle.
      * exact Hv.
      * exact (Hp E).
Qed.

(** The window after a load and any events, with rounded results. *)
Lemma run_rnd_window (s0 : State) (events : list Event) :
  Qabs (xDomainAll s0).1 <= Qpower 2 51 ->
  Qabs (xDomainAll s0).2 <= Qpower 2 51 ->
  minSpan <= (xDomainAll s0).2 - (xDomainAll s0).1 ->
  view s0 = {| x0 := (xDomainAll s0).1; x1 := (xDomainAll s0).2 |} ->
  isPanning s0 = false ->
  drift eps (length events) < minSpan ->
  xDomainAll (run_rnd rnd s0 events) = xDomainAll s0
  /\ (xDomainAll s0).1 <= x0 (view (run_rnd rnd s0 events))
  /\ x0 (view (run_rnd rnd s0 events)) < x1 (view (run_rnd rnd s0 events))
  /\ x1 (view (run_rnd rnd s0 events))
     <= (xDomainAll s0).2 + drift eps (length events)
  /\ minSpan - drift eps (length events)
     <= x1 (view (run_rnd rnd s0 events)) - x0 (view (run_rnd rnd s0 events)).
Proof.
  intros H0 H1 Hext Hview Hpan Hd.
  destruct (run_near events 0 s0) as ([Hv _] & Hx & _); try done; try lra.
  - split; [|by rewrite Hpan]. rewrite Hview. cbn [x0 x1].
    apply window_near_full; [lra|done].
  - split; [done|]. unfold window_near in Hv. rewrite Hx in Hv. lra.
Qed.

(** The span after a turn of the wheel over the plot, with rounded
    results. *)
Lemma on_wheel_rnd_span (s : State) (cx f : Q) (r : Rect) :
  Qabs (xDomainAll s).1 <= Qpower 2 51 ->
  Qabs (xDomainAll s).2 <= Qpower 2 51 ->
  eps <= 1 ->
  minSpan <= (xDomainAll s).2 - (xDomainAll s).1 ->
  over_plot_rnd rnd cx r ->
  minSpan <= wheel_span_rnd rnd s f
  /\ wheel_span_rnd rnd s f <= (xDomainAll s).2 - (xDomainAll s).1 + eps
  /\ Qabs (span (view (on_wheel_rnd rnd s cx f r)) - wheel_span_rnd rnd s f)
     <= eps.
Proof.
  intros H0 H1 He Hext Hover.
  destruct (on_wheel_rnd_inside s cx f r Hover) as [w ->].
  destruct (zoom_bounds s (rnd (rnd (x1 (view s) - x0 (view s)) * f)) w)
    as (A & B & C & D & E); try done; [unfold minSpan; lra|].
  fold (wheel_span_rnd rnd s f) in *.
  split; [done|]. split; [done|].
  unfold span; cbn [set_view view x0 x1].
  apply Qabs_Qle_condition. lra.
Qed.

(** The window after a move of the pointer in a drag, with rounded
    results. *)
Lemma on_mousemove_rnd_span (s : State) (cx cy : Q) (r : Rect) :
  Qabs (xDomainAll s).1 <= Qpower 2 51 ->
  Qabs (xDomainAll s).2 <= Qpower 2 51 ->
  eps <= 1 ->
  isPanning s = true ->
  (xDomainAll s).1 <= pan_x0 (panStart s) ->
  pan_x0 (panStart s) <= pan_x1 (panStart s) ->
  pan_x1 (panStart s) <= (xDomainAll s).2 ->
  (xDomainAll s).1 <= x0 (view (on_mousemove_rnd rnd s cx cy r))
  /\ x1 (view (on_mousemove_rnd rnd s cx cy r)) <= (xDomainAll s).2 + 2 * eps
  /\ Qabs (span (view (on_mousemove_rnd rnd s cx cy r))
           - (pan_x1 (panStart s) - pan_x0 (panStart s))) <= 2 * eps.
Proof.
  intros H0 H1 He Hpan Ha Hab Hb. unfold on_mousemove_rnd. rewrite Hpan.
  match goal with |- context [clamp ?w _ _] =>
    destruct (pan_bounds 0 s (pan_x0 (panStart s)) (pan_x1 (panStart s)) w)
      as (A & B & C) end; try done; try (unfold minSpan; lra).
  unfold span; cbn [set_view view x0 x1].
  split; [done|]. split; [lra|]. apply Qabs_Qle_condition. lra.
Qed.

End Near.

(** *** The window after any run of events *)

(** C1, as amended.  After the load of a sequence of points whose first
    and last are [first] and [last], [xDomainAll] is
    [(x first, x last)].  When [x last - x first] is at least [minSpan]
    and no drag is going on in the state [pre] the file arrives in,
    after any events (each with a canvas wider than its paddings) the
    window satisfies [fullStart <= x0 < x1 <= fullEnd] and
    [x1 - x0 >= minSpan] when the results are exact.  When each result
    is rounded, off by [eps] at most, the divisors of the handlers are
    positive and the times are [2^51] at most, the window after [n]
    events satisfies [fullStart <= x0 < x1], ends
    [2 n eps] after [fullEnd] at most and is [2 n eps] less than
    [minSpan] wide at most, as long as [2 n eps] is less than
    [minSpan]. *)
Theorem viewport_invariant (pre : State) (points : list Point)
    (first last : Point) (events : list Event) :
  at_index points 0 = Some first ->
  at_index points (Z.of_nat (length points) - 1) = Some last ->
  minSpan <= x last - x first ->
  isPanning pre = false ->
  Forall event_ok events ->
  exists s0,
    start pre points = Some s0
    /\ xDomainAll s0 = (x first, x last)
    /\ xDomainAll (run s0 events) = (x first, x last)
    /\ view_ok (run s0 events)
    /\ (forall rnd eps,
          max_error rnd eps ->
          Forall (event_ok_rnd rnd) events ->
          Qabs (x first) <= Qpower 2 51 -> Qabs (x last) <= Qpower 2 51 ->
          drift eps (length events) < minSpan ->
          xDomainAll (run_rnd rnd s0 events) = (x first, x last)
          /\ x first <= x0 (view (run_rnd rnd s0 events))
          /\ x0 (view (run_rnd rnd s0 events))
             < x1 (view (run_rnd rnd s0 events))
          /\ x1 (view (run_rnd rnd s0 events))
             <= x last + drift eps (length events)
          /\ minSpan - drift eps (length events)
             <= x1 (view (run_rnd rnd s0 events))
                - x0 (view (run_rnd rnd s0 events))).
Proof.
  intros H0 H1 Hspan Hpre _. eexists. split; [by apply start_some|].
  split; [done|]. pose proof minSpan_pos.
  match goal with |- context [run ?s _] => set (s0 := s) end.
  assert (Hok : session_ok s0).
  { split; [unfold view_ok, window_ok; simpl; lra|].
    unfold s0. cbn [isPanning]. rewrite Hpre. discriminate. }
  split; [by destruct (run_xDomainAll events s0) as [-> _]|].
  split; [by destruct (run_ok events s0 Hok)|].
  intros rnd eps Herr _ Hf Hl Hd.
  exact (run_rnd_window rnd eps Herr s0 events Hf Hl Hspan eq_refl Hpre Hd).
Qed.

(** C1 on the hour of [hour_points] and the events [hour_events], after
    a drag and a choice of the right axis that came before the file;
    in doubles, where a result is off by a half at most, the six events
    leave a window that is good up to six milliseconds. *)
Lemma viewport_invariant_witness :
  exists s0,
    start (run initial [MouseDown 400 canvas; MouseMove 500 100 canvas;
                        MouseUp; RightAxisChange K_light])
          hour_points = Some s0
    /\ xDomainAll s0 = (0, 3600000)
    /\ xDomainAll (run s0 hour_events) = (0, 3600000)
    /\ view_ok (run s0 hour_events)
    /\ 0 <= x0 (view (run_rnd round53 s0 hour_events))
    /\ x0 (view (run_rnd round53 s0 hour_events))
       < x1 (view (run_rnd round53 s0 hour_events))
    /\ x1 (view (run_rnd round53 s0 hour_events))
       <= 3600000 + drift (1 # 2) (length hour_events)
    /\ minSpan - drift (1 # 2) (length hour_events)
       <= x1 (view (run_rnd round53 s0 hour_events))
          - x0 (view (run_rnd round53 s0 hour_events)).
Proof.
  destruct (viewport_invariant
              (run initial [MouseDown 400 canvas; MouseMove 500 100 canvas;
                            MouseUp; RightAxisChange K_light])
              hour_points (sample 0 20) (sample 3600000 22) hour_events)
    as (s0 & Hs & Hx & Hx' & Hv & Hr).
  - reflexivity.
  - reflexivity.
  - q_compute.
  - reflexivity.
  - repeat constructor; q_compute.
  - exists s0. split; [exact Hs|]. split; [exact Hx|]. split; [exact Hx'|].
    split; [exact Hv|].
    destruct (Hr round53 (1 # 2) max_error_round53) as (_ & A & B & C & D).
    + repeat constructor; q_compute.
    + q_compute.
    + q_compute.
    + q_compute.
    + split; [exact A|]. split; [exact B|]. split; [exact C|exact D].
Defined.

(** Against C1 as stated: after the load of one point the window is
    empty, [x0 = x1]; after the load of two points one minute apart a
    turn of the wheel leaves a window that ends after the last point;
    when the button was pressed before the file arrived, the first
    move of the pointer after the load of an hour of points leaves a
    window of one millisecond, the span of the window the drag began
    on; and in doubles a turn of the wheel near the left edge of the
    plot leaves a window from 28875.000000000004 to 328875, less than
    [minSpan] wide. *)
Lemma viewport_invariant_fails :
  (start initial one_point = Some (loaded one_point)
   /\ x0 (view (loaded one_point)) == x1 (view (loaded one_point)))
  /\ (start initial minute_points = Some (loaded minute_points)
      /\ (xDomainAll (loaded minute_points)).2
         < x1 (view (run (loaded minute_points) [Wheel 464 1 canvas])))
  /\ (exists s0,
        start (run initial [MouseDown 400 canvas]) hour_points = Some s0
        /\ minSpan <= (xDomainAll s0).2 - (xDomainAll s0).1
        /\ span (view (run s0 [MouseMove 500 100 canvas])) == 1
        /\ span (view (run s0 [MouseMove 500 100 canvas])) < minSpan)
  /\ (exists s0,
        start initial hour_points = Some s0
        /\ minSpan <= (xDomainAll s0).2 - (xDomainAll s0).1
        /\ x0 (view (run_rnd round53 s0 [Wheel 71 (1 # 16) canvas]))
           == 7937099563008001 # 274877906944
        /\ x1 (view (run_rnd round53 s0 [Wheel 71 (1 # 16) canvas])) == 328875
        /\ span (view (run_rnd round53 s0 [Wheel 71 (1 # 16) canvas]))
           < minSpan).
Proof.
  split; [q_compute|]. split; [q_compute|].
  split; (eexists; split; [reflexivity|]; q_compute).
Qed.

(** *** Wheel *)

Lemma on_wheel_span (s : State) (cx f : Q) (r : Rect) :
  over_plot cx r -> span (view (on_wheel s cx f r)) == wheel_span s f.
Proof.
  intros [Hl Hr]. unfold on_wheel.
  destruct (Qltb (cx - rect_left r) _) eqn:E1; [q_bool; lra|].
  destruct (Qltb _ (cx - rect_left r)) eqn:E2; [q_bool; lra|].
  cbn [orb].
  repeat match goal with |- context [if ?b then _ else _] => destruct b end;
    unfold span, wheel_span; cbn [set_view view x0 x1]; unfold span; ring.
Qed.

Lemma ratio_cancel (a b : Q) : ~ b == 0 -> b * a / b == a.
Proof. intros. field. done. Qed.

(** C4, as amended.  For data whose extent is [minSpan] at least, a
    window that is not empty and a cursor over the plot of a canvas
    wider than its paddings, the wheel handler leaves a window whose
    span is the old span times the factor when that lies between
    [minSpan] and the extent, [minSpan] when it is less and the extent
    when it is more; and when lines 437-438 give a window inside the
    extent, the time under the cursor is at the same share of the span
    before and after.  When each result is rounded, off by [eps] at
    most, and the cursor is over a plot of positive width, the local
    [newSpan] is the rounded product clamped between [minSpan] and the
    rounded extent, and the span of the window is [eps] away from it at
    most. *)
Theorem wheel_zoom_span_and_anchor (s : State) (clientX zoomFactor : Q)
    (rect : Rect) :
  minSpan <= (xDomainAll s).2 - (xDomainAll s).1 ->
  x0 (view s) < x1 (view s) ->
  rect_ok rect -> over_plot clientX rect ->
  (span (view s) * zoomFactor <= minSpan ->
   span (view (on_wheel s clientX zoomFactor rect)) == minSpan)
  /\ (minSpan <= span (view s) * zoomFactor ->
      span (view s) * zoomFactor <= (xDomainAll s).2 - (xDomainAll s).1 ->
      span (view (on_wheel s clientX zoomFactor rect))
      == span (view s) * zoomFactor)
  /\ ((xDomainAll s).2 - (xDomainAll s).1 <= span (view s) * zoomFactor ->
      span (view (on_wheel s clientX zoomFactor rect))
      == (xDomainAll s).2 - (xDomainAll s).1)
  /\ minSpan <= span (view (on_wheel s clientX zoomFactor rect))
  /\ span (view (on_wheel s clientX zoomFactor rect))
     <= (xDomainAll s).2 - (xDomainAll s).1
  /\ (no_shift s clientX zoomFactor rect ->
      (anchorMs s clientX rect - x0 (view (on_wheel s clientX zoomFactor rect)))
      / span (view (on_wheel s clientX zoomFactor rect))
      == (anchorMs s clientX rect - x0 (view s)) / span (view s))
  /\ (forall rnd eps,
        max_error rnd eps -> eps <= 1 ->
        Qabs (xDomainAll s).1 <= Qpower 2 51 ->
        Qabs (xDomainAll s).2 <= Qpower 2 51 ->
        0 < plotWidth_rnd rnd rect ->
        over_plot_rnd rnd clientX rect ->
        minSpan <= wheel_span_rnd rnd s zoomFactor
        /\ wheel_span_rnd rnd s zoomFactor
           <= (xDomainAll s).2 - (xDomainAll s).1 + eps
        /\ Qabs (span (view (on_wheel_rnd rnd s clientX zoomFactor rect))
                 - wheel_span_rnd rnd s zoomFactor) <= eps).
Proof.
  intros Hext Hopen _ Hover.
  pose proof (on_wheel_span s clientX zoomFactor rect Hover) as Hs.
  pose proof (wheel_span_lower s zoomFactor) as Hlo.
  pose proof (wheel_span_upper s zoomFactor Hext) as Hhi.
  pose proof minSpan_pos as Hm.
  assert (Hcases :
    (span (view s) * zoomFactor <= minSpan -> wheel_span s zoomFactor == minSpan)
    /\ (minSpan <= span (view s) * zoomFactor ->
        span (view s) * zoomFactor <= (xDomainAll s).2 - (xDomainAll s).1 ->
        wheel_span s zoomFactor == span (view s) * zoomFactor)
    /\ ((xDomainAll s).2 - (xDomainAll s).1 <= span (view s) * zoomFactor ->
        wheel_span s zoomFactor == (xDomainAll s).2 - (xDomainAll s).1)).
  { unfold wheel_span, clamp. change (5 * 60 * 1000) with minSpan.
    generalize (span (view s) * zoomFactor). intros sf.
    split; [|split]; intros; q_solve. }
  destruct Hcases as (Hc1 & Hc2 & Hc3).
  split; [intros H; rewrite Hs; by apply Hc1|].
  split; [intros H1 H2; rewrite Hs; by apply Hc2|].
  split; [intros H; rewrite Hs; by apply Hc3|].
  split; [lra|]. split; [lra|].
  split.
  - intros [Hn0 Hn1].
    destruct (on_wheel_unshifted s clientX zoomFactor rect Hover Hext Hn0 Hn1)
      as [Hx0 _].
    rewrite Hs, Hx0. unfold wheel_new0.
    assert (Hspan : 0 < span (view s)) by (unfold span; lra).
    transitivity (centerRatio clientX rect).
    + transitivity (wheel_span s zoomFactor * centerRatio clientX rect
                    / wheel_span s zoomFactor).
      * apply Qmult_comp; [ring|reflexivity].
      * apply ratio_cancel. lra.
    + symmetry. unfold anchorMs.
      transitivity (span (view s) * centerRatio clientX rect / span (view s)).
      * apply Qmult_comp; [ring|reflexivity].
      * apply ratio_cancel. lra.
  - intros rnd eps Herr He H0 H1 _ Hin.
    exact (on_wheel_rnd_span rnd eps Herr s clientX zoomFactor rect
                             H0 H1 He Hext Hin).
Qed.

(** C4 on the window [zoomed], halved around the middle of the plot:
    the half lies between [minSpan] and the extent, and the window it
    gives lies inside the extent; in doubles the span of the window is
    a half away from [newSpan] at most. *)
Lemma wheel_zoom_witness :
  span (view (on_wheel zoomed 464 (1 # 2) canvas))
  == span (view zoomed) * (1 # 2)
  /\ minSpan <= span (view (on_wheel zoomed 464 (1 # 2) canvas))
  /\ span (view (on_wheel zoomed 464 (1 # 2) canvas))
     <= (xDomainAll zoomed).2 - (xDomainAll zoomed).1
  /\ (anchorMs zoomed 464 canvas
      - x0 (view (on_wheel zoomed 464 (1 # 2) canvas)))
     / span (view (on_wheel zoomed 464 (1 # 2) canvas))
     == (anchorMs zoomed 464 canvas - x0 (view zoomed)) / span (view zoomed)
  /\ minSpan <= wheel_span_rnd round53 zoomed (1 # 2)
  /\ Qabs (span (view (on_wheel_rnd round53 zoomed 464 (1 # 2) canvas))
           - wheel_span_rnd round53 zoomed (1 # 2)) <= 1 # 2.
Proof.
  assert (H1 : minSpan <= (xDomainAll zoomed).2 - (xDomainAll zoomed).1)
    by q_compute.
  assert (H2 : x0 (view zoomed) < x1 (view zoomed)) by q_compute.
  assert (H3 : rect_ok canvas) by q_compute.
  assert (H4 : over_plot 464 canvas) by q_compute.
  destruct (wheel_zoom_span_and_anchor zoomed 464 (1 # 2) canvas H1 H2 H3 H4)
    as (_ & A & _ & B & C & D & E).
  split; [apply A; q_compute|]. split; [exact B|]. split; [exact C|].
  split; [apply D; q_compute|].
  destruct (E round53 (1 # 2) max_error_round53) as (F & _ & G);
    [q_compute..|].
  split; [exact F|exact G].
Defined.

(** Against C4 as stated: on the minute of [minute_points] the span
    after a turn of the wheel is five minutes, more than the extent;
    and in doubles a turn of the wheel near the left edge of the plot
    of the hour of [hour_points] leaves a window less than [minSpan]
    wide. *)
Lemma wheel_span_exceeds_extent :
  (over_plot 464 canvas
   /\ (xDomainAll (loaded minute_points)).2
      - (xDomainAll (loaded minute_points)).1 == 60000
   /\ span (view (on_wheel (loaded minute_points) 464 1 canvas)) == 300000
   /\ (xDomainAll (loaded minute_points)).2
      - (xDomainAll (loaded minute_points)).1
      < span (view (on_wheel (loaded minute_points) 464 1 canvas)))
  /\ (over_plot_rnd round53 71 canvas
      /\ minSpan <= (xDomainAll (loaded hour_points)).2
                    - (xDomainAll (loaded hour_points)).1
      /\ wheel_span_rnd round53 (loaded hour_points) (1 # 16) == minSpan
      /\ span (view fine_zoomed) == 300000 - (1 # 274877906944)
      /\ span (view fine_zoomed) < minSpan).
Proof. q_compute. Qed.

(** *** Pan *)

(** C5, as amended.  While a drag goes on whose first window lay in the
    extent, a move of the pointer leaves a window that lies in the
    extent and ends at its start plus the span recorded when the drag
    began.  It is the recorded window moved by the shift when that lies
    in the extent; when that would begin before the extent it begins
    with the extent, and when that would end after the extent it ends
    with the extent: the window is moved, not made narrower.  When each
    result is rounded, off by [eps] at most, and the plot has a
    positive width, the window begins in the extent, ends [2 eps] after
    it at most, and its span is [2 eps] away from the span of the
    window the drag began on at most. *)
Theorem pan_keeps_span (s : State) (clientX clientY : Q) (rect : Rect) :
  isPanning s = true ->
  (xDomainAll s).1 <= pan_x0 (panStart s) ->
  pan_x1 (panStart s) <= (xDomainAll s).2 ->
  rect_ok rect ->
  (xDomainAll s).1 <= x0 (view (on_mousemove s clientX clientY rect))
  /\ x1 (view (on_mousemove s clientX clientY rect)) <= (xDomainAll s).2
  /\ x1 (view (on_mousemove s clientX clientY rect))
     == x0 (view (on_mousemove s clientX clientY rect))
        + (pan_x1 (panStart s) - pan_x0 (panStart s))
  /\ ((xDomainAll s).1 <= pan_x0 (panStart s) + pan_shift s clientX rect ->
      pan_x1 (panStart s) + pan_shift s clientX rect <= (xDomainAll s).2 ->
      x0 (view (on_mousemove s clientX clientY rect))
      == pan_x0 (panStart s) + pan_shift s clientX rect
      /\ x1 (view (on_mousemove s clientX clientY rect))
         == pan_x1 (panStart s) + pan_shift s clientX rect)
  /\ (pan_x0 (panStart s) + pan_shift s clientX rect <= (xDomainAll s).1 ->
      x0 (view (on_mousemove s clientX clientY rect)) == (xDomainAll s).1)
  /\ ((xDomainAll s).2 <= pan_x1 (panStart s) + pan_shift s clientX rect ->
      x1 (view (on_mousemove s clientX clientY rect)) == (xDomainAll s).2)
  /\ (forall rnd eps,
        max_error rnd eps -> eps <= 1 ->
        Qabs (xDomainAll s).1 <= Qpower 2 51 ->
        Qabs (xDomainAll s).2 <= Qpower 2 51 ->
        0 < pxSpan_rnd rnd rect ->
        pan_x0 (panStart s) <= pan_x1 (panStart s) ->
        (xDomainAll s).1
        <= x0 (view (on_mousemove_rnd rnd s clientX clientY rect))
        /\ x1 (view (on_mousemove_rnd rnd s clientX clientY rect))
           <= (xDomainAll s).2 + 2 * eps
        /\ Qabs (span (view (on_mousemove_rnd rnd s clientX clientY rect))
                 - (pan_x1 (panStart s) - pan_x0 (panStart s))) <= 2 * eps).
Proof.
  intros Hpan Hl Hr _.
  assert (Hexact :
    (xDomainAll s).1 <= x0 (view (on_mousemove s clientX clientY rect))
    /\ x1 (view (on_mousemove s clientX clientY rect)) <= (xDomainAll s).2
    /\ x1 (view (on_mousemove s clientX clientY rect))
       == x0 (view (on_mousemove s clientX clientY rect))
          + (pan_x1 (panStart s) - pan_x0 (panStart s))
    /\ ((xDomainAll s).1 <= pan_x0 (panStart s) + pan_shift s clientX rect ->
        pan_x1 (panStart s) + pan_shift s clientX rect <= (xDomainAll s).2 ->
        x0 (view (on_mousemove s clientX clientY rect))
        == pan_x0 (panStart s) + pan_shift s clientX rect
        /\ x1 (view (on_mousemove s clientX clientY rect))
           == pan_x1 (panStart s) + pan_shift s clientX rect)
    /\ (pan_x0 (panStart s) + pan_shift s clientX rect <= (xDomainAll s).1 ->
        x0 (view (on_mousemove s clientX clientY rect)) == (xDomainAll s).1)
    /\ ((xDomainAll s).2 <= pan_x1 (panStart s) + pan_shift s clientX rect ->
        x1 (view (on_mousemove s clientX clientY rect)) == (xDomainAll s).2)).
  { unfold on_mousemove. rewrite Hpan.
    cbn [set_view view x0 x1].
    change (- (clientX - rect_left rect - pan_x (panStart s))
            * ((pan_x1 (panStart s) - pan_x0 (panStart s))
               / (rect_width rect - pad_left padding - pad_right padding)))
      with (pan_shift s clientX rect).
    generalize (pan_shift s clientX rect). intros shift.
    unfold clamp. repeat split; intros; q_solve. }
  destruct Hexact as (A & B & C & D & E & F).
  repeat (split; [assumption|]).
  intros rnd eps Herr He H0 H1 _ Hab.
  exact (on_mousemove_rnd_span rnd eps Herr s clientX clientY rect
                               H0 H1 He Hpan Hl Hab Hr).
Qed.

(** C5 on [dragging]: the pointer moved far enough to the left to hit
    the end of the extent, and moved a little to the right; in doubles
    the span after the move to the right is one millisecond away from
    the recorded one at most. *)
Lemma pan_keeps_span_witness :
  ((xDomainAll dragging).1 <= x0 (view (on_mousemove dragging 0 100 canvas))
   /\ x1 (view (on_mousemove dragging 0 100 canvas)) <= (xDomainAll dragging).2
   /\ x1 (view (on_mousemove dragging 0 100 canvas))
      == x0 (view (on_mousemove dragging 0 100 canvas))
         + (pan_x1 (panStart dragging) - pan_x0 (panStart dragging))
   /\ x1 (view (on_mousemove dragging 0 100 canvas)) == (xDomainAll dragging).2)
  /\ (x0 (view (on_mousemove dragging 500 100 canvas))
      == pan_x0 (panStart dragging) + pan_shift dragging 500 canvas
      /\ x1 (view (on_mousemove dragging 500 100 canvas))
         == pan_x1 (panStart dragging) + pan_shift dragging 500 canvas)
  /\ Qabs (span (view (on_mousemove_rnd round53 dragging 500 100 canvas))
           - (pan_x1 (panStart dragging) - pan_x0 (panStart dragging)))
     <= 2 * (1 # 2).
Proof.
  assert (H1 : isPanning dragging = true) by reflexivity.
  assert (H2 : (xDomainAll dragging).1 <= pan_x0 (panStart dragging))
    by q_compute.
  assert (H3 : pan_x1 (panStart dragging) <= (xDomainAll dragging).2)
    by q_compute.
  assert (H4 : rect_ok canvas) by q_compute.
  destruct (pan_keeps_span dragging 0 100 canvas H1 H2 H3 H4)
    as (A & B & C & _ & _ & D & _).
  destruct (pan_keeps_span dragging 500 100 canvas H1 H2 H3 H4)
    as (_ & _ & _ & E & _ & _ & F).
  split; [|split].
  - split; [exact A|]. split; [exact B|]. split; [exact C|].
    apply D. q_compute.
  - apply E; q_compute.
  - destruct (F round53 (1 # 2) max_error_round53) as (_ & _ & G);
      [q_compute..|].
    exact G.
Defined.

(** Against C5 as stated: on the minute of [minute_points] the wheel
    has left a window of five minutes, and a move of the pointer while
    that window is dragged leaves a window that ends after the
    extent; and in doubles the window of [fine_dragging], which lies
    in the extent and is a little less than five minutes wide, is five
    minutes wide after a move of the pointer. *)
Lemma pan_leaves_extent :
  (isPanning short_dragging = true
   /\ rect_ok canvas
   /\ (xDomainAll short_dragging).2 == 60000
   /\ x1 (view (on_mousemove short_dragging 500 100 canvas)) == 300000
   /\ (xDomainAll short_dragging).2
      < x1 (view (on_mousemove short_dragging 500 100 canvas)))
  /\ (isPanning fine_dragging = true
      /\ (xDomainAll fine_dragging).1 <= pan_x0 (panStart fine_dragging)
      /\ pan_x1 (panStart fine_dragging) <= (xDomainAll fine_dragging).2
      /\ pan_x1 (panStart fine_dragging) - pan_x0 (panStart fine_dragging)
         == 300000 - (1 # 274877906944)
      /\ span (view (on_mousemove_rnd round53 fine_dragging 0 100 canvas))
         == 300000
      /\ ~ span (view (on_mousemove_rnd round53 fine_dragging 0 100 canvas))
           == pan_x1 (panStart fine_dragging) - pan_x0 (panStart fine_dragging)).
Proof. q_compute. Qed.




(** *** A window that is not empty stays so *)

Lemma handle_open (s : State) (e : Event) :
  (xDomainAll s).1 < (xDomainAll s).2 ->
  session_open s -> session_open (handle s e).
Proof.
  intros Hext [Hv Hp]. pose proof minSpan_pos as Hm. destruct e; simpl.
  - unfold on_mousemove. destruct (isPanning s) eqn:Hpan.
    + specialize (Hp eq_refl). split; [|intros _; exact Hp]. simpl. lra.
    + destruct (hitTest _ _ _ _); (split; [exact Hv|simpl; congruence]).
  - by split.
  - split; [exact Hv|]. intros _. exact Hv.
  - split; [exact Hv|]. simpl. discriminate.
  - destruct (on_wheel_cases s clientX zoomFactor rect) as [->|[new0 ->]];
      [by split|].
    split; [|exact Hp]. simpl.
    pose proof (wheel_span_lower s zoomFactor). lra.
  - by split.
  - unfold on_range_change.
    destruct (String.eqb value "all"); (split; [|exact Hp]); simpl; [lra|].
    assert (Hh : 0 < (if String.eqb value "6h" then 6 else 24) * 60 * 60 * 1000)
      by (destruct (String.eqb value "6h"); lra).
    revert Hh.
    generalize ((if String.eqb value "6h" then 6 else 24) * 60 * 60 * 1000).
    intros hs Hh. q_solve.
  - split; [|exact Hp]. simpl. lra.
Qed.

Lemma run_open (events : list Event) (s : State) :
  (xDomainAll s).1 < (xDomainAll s).2 ->
  session_open s -> session_open (run s events).
Proof.
  revert s. induction events as [|e events IH]; intros s Hext H; [exact H|].
  simpl. apply IH.
  - by destruct (handle_xDomainAll s e) as [-> _].
  - by apply handle_open.
Qed.

(** ** Drawing *)

(** *** domainForKey *)

Section Domain.
Variables (key : Key) (lo hi : Q).

Lemma domain_step_inv (seen : list Point) (acc : num * num) (p : Point) :
  acc_inv key lo hi seen acc ->
  acc_inv key lo hi (seen ++ [p]) (domain_step key lo hi acc p).
Proof.
  intros [Hacc Hfin]. unfold domain_step.
  destruct (Qltb (x p) lo) eqn:E1; cbn [orb].
  { q_bool. split.
    - destruct acc as [[| [] |a] [| [] |b]]; try done.
      destruct Hacc as [Hab Hall]. split; [done|].
      intros q v [Hq|[<-|[]]]%in_app_or Hw Hv; [by eapply Hall|lra].
    - intros q v [Hq|[<-|[]]]%in_app_or Hw Hv; [by eapply Hfin|lra]. }
  destruct (Qltb hi (x p)) eqn:E2.
  { q_bool. split.
    - destruct acc as [[| [] |a] [| [] |b]]; try done.
      destruct Hacc as [Hab Hall]. split; [done|].
      intros q v [Hq|[<-|[]]]%in_app_or Hw Hv; [by eapply Hall|lra].
    - intros q v [Hq|[<-|[]]]%in_app_or Hw Hv; [by eapply Hfin|lra]. }
  destruct (channel p key) as [| neg |w] eqn:Ec; cbn [isFinite negb].
  1,2: split;
    [ destruct acc as [[| [] |a] [| [] |b]]; try done;
      destruct Hacc as [Hab Hall]; split; [done|];
      intros q v [Hq|[<-|[]]]%in_app_or Hw Hv; [by eapply Hall|congruence]
    | intros q v [Hq|[<-|[]]]%in_app_or Hw Hv; [by eapply Hfin|congruence] ].
  destruct acc as [[| [] |a] [| [] |b]]; try done; cbn.
  - split; [|done]. split; [lra|].
    intros q v [Hq|[<-|[]]]%in_app_or Hw Hv.
    + by specialize (Hfin q v Hq Hw Hv).
    + assert (v = w) by congruence. subst. lra.
  - destruct Hacc as [Hab Hall]. split; [|done]. split; [q_solve|].
    intros q v [Hq|[<-|[]]]%in_app_or Hw Hv.
    + specialize (Hall q v Hq Hw Hv). q_solve.
    + assert (v = w) by congruence. subst. q_solve.
Qed.

Lemma domain_fold_inv (data seen : list Point) (acc : num * num) :
  acc_inv key lo hi seen acc ->
  acc_inv key lo hi (seen ++ data) (fold_left (domain_step key lo hi) data acc).
Proof.
  revert seen acc. induction data as [|p data IH]; intros seen acc H.
  - by rewrite app_nil_r.
  - simpl. replace (seen ++ p :: data) with ((seen ++ [p]) ++ data)
      by (by rewrite <- app_assoc).
    apply IH. by apply domain_step_inv.
Qed.
End Domain.

Lemma window_values_In (data : list Point) (key : Key) (lo hi v : Q) :
  In v (window_values data key lo hi)
  <-> exists p, In p data /\ lo <= x p <= hi /\ channel p key = Fin v.
Proof.
  unfold window_values. rewrite <- list_elem_of_In, list_elem_of_omap.
  split.
  - intros (p & Hp & Hv). exists p. split; [by apply list_elem_of_In|].
    destruct (Qltb (x p) lo) eqn:E1; [done|].
    destruct (Qltb hi (x p)) eqn:E2; [done|]. q_bool.
    destruct (channel p key); [done|done|]. cbn in Hv.
    assert (q = v) by congruence. subst. split; [lra|done].
  - intros (p & Hp & Hw & Hv). exists p. split; [by apply list_elem_of_In|].
    rewrite Hv.
    destruct (Qltb (x p) lo) eqn:E1; [q_bool; lra|].
    destruct (Qltb hi (x p)) eqn:E2; [q_bool; lra|]. done.
Qed.

Lemma domain_fold_values (key : Key) (lo hi : Q) (data : list Point) :
  forall acc,
    fold_left (domain_step key lo hi) data acc
    = fold_left (fun (a : num * num) v =>
                   (Math_min a.1 (Fin v), Math_max a.2 (Fin v)))
                (window_values data key lo hi) acc.
Proof.
  induction data as [|p data IH]; intros acc; [done|].
  cbn [fold_left]. rewrite IH. unfold window_values. cbn [omap list_omap].
  unfold domain_step.
  destruct (Qltb (x p) lo || Qltb hi (x p)); [done|].
  by destruct (channel p key).
Qed.

Lemma fold_min_max (vs : list Q) :
  forall a b,
    fold_left (fun (acc : num * num) v =>
                 (Math_min acc.1 (Fin v), Math_max acc.2 (Fin v)))
              vs (Fin a, Fin b)
    = (Fin (fold_left Qmin vs a), Fin (fold_left Qmax vs b)).
Proof. induction vs as [|v vs IH]; intros a b; [done|]. cbn. apply IH. Qed.

Lemma fold_Qmin_spec (vs : list Q) :
  forall a,
    In (fold_left Qmin vs a) (a :: vs)
    /\ forall v, In v (a :: vs) -> fold_left Qmin vs a <= v.
Proof.
  induction vs as [|w vs IH]; intros a.
  - cbn. split; [by left|]. intros v [<-|[]]. lra.
  - cbn [fold_left]. destruct (IH (Qmin a w)) as [Hin Hle]. split.
    + destruct Hin as [Heq|Hin]; [|right; by right].
      rewrite <- Heq. unfold Qmin, GenericMinMax.gmin.
      destruct (a ?= w); [by left|by left|right; by left].
    + intros v Hv.
      assert (Hm : fold_left Qmin vs (Qmin a w) <= Qmin a w)
        by (apply Hle; by left).
      destruct Hv as [<-|[<-|Hv]].
      * pose proof (Q.le_min_l a w). lra.
      * pose proof (Q.le_min_r a w). lra.
      * apply Hle. by right.
Qed.

Lemma fold_Qmax_spec (vs : list Q) :
  forall a,
    In (fold_left Qmax vs a) (a :: vs)
    /\ forall v, In v (a :: vs) -> v <= fold_left Qmax vs a.
Proof.
  induction vs as [|w vs IH]; intros a.
  - cbn. split; [by left|]. intros v [<-|[]]. lra.
  - cbn [fold_left]. destruct (IH (Qmax a w)) as [Hin Hle]. split.
    + destruct Hin as [Heq|Hin]; [|right; by right].
      rewrite <- Heq. unfold Qmax, GenericMinMax.gmax.
      destruct (a ?= w); [by left|right; by left|by left].
    + intros v Hv.
      assert (Hm : Qmax a w <= fold_left Qmax vs (Qmax a w))
        by (apply Hle; by left).
      destruct Hv as [<-|[<-|Hv]].
      * pose proof (Q.le_max_l a w). lra.
      * pose proof (Q.le_max_r a w). lra.
      * apply Hle. by right.
Qed.

(** The result of [domainForKey] from the least and the greatest of the
    values it looks at. *)
Lemma domainForKey_shape (rnd : Q -> Q) (data : list Point) (key : Key)
    (lo hi : Q) :
  (window_values data key lo hi = [] ->
   domainForKey rnd data key (lo, hi) = (0, 1))
  /\ (window_values data key lo hi <> [] ->
      exists a b,
        In a (window_values data key lo hi)
        /\ In b (window_values data key lo hi)
        /\ (forall v, In v (window_values data key lo hi) -> a <= v <= b)
        /\ domainForKey rnd data key (lo, hi)
           = if Qeq_bool a b then (rnd (a - 1), rnd (b + 1))
             else (rnd (a - rnd (rnd (b - a) * rnd 0.06)),
                   rnd (b + rnd (rnd (b - a) * rnd 0.06)))).
Proof.
  unfold domainForKey. cbn [fst snd]. rewrite domain_fold_values.
  destruct (window_values data key lo hi) as [|v vs]; split; try done.
  intros _. cbn [fold_left Math_min Math_max fst snd]. rewrite fold_min_max.
  destruct (fold_Qmin_spec vs v) as [Hin1 Hle1].
  destruct (fold_Qmax_spec vs v) as [Hin2 Hle2].
  exists (fold_left Qmin vs v), (fold_left Qmax vs v).
  split; [done|]. split; [done|]. split; [|done].
  intros w Hw. split; [by apply Hle1|by apply Hle2].
Qed.

(** The widening of a domain under a rounding that keeps the order:
    the pad is not negative and the ends move outwards or stay. *)
Lemma domain_pad_nonneg (rnd : Q -> Q) (a b : Q) :
  Rounding rnd -> a <= b -> 0 <= rnd (rnd (b - a) * rnd 0.06).
Proof.
  intros [Hmono Hzero _] Hab.
  assert (H1 : 0 <= rnd (b - a)).
  { pose proof (Hmono 0 (b - a)). lra. }
  assert (H2 : 0 <= rnd 0.06).
  { pose proof (Hmono 0 0.06). lra. }
  pose proof (Qmult_le_0_compat _ _ H1 H2) as H3.
  pose proof (Hmono 0 _ H3). lra.
Qed.

(** With values that are doubles, a value the domain was computed from
    lies in it, whatever the rounding. *)
Lemma domainForKey_holds (rnd : Q -> Q) (data : list Point) (key : Key)
    (lo hi v : Q) :
  Rounding rnd ->
  (forall w, In w (window_values data key lo hi) -> is_double rnd w) ->
  In v (window_values data key lo hi) ->
  (domainForKey rnd data key (lo, hi)).1 <= v
  /\ v <= (domainForKey rnd data key (lo, hi)).2.
Proof.
  intros Hr Hd Hv.
  destruct (domainForKey_shape rnd data key lo hi) as [_ Hcons].
  destruct Hcons as (a & b & Ha & Hb & Hall & ->);
    [intros Hnil; by rewrite Hnil in Hv|].
  pose proof (Hd a Ha) as Hda. pose proof (Hd b Hb) as Hdb.
  unfold is_double in Hda, Hdb. destruct (Hall v Hv) as [Hav Hvb].
  assert (Hab : a <= b) by lra.
  pose proof (domain_pad_nonneg rnd a b Hr Hab) as Hpad.
  destruct Hr as [Hmono _ _].
  destruct (Qeq_bool a b); cbn [fst snd].
  - pose proof (Hmono (a - 1) a). pose proof (Hmono b (b + 1)). lra.
  - set (pad := rnd (rnd (b - a) * rnd 0.06)) in *.
    pose proof (Hmono (a - pad) a). pose proof (Hmono b (b + pad)). lra.
Qed.

(** With values that are doubles of magnitude [2^53 - 1] at most, the
    domain has a positive span. *)
Lemma domainForKey_positive (rnd : Q -> Q) (data : list Point) (key : Key)
    (lo hi : Q) :
  Rounding rnd ->
  (forall v, In v (window_values data key lo hi) ->
             is_double rnd v /\ Qabs v <= Qpower 2 53 - 1) ->
  (domainForKey rnd data key (lo, hi)).1
  < (domainForKey rnd data key (lo, hi)).2.
Proof.
  intros Hr Hd.
  destruct (domainForKey_shape rnd data key lo hi) as [Hnil Hcons].
  destruct (window_values data key lo hi) as [|v0 vs] eqn:Hvals.
  { rewrite Hnil by done. cbn. lra. }
  destruct Hcons as (a & b & Ha & Hb & Hall & ->); [done|].
  destruct (Hd a Ha) as [Hda Hma]. destruct (Hd b Hb) as [Hdb Hmb].
  unfold is_double in Hda, Hdb. destruct (Hall a Ha) as [_ Hab].
  pose proof (domain_pad_nonneg rnd a b Hr Hab) as Hpad.
  destruct Hr as [Hmono _ Hhalf].
  apply Qabs_Qle_condition in Hma, Hmb.
  destruct (Qeq_bool a b) eqn:E; q_bool; cbn [fst snd].
  - assert (H1 : Qabs (a - 1) <= Qpower 2 53).
    { apply Qabs_Qle_condition. lra. }
    assert (H2 : Qabs (b + 1) <= Qpower 2 53).
    { apply Qabs_Qle_condition. lra. }
    apply Hhalf, Qabs_Qle_condition in H1.
    apply Hhalf, Qabs_Qle_condition in H2. lra.
  - set (pad := rnd (rnd (b - a) * rnd 0.06)) in *.
    pose proof (Hmono (a - pad) a). pose proof (Hmono b (b + pad)). lra.
Qed.

(** In exact arithmetic the span is positive whatever the values, and
    the values lie strictly inside. *)
Lemma domainForKey_positive_exact (data : list Point) (key : Key)
    (domainX : Q * Q) :
  (domainForKey exact_result data key domainX).1
  < (domainForKey exact_result data key domainX).2.
Proof.
  unfold domainForKey, exact_result.
  pose proof (domain_fold_inv key domainX.1 domainX.2 data [] (Inf false, Inf true))
    as [H _]; [by split|].
  destruct (fold_left _ _ _) as [[| [] |a] [| [] |b]]; try done; cbn; try lra.
  destruct H as [Hab _].
  destruct (Qeq_bool a b) eqn:E; q_bool; cbn; lra.
Qed.

Lemma domainForKey_contains_exact (data : list Point) (key : Key) (lo hi : Q)
    (p : Point) (v : Q) :
  In p data -> lo <= x p <= hi -> channel p key = Fin v ->
  (domainForKey exact_result data key (lo, hi)).1 < v
  < (domainForKey exact_result data key (lo, hi)).2.
Proof.
  intros Hin Hw Hv. unfold domainForKey, exact_result. cbn [fst snd].
  pose proof (domain_fold_inv key lo hi data [] (Inf false, Inf true))
    as [H Hfin]; [by split|].
  specialize (Hfin p v Hin Hw Hv).
  destruct (fold_left _ _ _) as [[| [] |a] [| [] |b]]; try done.
  destruct H as [Hab Hall]. specialize (Hall p v Hin Hw Hv).
  destruct (Qeq_bool a b) eqn:E; q_bool; cbn; lra.
Qed.

(** *** drawSeries *)

Lemma series_path_started (plot : Plot) (key : Key) (yDomain : Q * Q)
    (data : list Point) :
  series_path plot key yDomain true data
  = List.map (fun w => LineTo w.1 w.2) (vertices plot key yDomain data).
Proof.
  induction data as [|p data IH]; [done|].
  cbn [series_path]. unfold vertices in *. cbn [omap list_omap]. unfold drawn at 1.
  destruct (Qltb _ _ || Qltb _ _); cbn; [exact IH|].
  destruct (channel p key); cbn; by rewrite IH.
Qed.

Lemma series_path_polyline (plot : Plot) (key : Key) (yDomain : Q * Q)
    (data : list Point) :
  series_path plot key yDomain false data
  = polyline (vertices plot key yDomain data).
Proof.
  induction data as [|p data IH]; [done|].
  cbn [series_path]. unfold vertices in *. cbn [omap list_omap]. unfold drawn at 1.
  destruct (Qltb _ _ || Qltb _ _); cbn; [exact IH|].
  destruct (channel p key); cbn; try exact IH.
  f_equal. apply series_path_started.
Qed.

Lemma subpaths_lines (vs : list (Q * Q)) :
  fold_right subpath_step ([], []) (List.map (fun w => LineTo w.1 w.2) vs)
  = (vs, []).
Proof.
  induction vs as [|[a b] vs IH]; [done|]. simpl. by rewrite IH.
Qed.

Lemma subpaths_polyline (vs : list (Q * Q)) :
  subpaths (polyline vs) = match vs with [] => [] | v :: vs' => [v :: vs'] end.
Proof.
  destruct vs as [|[a b] vs]; [done|].
  unfold subpaths, polyline. cbn [fold_right]. by rewrite subpaths_lines.
Qed.

Lemma vertices_In (plot : Plot) (key : Key) (yDomain : Q * Q)
    (data : list Point) (p : Point) (v : Q) :
  In p data -> plot_x0 plot <= x p <= plot_x1 plot -> channel p key = Fin v ->
  In (vertex plot yDomain p v) (vertices plot key yDomain data).
Proof.
  intros Hin Hw Hv. apply list_elem_of_In. unfold vertices.
  apply list_elem_of_omap. exists p. split; [by apply list_elem_of_In|].
  unfold drawn. rewrite Hv.
  destruct (Qltb (x p) _) eqn:E1; [q_bool; lra|].
  destruct (Qltb _ (x p)) eqn:E2; [q_bool; lra|]. done.
Qed.

Lemma polyline_In (vs : list (Q * Q)) (w : Q * Q) :
  In w vs -> In (MoveTo w.1 w.2) (polyline vs) \/ In (LineTo w.1 w.2) (polyline vs).
Proof.
  destruct vs as [|v vs]; [done|]. intros [->|Hin].
  - left. by left.
  - right. right. by apply (in_map (fun w => LineTo w.1 w.2)).
Qed.

(** C2, as amended.  The loop of [drawSeries] passes over a point whose
    value is not finite and goes on with the same line: the path of a
    series is one [moveTo] at its first point in the window with a
    finite value and a [lineTo] at each later one, a single piece. *)
Theorem series_is_one_polyline (plot : Plot) (key : Key) (yDomain : Q * Q)
    (data : list Point) :
  series_path plot key yDomain false data
  = polyline (vertices plot key yDomain data)
  /\ subpaths (series_path plot key yDomain false data)
     = match vertices plot key yDomain data with
       | [] => []
       | v :: vs => [v :: vs]
       end.
Proof.
  split; [apply series_path_polyline|].
  rewrite series_path_polyline. apply subpaths_polyline.
Qed.

(** Against C2 as stated: the middle point of [gap_points] has no
    temperature, and the path is one piece from the first point to the
    third. *)
Lemma series_joins_across_gap :
  at_index gap_points 1
  = Some {| x := 1800000; temp_OUT := NaN; moist_lv := Fin 0; light := Fin 0 |}
  /\ drawn gap_plot K_temp_OUT (sample 0 20) = Some 20
  /\ drawn gap_plot K_temp_OUT (sample 3600000 22) = Some 22
  /\ subpaths (series_path gap_plot K_temp_OUT gap_domain false gap_points)
     = [[vertex gap_plot gap_domain (sample 0 20) 20;
         vertex gap_plot gap_domain (sample 3600000 22) 22]].
Proof. repeat split; vm_compute; reflexivity. Qed.

Lemma draws_app_l (a b : list Cmd) (w : Q * Q) : draws a w -> draws (a ++ b) w.
Proof. intros [H|H]; [left|right]; apply in_or_app; by left. Qed.

Lemma draws_app_r (a b : list Cmd) (w : Q * Q) : draws b w -> draws (a ++ b) w.
Proof. intros [H|H]; [left|right]; apply in_or_app; by right. Qed.

Lemma series_path_draws (plot : Plot) (key : Key) (yDomain : Q * Q)
    (data : list Point) (p : Point) (v : Q) :
  In p data -> plot_x0 plot <= x p <= plot_x1 plot -> channel p key = Fin v ->
  draws (series_path plot key yDomain false data) (vertex plot yDomain p v).
Proof.
  intros Hin Hw Hv. rewrite series_path_polyline.
  apply polyline_In. by apply vertices_In.
Qed.

(** C10.  A point of [data] whose time is the start or the end of the
    window passes the test of lines 139, 234 and 249.  Each finite
    value of it is one of the values [domainForKey] takes the least and
    the greatest of; it lies inside the domain computed in exact
    arithmetic and, when the values of the window are doubles, at or
    between the ends of the domain computed with a rounding; and the
    paths of [drawSeries] pass through its pixel. *)
Theorem boundary_points_included (data : list Point) (rightKey : Key) (dpr : Q)
    (plot : Plot) (keyLeft keyRight : Key) (yL yR : Q * Q) (p : Point) :
  In p data ->
  plot_x0 plot <= plot_x1 plot ->
  x p == plot_x0 plot \/ x p == plot_x1 plot ->
  (forall key v, channel p key = Fin v ->
     drawn plot key p = Some v
     /\ (domainForKey exact_result data key (plot_x0 plot, plot_x1 plot)).1 < v
     /\ v < (domainForKey exact_result data key (plot_x0 plot, plot_x1 plot)).2
     /\ In v (window_values data key (plot_x0 plot) (plot_x1 plot))
     /\ forall rnd,
          Rounding rnd ->
          (forall w, In w (window_values data key (plot_x0 plot) (plot_x1 plot)) ->
                     is_double rnd w) ->
          (domainForKey rnd data key (plot_x0 plot, plot_x1 plot)).1 <= v
          /\ v <= (domainForKey rnd data key (plot_x0 plot, plot_x1 plot)).2)
  /\ (forall v, channel p keyLeft = Fin v ->
        draws (drawSeries data rightKey dpr plot keyLeft keyRight yL yR)
              (vertex plot yL p v))
  /\ (forall v, channel p keyRight = Fin v ->
        draws (drawSeries data rightKey dpr plot keyLeft keyRight yL yR)
              (vertex plot yR p v)).
Proof.
  intros Hin Hle Hedge.
  assert (Hw : plot_x0 plot <= x p <= plot_x1 plot) by (destruct Hedge; lra).
  split; [|split].
  - intros key v Hv. split.
    { unfold drawn. rewrite Hv.
      destruct (Qltb (x p) _) eqn:E1; [q_bool; lra|].
      destruct (Qltb _ (x p)) eqn:E2; [q_bool; lra|]. done. }
    pose proof (domainForKey_contains_exact data key _ _ p v Hin Hw Hv) as [H1 H2].
    split; [exact H1|]. split; [exact H2|].
    assert (Hval : In v (window_values data key (plot_x0 plot) (plot_x1 plot))).
    { apply window_values_In. by exists p. }
    split; [exact Hval|]. intros rnd Hr Hd.
    by apply domainForKey_holds.
  - intros v Hv. unfold drawSeries.
    apply draws_app_r, draws_app_r, draws_app_l.
    by apply series_path_draws.
  - intros v Hv. unfold drawSeries.
    do 5 apply draws_app_r. apply draws_app_l.
    by apply series_path_draws.
Qed.

(** C10 on the last point of [gap_points], at the end of the window. *)
Lemma boundary_points_witness :
  (forall key v, channel (sample 3600000 22) key = Fin v ->
     drawn gap_plot key (sample 3600000 22) = Some v
     /\ (domainForKey exact_result gap_points key
           (plot_x0 gap_plot, plot_x1 gap_plot)).1 < v
     /\ v < (domainForKey exact_result gap_points key
               (plot_x0 gap_plot, plot_x1 gap_plot)).2
     /\ In v (window_values gap_points key (plot_x0 gap_plot) (plot_x1 gap_plot))
     /\ forall rnd,
          Rounding rnd ->
          (forall w, In w (window_values gap_points key
                             (plot_x0 gap_plot) (plot_x1 gap_plot)) ->
                     is_double rnd w) ->
          (domainForKey rnd gap_points key
             (plot_x0 gap_plot, plot_x1 gap_plot)).1 <= v
          /\ v <= (domainForKey rnd gap_points key
                     (plot_x0 gap_plot, plot_x1 gap_plot)).2)
  /\ (forall v, channel (sample 3600000 22) K_temp_OUT = Fin v ->
        draws (drawSeries gap_points K_moist_lv 1 gap_plot K_temp_OUT K_moist_lv
                          gap_domain (-1, 1))
              (vertex gap_plot gap_domain (sample 3600000 22) v))
  /\ (forall v, channel (sample 3600000 22) K_moist_lv = Fin v ->
        draws (drawSeries gap_points K_moist_lv 1 gap_plot K_temp_OUT K_moist_lv
                          gap_domain (-1, 1))
              (vertex gap_plot (-1, 1) (sample 3600000 22) v)).
Proof.
  apply (boundary_points_included gap_points K_moist_lv 1 gap_plot
           K_temp_OUT K_moist_lv gap_domain (-1, 1) (sample 3600000 22)).
  - right; right; left; reflexivity.
  - q_compute.
  - right. q_compute.
Defined.

(** C8, as amended.  With a rounding that keeps the order and values
    that are doubles of magnitude [2^53 - 1] at most, the domain
    [domainForKey] returns has a positive span, whatever the points and
    the window; and when moreover the first and the last point of the
    data differ in time, [draw] works on domains of positive span and
    on a window of positive span, whatever the events before and after
    the load (each with a canvas wider than its paddings). *)
Theorem transforms_never_divide_by_zero :
  (forall (rnd : Q -> Q) (data : list Point) (key : Key) (lo hi : Q),
      Rounding rnd ->
      (forall v, In v (window_values data key lo hi) ->
                 is_double rnd v /\ Qabs v <= Qpower 2 53 - 1) ->
      0 < (domainForKey rnd data key (lo, hi)).2
          - (domainForKey rnd data key (lo, hi)).1)
  /\ (forall (rnd : Q -> Q) (before : list Event) (points : list Point)
             (first last : Point) (events : list Event) (width dpr : Q),
        Rounding rnd ->
        (forall p key v, In p points -> channel p key = Fin v ->
                         is_double rnd v /\ Qabs v <= Qpower 2 53 - 1) ->
        at_index points 0 = Some first ->
        at_index points (Z.of_nat (length points) - 1) = Some last ->
        x first < x last ->
        Forall event_ok before -> Forall event_ok events ->
        exists s0 frame,
          start (run initial before) points = Some s0
          /\ draw rnd (run s0 events) width dpr = Some frame
          /\ 0 < (yLeftDomain frame).2 - (yLeftDomain frame).1
          /\ 0 < (yRightDomain frame).2 - (yRightDomain frame).1
          /\ 0 < plot_x1 (frame_plot frame) - plot_x0 (frame_plot frame)).
Proof.
  split.
  - intros rnd data key lo hi Hr Hd.
    pose proof (domainForKey_positive rnd data key lo hi Hr Hd). lra.
  - intros rnd before points first last events width dpr Hr Hd H0 H1 Hlt _ _.
    pose proof (start_some (run initial before) points first last H0 H1)
      as Hstart.
    match type of Hstart with _ = Some ?s => set (s0 := s) in * end.
    exists s0.
    assert (Hpre : session_open (run initial before)).
    { apply run_open; [cbn; lra|]. split; [cbn; lra|discriminate]. }
    assert (Hopen : session_open s0).
    { split; [exact Hlt|]. destruct Hpre as [_ Hp]. exact Hp. }
    apply (run_open events) in Hopen; [|exact Hlt].
    destruct (run_xDomainAll events s0) as [_ Hdata].
    unfold draw. rewrite Hdata. change (data s0) with points.
    assert (Hvals : forall key lo hi v,
               In v (window_values points key lo hi) ->
               is_double rnd v /\ Qabs v <= Qpower 2 53 - 1).
    { intros key lo hi v (p & Hp & _ & Hv)%window_values_In.
      by apply (Hd p key). }
    destruct points as [|p points]; [done|].
    eexists. split; [exact Hstart|]. split; [reflexivity|].
    cbn [yLeftDomain yRightDomain frame_plot plot_x0 plot_x1].
    split; [|split].
    + match goal with |- context [domainForKey rnd ?d ?k (?a, ?b)] =>
        pose proof (domainForKey_positive rnd d k a b Hr (Hvals k a b)) end.
      lra.
    + match goal with |- context [domainForKey rnd ?d ?k (?a, ?b)] =>
        pose proof (domainForKey_positive rnd d k a b Hr (Hvals k a b)) end.
      lra.
    + destruct Hopen as [Hv _]. lra.
Qed.

(** C8 on the hour of [hour_points], a drag begun before the load and
    the events [hour_events] after it, with the rounding of the
    doubles. *)
Lemma transforms_witness :
  exists s0 frame,
    start (run initial [MouseDown 400 canvas]) hour_points = Some s0
    /\ draw round53 (run s0 hour_events) 928 1 = Some frame
    /\ 0 < (yLeftDomain frame).2 - (yLeftDomain frame).1
    /\ 0 < (yRightDomain frame).2 - (yRightDomain frame).1
    /\ 0 < plot_x1 (frame_plot frame) - plot_x0 (frame_plot frame).
Proof.
  apply (proj2 transforms_never_divide_by_zero round53
           [MouseDown 400 canvas] hour_points
           (sample 0 20) (sample 3600000 22) hour_events 928 1).
  - exact Rounding_round53.
  - intros p key v Hp Hv.
    destruct Hp as [<-|[<-|[<-|[]]]]; destruct key; cbn in Hv;
      injection Hv as <-; q_compute.
  - reflexivity.
  - reflexivity.
  - q_compute.
  - repeat constructor; q_compute.
  - repeat constructor; q_compute.
Defined.

(** Against C8 as stated: after the load of one point, [draw] works on
    a window of span zero; and on two readings of 2^54 the doubles
    nearest to 2^54 - 1 and to 2^54 + 1 are both 2^54, so that [draw]
    works on a domain of span zero. *)
Lemma divisor_zero :
  (exists frame,
      start initial one_point = Some (loaded one_point)
      /\ draw round53 (loaded one_point) 928 1 = Some frame
      /\ plot_x1 (frame_plot frame) - plot_x0 (frame_plot frame) == 0)
  /\ (exists frame,
        start initial big_points = Some (loaded big_points)
        /\ round53 18014398509481984 == 18014398509481984
        /\ draw round53 (loaded big_points) 928 1 = Some frame
        /\ (yLeftDomain frame).2 - (yLeftDomain frame).1 == 0).
Proof.
  split; eexists; repeat split; vm_compute; reflexivity.
Qed.

(** ** Hit testing *)

(** *** hitTest *)

Lemma at_index_Some (data : list Point) (i : Z) (p : Point) :
  at_index data i = Some p
  <-> (0 <= i < Z.of_nat (length data))%Z /\ data !! Z.to_nat i = Some p.
Proof.
  unfold at_index. case Z.ltb_spec; intros Hi.
  - split; [done|]. intros [? _]. lia.
  - split.
    + intros H. split; [|done]. apply lookup_lt_Some in H. lia.
    + by intros [_ H].
Qed.

Lemma at_index_in_range (data : list Point) (i : Z) :
  (0 <= i < Z.of_nat (length data))%Z -> exists p, at_index data i = Some p.
Proof.
  intros Hi. destruct (lookup_lt_is_Some_2 data (Z.to_nat i)) as [p Hp]; [lia|].
  exists p. by apply at_index_Some.
Qed.

Lemma at_index_In (data : list Point) (i : Z) (p : Point) :
  at_index data i = Some p -> In p data.
Proof.
  intros [_ H]%at_index_Some. apply list_elem_of_In.
  by eapply list_elem_of_lookup_2.
Qed.

Lemma In_at_index (data : list Point) (p : Point) :
  In p data -> exists i, at_index data i = Some p.
Proof.
  intros [n Hn]%list_elem_of_In%list_elem_of_lookup_1.
  exists (Z.of_nat n). apply at_index_Some. rewrite Nat2Z.id. split; [|done].
  apply lookup_lt_Some in Hn. lia.
Qed.

Lemma sorted_lookup (data : list Point) :
  Sorted by_x data ->
  forall (i j : nat) (p q : Point),
    (i <= j)%nat -> data !! i = Some p -> data !! j = Some q -> x p <= x q.
Proof.
  intros Hs%Sorted_StronglySorted; [|intros a b c; unfold by_x; lra].
  induction Hs as [|a l Hs IH Hall]; intros i j p q Hij Hi Hj; [done|].
  destruct i as [|i], j as [|j]; simpl in *.
  - assert (p = q) by congruence. subst. lra.
  - assert (a = p) by congruence. subst.
    rewrite Forall_forall in Hall. apply Hall.
    by eapply list_elem_of_lookup_2.
  - lia.
  - apply (IH i j); [lia|done|done].
Qed.

Lemma sorted_at_index (data : list Point) (i j : Z) (p q : Point) :
  Sorted by_x data -> (i <= j)%Z ->
  at_index data i = Some p -> at_index data j = Some q -> x p <= x q.
Proof.
  intros Hs Hij [Hi Hp]%at_index_Some [Hj Hq]%at_index_Some.
  apply (sorted_lookup data Hs (Z.to_nat i) (Z.to_nat j)); [lia|done|done].
Qed.

Lemma bsearch_spec (data : list Point) (xVal : Q) :
  Sorted by_x data ->
  forall (fuel : nat) (lo hi : Z),
    (hi - lo <= Z.of_nat fuel)%Z -> bracket data xVal lo hi ->
    exists r, bsearch fuel data xVal lo hi = Some r /\ bracket data xVal r r.
Proof.
  intros Hs. induction fuel as [|fuel IH]; intros lo hi Hfuel Hb.
  - destruct Hb as (Hlo & Hhi & H1 & H2 & H3). cbn [bsearch].
    case Z.ltb_spec; [intros ?; exfalso; lia|intros _].
    assert (lo = hi) by lia. subst. by exists hi.
  - destruct Hb as (Hlo & Hhi & H1 & H2 & H3). cbn [bsearch].
    case Z.ltb_spec; intros Hlt.
    + assert (Hmid : (lo <= (lo + hi) / 2 < hi)%Z).
      { split; [apply Z.div_le_lower_bound; lia|apply Z.div_lt_upper_bound; lia]. }
      set (mid := ((lo + hi) / 2)%Z) in *. clearbody mid.
      destruct (at_index_in_range data mid) as [p Hp]; [lia|].
      rewrite Hp. cbn [mbind option_bind].
      destruct (Qltb (x p) xVal) eqn:E; q_bool.
      * apply IH; [lia|]. repeat split; try lia; [|done|done].
        intros j q Hj Hq.
        assert (Hjm : (j <= mid)%Z) by lia.
        pose proof (sorted_at_index data j mid q p Hs Hjm Hq Hp). lra.
      * apply IH; [lia|]. repeat split; try lia; [done| |].
        -- intros j q Hj Hq.
           assert (Hjm : (mid <= j)%Z) by lia.
           pose proof (sorted_at_index data mid j p q Hs Hjm Hp Hq). lra.
        -- right. by exists p.
    + assert (lo = hi) by lia. subst. by exists hi.
Qed.

Lemma bracket_start (data : list Point) (xVal : Q) :
  data <> [] -> bracket data xVal 0 (Z.of_nat (length data) - 1).
Proof.
  intros Hne. destruct data as [|p data]; [done|].
  unfold bracket. split; [simpl length; lia|]. split; [lia|].
  split; [intros j q Hj [Hr _]%at_index_Some; lia|].
  split; [intros j q Hj [Hr _]%at_index_Some; lia|by left].
Qed.

(** The loop ends, within the fuel [hitTest] gives it. *)
Lemma bsearch_total (data : list Point) (xVal : Q) :
  Sorted by_x data -> data <> [] ->
  exists r, bsearch (length data) data xVal 0 (Z.of_nat (length data) - 1) = Some r
            /\ bracket data xVal r r.
Proof.
  intros Hs Hne. apply bsearch_spec; [done|lia|by apply bracket_start].
Qed.

Lemma time_distance_before (xVal : Q) (p q : Point) :
  x p <= x q -> x q <= xVal -> time_distance xVal q <= time_distance xVal p.
Proof.
  unfold time_distance. intros.
  rewrite (Qabs_neg (x q - xVal)) by lra. rewrite (Qabs_neg (x p - xVal)) by lra.
  lra.
Qed.

Lemma time_distance_after (xVal : Q) (p q : Point) :
  xVal <= x p -> x p <= x q -> time_distance xVal p <= time_distance xVal q.
Proof.
  unfold time_distance. intros.
  rewrite (Qabs_pos (x q - xVal)) by lra. rewrite (Qabs_pos (x p - xVal)) by lra.
  lra.
Qed.

Lemma in_range_is_Some (data : list Point) (i : Z) :
  (0 <=? i)%Z && (i <? Z.of_nat (length data))%Z
  = bool_decide (is_Some (at_index data i)).
Proof.
  case_bool_decide as Hd.
  - destruct Hd as [q [Hq _]%at_index_Some].
    apply andb_true_iff. split; [apply Z.leb_le|apply Z.ltb_lt]; lia.
  - apply andb_false_iff. destruct (Z.leb_spec 0 i); [|by left].
    right. apply Z.ltb_ge.
    destruct (Z.le_gt_cases (Z.of_nat (length data)) i); [done|].
    exfalso. apply Hd. apply at_index_in_range. lia.
Qed.

Lemma nearest_index_chosen (data : list Point) (xVal : Q) (r : Z) (pr : Point) :
  bsearch (length data) data xVal 0 (Z.of_nat (length data) - 1) = Some r ->
  at_index data r = Some pr ->
  (forall q, at_index data (r + 1) = Some q ->
             time_distance xVal pr <= time_distance xVal q) ->
  nearest_index data xVal = Some (chosen data xVal r pr).
Proof.
  intros Hb Hr Hnext. unfold nearest_index, chosen. rewrite Hb.
  cbn [mbind option_bind List.filter].
  pose proof Hr as [Hrange _]%at_index_Some.
  assert (B0 : (0 <=? r)%Z && (r <? Z.of_nat (length data))%Z = true).
  { apply andb_true_iff. split; [apply Z.leb_le|apply Z.ltb_lt]; lia. }
  rewrite B0.
  rewrite (in_range_is_Some data (r - 1)), (in_range_is_Some data (r + 1)).
  clear B0.
  fold (time_distance xVal) in *.
  destruct (at_index data (r - 1)) as [q0|] eqn:H0;
    destruct (at_index data (r + 1)) as [q1|] eqn:H1;
    [rewrite !bool_decide_eq_true_2 by done
    |rewrite bool_decide_eq_true_2, bool_decide_eq_false_2
       by (done || by intros [? ?])
    |rewrite bool_decide_eq_false_2, bool_decide_eq_true_2
       by (done || by intros [? ?])
    |rewrite !bool_decide_eq_false_2 by (by intros [? ?])];
    cbn [fold_left head]; unfold nearest_step; cbn [fst snd];
    rewrite ?Hr, ?H0, ?H1; cbn [num_ltb fst snd];
    fold (time_distance xVal pr);
    try fold (time_distance xVal q0); try fold (time_distance xVal q1);
    try specialize (Hnext q1 eq_refl).
  - destruct (Qltb (time_distance xVal q0) (time_distance xVal pr)) eqn:E0;
      cbn [fst snd];
      destruct (Qltb (time_distance xVal q1) _) eqn:E1; cbn [fst snd];
      q_bool; try done; exfalso; lra.
  - by destruct (Qltb (time_distance xVal q0) (time_distance xVal pr)).
  - destruct (Qltb (time_distance xVal q1) _) eqn:E1; cbn [fst snd];
      q_bool; try done; exfalso; lra.
  - done.
Qed.

Lemma at_index_inj (data : list Point) (i : Z) (p q : Point) :
  at_index data i = Some p -> at_index data i = Some q -> p = q.
Proof. congruence. Qed.

(** What [nearest_index] returns on sorted points. *)
Lemma nearest_index_spec (data : list Point) (xVal : Q) :
  Sorted by_x data -> data <> [] ->
  exists i p,
    nearest_index data xVal = Some i
    /\ at_index data i = Some p
    /\ (forall j q, at_index data j = Some q ->
          time_distance xVal p <= time_distance xVal q)
    /\ (forall j q, at_index data j = Some q ->
          time_distance xVal q == time_distance xVal p ->
          (xVal <= x q -> xVal <= x p /\ (i <= j)%Z)
          /\ (x p < xVal -> (j <= i)%Z)).
Proof.
  intros Hs Hne.
  destruct (bsearch_total data xVal Hs Hne) as (r & Hb & Hbr).
  destruct Hbr as (Hr0 & Hr1 & F1 & F2 & F3).
  destruct (at_index_in_range data r) as [pr Hpr]; [lia|].
  assert (Hafter : forall j q, (r < j)%Z -> at_index data j = Some q ->
                               time_distance xVal pr <= time_distance xVal q).
  { intros j q Hj Hq. destruct F3 as [->|(q' & Hq' & Hx)].
    - apply at_index_Some in Hq. lia.
    - assert (q' = pr) by congruence. subst q'.
      apply time_distance_after; [done|].
      apply (sorted_at_index data r j); [done|lia|done|done]. }
  assert (Hbefore : forall q0, at_index data (r - 1) = Some q0 ->
            forall j q, (j < r)%Z -> at_index data j = Some q ->
                        time_distance xVal q0 <= time_distance xVal q).
  { intros q0 Hq0 j q Hj Hq. apply time_distance_before.
    - apply (sorted_at_index data j (r - 1)); [done|lia|done|done].
    - specialize (F1 (r - 1)%Z q0 ltac:(lia) Hq0). lra. }
  assert (Hchosen := nearest_index_chosen data xVal r pr Hb Hpr
                       (fun q Hq => Hafter (r + 1)%Z q ltac:(lia) Hq)).
  unfold chosen in Hchosen.
  destruct (at_index data (r - 1)) as [q0|] eqn:H0.
  - assert (Hx0 : x q0 < xVal) by (apply (F1 (r - 1)%Z); [lia|done]).
    destruct (Qltb (time_distance xVal q0) (time_distance xVal pr)) eqn:E; q_bool.
    + (* the point before the one the search ended at is strictly nearer *)
      exists (r - 1)%Z, q0. repeat split; try done.
      * intros j q Hq. destruct (Z.lt_trichotomy j r) as [Hj|[->|Hj]].
        -- by apply (Hbefore q0 eq_refl j).
        -- assert (q = pr) by congruence. subst. lra.
        -- specialize (Hafter j q Hj Hq). lra.
      * exfalso. destruct (Z.lt_trichotomy j r) as [Hj|[->|Hj]].
        -- specialize (F1 j q Hj H). lra.
        -- assert (q = pr) by congruence. subst. lra.
        -- specialize (Hafter j q Hj H). lra.
      * exfalso. destruct (Z.lt_trichotomy j r) as [Hj|[->|Hj]].
        -- specialize (F1 j q Hj H). lra.
        -- assert (q = pr) by congruence. subst. lra.
        -- specialize (Hafter j q Hj H). lra.
      * intros _. destruct (Z.lt_trichotomy j r) as [Hj|[->|Hj]]; [lia| |].
        -- assert (q = pr) by congruence. subst. lra.
        -- specialize (Hafter j q Hj H). lra.
    + exists r, pr. repeat split; try done.
      * intros j q Hq. destruct (Z.lt_trichotomy j r) as [Hj|[->|Hj]].
        -- specialize (Hbefore q0 eq_refl j q Hj Hq). lra.
        -- assert (q = pr) by congruence. subst. lra.
        -- by apply (Hafter j).
      * destruct F3 as [->|(q' & Hq' & Hx)]; [|congruence].
        destruct (Z.lt_trichotomy j (Z.of_nat (length data) - 1)) as [Hj|[->|Hj]].
        -- specialize (F1 j q Hj H). lra.
        -- assert (q = pr) by congruence. by subst.
        -- apply at_index_Some in H. lia.
      * destruct (Z.lt_trichotomy j r) as [Hj|[->|Hj]]; [|lia|lia].
        specialize (F1 j q Hj H). lra.
      * intros Hlt. destruct F3 as [->|(q' & Hq' & Hx)].
        -- apply at_index_Some in H. lia.
        -- assert (q' = pr) by congruence. subst. lra.
  - assert (r = 0%Z).
    { destruct (Z.eq_dec r 0%Z); [done|].
      destruct (at_index_in_range data (r - 1)) as [q Hq]; [lia|congruence]. }
    subst r. exists 0%Z, pr. repeat split; try done.
    + intros j q Hq. destruct (Z.lt_trichotomy j 0) as [Hj|[->|Hj]].
      * apply at_index_Some in Hq. lia.
      * assert (q = pr) by congruence. subst. lra.
      * by apply (Hafter j).
    + destruct F3 as [Hlen|(q' & Hq' & Hx)]; [|congruence].
      pose proof H as [Hj _]%at_index_Some.
      assert (j = 0%Z) by lia. subst j.
      assert (q = pr) by congruence. by subst.
    + apply at_index_Some in H. lia.
    + intros Hlt. destruct F3 as [Hlen|(q' & Hq' & Hx)].
      * apply at_index_Some in H. lia.
      * assert (q' = pr) by congruence. subst. lra.
Qed.

Lemma hitTest_unfold (s : State) (mouseX mouseY : Q) (rect : Rect) :
  data s <> [] -> in_plot mouseX mouseY rect ->
  hitTest s mouseX mouseY rect
  = (best ← nearest_index (data s) (target_time s mouseX rect);
     p ← at_index (data s) best;
     Some {| hit_p := p; hit_cssX := mouseX - rect_left rect;
             hit_cssY := mouseY - rect_top rect;
             hit_plot := hit_plot_of s rect |}).
Proof.
  intros Hne (H1 & H2 & H3 & H4). unfold hitTest.
  destruct (data s) as [|p0 l] eqn:Hd; [done|].
  cbn [plot_left plot_right plot_top plot_bottom].
  destruct (Qltb (mouseX - rect_left rect) _) eqn:E1; [q_bool; lra|].
  destruct (Qltb _ (mouseX - rect_left rect)) eqn:E2; [q_bool; lra|].
  destruct (Qltb (mouseY - rect_top rect) _) eqn:E3; [q_bool; lra|].
  destruct (Qltb _ (mouseY - rect_top rect)) eqn:E4; [q_bool; lra|].
  reflexivity.
Qed.

(** C3, as amended.  On points sorted by time and a pointer over the
    plot, [hitTest] returns a point that no point of the data is nearer
    to the target time than.  Between points equally near, a point at
    or after the target wins over a point before it; the first of those
    at or after the target is returned, and the last of those before
    it.  On five points at 0, 10, 20, 30 and 40 and a target of 22 the
    point at 20 is returned. *)
Theorem hitTest_nearest :
  (forall (s : State) (mouseX mouseY : Q) (rect : Rect),
      data s <> [] -> Sorted by_x (data s) ->
      rect_ok rect -> in_plot mouseX mouseY rect ->
      exists hit i,
        hitTest s mouseX mouseY rect = Some hit
        /\ at_index (data s) i = Some (hit_p hit)
        /\ (forall q, In q (data s) ->
              time_distance (target_time s mouseX rect) (hit_p hit)
              <= time_distance (target_time s mouseX rect) q)
        /\ (forall j q, at_index (data s) j = Some q ->
              time_distance (target_time s mouseX rect) q
              == time_distance (target_time s mouseX rect) (hit_p hit) ->
              (target_time s mouseX rect <= x q ->
               target_time s mouseX rect <= x (hit_p hit) /\ (i <= j)%Z)
              /\ (x (hit_p hit) < target_time s mouseX rect -> (j <= i)%Z)))
  /\ (exists hit,
        hitTest (loaded five_points) 504 100 canvas = Some hit
        /\ target_time (loaded five_points) 504 canvas == 22
        /\ x (hit_p hit) == 20).
Proof.
  split.
  - intros s mouseX mouseY rect Hne Hs _ Hin.
    destruct (nearest_index_spec (data s) (target_time s mouseX rect) Hs Hne)
      as (i & p & Hi & Hp & Hmin & Htie).
    eexists _, i. rewrite hitTest_unfold by done. rewrite Hi.
    cbn [mbind option_bind].
    rewrite Hp. cbn [mbind option_bind hit_p].
    split; [done|]. split; [done|]. split; [|done].
    intros q [j Hq]%In_at_index. by apply (Hmin j).
  - eexists. split; [vm_compute; reflexivity|]. split; vm_compute; reflexivity.
Qed.

(** C3 on [twin_points] and a target of 1. *)
Lemma hitTest_nearest_witness :
  exists hit i,
    hitTest (loaded twin_points) 144 100 canvas = Some hit
    /\ at_index (data (loaded twin_points)) i = Some (hit_p hit)
    /\ (forall q, In q (data (loaded twin_points)) ->
          time_distance (target_time (loaded twin_points) 144 canvas) (hit_p hit)
          <= time_distance (target_time (loaded twin_points) 144 canvas) q)
    /\ (forall j q, at_index (data (loaded twin_points)) j = Some q ->
          time_distance (target_time (loaded twin_points) 144 canvas) q
          == time_distance (target_time (loaded twin_points) 144 canvas)
                           (hit_p hit) ->
          (target_time (loaded twin_points) 144 canvas <= x q ->
           target_time (loaded twin_points) 144 canvas <= x (hit_p hit)
           /\ (i <= j)%Z)
          /\ (x (hit_p hit) < target_time (loaded twin_points) 144 canvas ->
              (j <= i)%Z)).
Proof.
  apply (proj1 hitTest_nearest (loaded twin_points) 144 100 canvas).
  - discriminate.
  - repeat constructor; q_compute.
  - q_compute.
  - q_compute.
Defined.

(** Against C3 as stated: the two first points of [twin_points] are
    equally near to the target 1, and the second is returned. *)
Lemma hitTest_returns_second_twin :
  target_time (loaded twin_points) 144 canvas == 1
  /\ at_index (data (loaded twin_points)) 0 = Some (sample 0 1)
  /\ at_index (data (loaded twin_points)) 1 = Some (sample 0 2)
  /\ time_distance 1 (sample 0 1) == time_distance 1 (sample 0 2)
  /\ hit_p <$> hitTest (loaded twin_points) 144 100 canvas = Some (sample 0 2).
Proof. repeat split; vm_compute; reflexivity. Qed.

(* ================================================================== *)
(** * Part III: further properties of the program *)

(** *** The loop of the ticks *)

Lemma length_progression (v st : Q) (n : nat) : length (progression v st n) = n.
Proof.
  revert v. induction n as [|n IH]; intros v; [done|]. simpl. by rewrite IH.
Qed.

Lemma progression_lookup (st : Q) (n : nat) :
  forall (v : Q) (i : nat),
    (i < n)%nat ->
    exists q, progression v st n !! i = Some q
              /\ q == v + inject_Z (Z.of_nat i) * st.
Proof.
  induction n as [|n IH]; intros v i Hi; [lia|].
  destruct i as [|i].
  - exists v. split; [done|]. change (inject_Z (Z.of_nat 0)) with 0. ring.
  - destruct (IH (v + st) i) as (q & Hq & Heq); [lia|].
    exists q. split; [exact Hq|]. rewrite Heq.
    rewrite Nat2Z.inj_succ. unfold Z.succ. rewrite inject_Z_plus.
    change (inject_Z 1) with 1. ring.
Qed.

(** The loop pushes [k] values when the [k]-th is the last that is not
    past the bound and the fuel is [k] or more. *)
Lemma ticks_loop_progression (st bound : Q) :
  0 < st ->
  forall (k fuel : nat) (v : Q),
    (k <= fuel)%nat ->
    (k <> O -> v + (inject_Z (Z.of_nat k) - 1) * st <= bound) ->
    bound < v + inject_Z (Z.of_nat k) * st ->
    ticks_loop fuel v bound st = progression v st k.
Proof.
  intros Hst. induction k as [|k IH]; intros fuel v Hfuel Hlo Hhi.
  - change (inject_Z (Z.of_nat 0)) with 0 in Hhi.
    destruct fuel as [|fuel]; [done|]. cbn [ticks_loop progression].
    destruct (Qle_bool v bound) eqn:E; [q_bool; lra|done].
  - destruct fuel as [|fuel]; [lia|]. cbn [ticks_loop progression].
    rewrite Nat2Z.inj_succ in Hlo, Hhi. unfold Z.succ in Hlo, Hhi.
    rewrite inject_Z_plus in Hlo, Hhi. change (inject_Z 1) with 1 in Hlo, Hhi.
    specialize (Hlo ltac:(done)).
    assert (Hk : 0 <= inject_Z (Z.of_nat k)).
    { change 0 with (inject_Z 0). rewrite <- Zle_Qle. lia. }
    assert (Hv : v <= bound).
    { assert (0 <= inject_Z (Z.of_nat k) * st) by (apply Qmult_le_0_compat; lra).
      lra. }
    destruct (Qle_bool v bound) eqn:E; [|q_bool; lra].
    f_equal. apply IH; [lia| |lra].
    intros Hk0. destruct k as [|k]; [done|]. lra.
Qed.

Lemma Qfloor_unique (q : Q) (n : Z) :
  inject_Z n <= q -> q < inject_Z n + 1 -> Qfloor q = n.
Proof.
  intros Hlo Hhi.
  pose proof (Qfloor_le q) as H1. pose proof (Qlt_floor q) as H2.
  rewrite inject_Z_plus in H2. change (inject_Z 1) with 1 in H2.
  assert (Ha : inject_Z (Qfloor q) < inject_Z (n + 1)).
  { rewrite inject_Z_plus. change (inject_Z 1) with 1. lra. }
  assert (Hb : inject_Z n < inject_Z (Qfloor q + 1)).
  { rewrite inject_Z_plus. change (inject_Z 1) with 1. lra. }
  rewrite <- Zlt_Qlt in Ha, Hb. lia.
Qed.

Lemma Qdiv_mult_cancel (a b : Q) : 0 < b -> a / b * b == a.
Proof. intros. field. lra. Qed.

(** *** The ticks of niceTicks *)

Lemma floor_mult_le (q st : Q) :
  0 < st -> inject_Z (Qfloor (q / st)) * st <= q
            /\ q < inject_Z (Qfloor (q / st)) * st + st.
Proof.
  intros Hst. pose proof (Qfloor_le (q / st)) as H1.
  pose proof (Qlt_floor (q / st)) as H2.
  rewrite inject_Z_plus in H2. change (inject_Z 1) with 1 in H2.
  pose proof (Qdiv_mult_cancel q st Hst) as Hq.
  set (d := q / st) in *. set (f := inject_Z (Qfloor d)) in *.
  clearbody f d. split; nra.
Qed.








(** *** The time axis *)

Lemma stepCandidates_bounds (c : Q) :
  In c stepCandidates -> 5 * 60 * 1000 <= c <= 24 * 60 * 60 * 1000.
Proof.
  unfold stepCandidates. intros H.
  repeat (destruct H as [<-|H]; [lra|]). destruct H.
Qed.

Lemma timeStep_in (plot : Plot) : In (timeStep plot) stepCandidates.
Proof.
  unfold timeStep.
  destruct (closest_step_spec
              ((plot_x1 plot - plot_x0 plot) / targetXTicks)
              stepCandidates (hd 0 stepCandidates)) as [[<-|Hin] _];
    [by left|done].
Qed.

(** X2.  The step of the time axis is an entry of the table, hence
    between five minutes and a day, and no entry of the table is nearer
    to a seventh of the span of the window.  For a window with
    [x0 <= x1] the labelled times are two or more values, each the one
    before plus the step: the first is the multiple of the step at or
    next below [x0], the last is past [x1] by a step at most. *)
Theorem timeTicks_cover (plot : Plot) :
  plot_x0 plot <= plot_x1 plot ->
  In (timeStep plot) stepCandidates
  /\ (forall c, In c stepCandidates ->
        Qabs (timeStep plot - (plot_x1 plot - plot_x0 plot) / 7)
        <= Qabs (c - (plot_x1 plot - plot_x0 plot) / 7))
  /\ exists (n : nat) (m : Z),
       (1 <= n)%nat
       /\ timeTicks plot
          = progression (inject_Z m * timeStep plot) (timeStep plot) (S n)
       /\ inject_Z m * timeStep plot <= plot_x0 plot
       /\ plot_x0 plot < inject_Z m * timeStep plot + timeStep plot
       /\ plot_x1 plot
          < inject_Z m * timeStep plot + inject_Z (Z.of_nat n) * timeStep plot
       /\ inject_Z m * timeStep plot + inject_Z (Z.of_nat n) * timeStep plot
          <= plot_x1 plot + timeStep plot.
Proof.
  intros Hle. pose proof (timeStep_in plot) as Hin.
  pose proof (stepCandidates_bounds _ Hin) as [Hst _].
  split; [exact Hin|]. split.
  - intros c Hc. unfold timeStep.
    destruct (closest_step_spec
                ((plot_x1 plot - plot_x0 plot) / targetXTicks)
                stepCandidates (hd 0 stepCandidates)) as [_ Hmin].
    apply Hmin. by right.
  - set (st := timeStep plot) in *.
    assert (Hpos : 0 < st) by lra.
    set (a := Qfloor (plot_x0 plot / st)).
    destruct (floor_mult_le (plot_x0 plot) st Hpos) as [Ha1 Ha2].
    fold a in Ha1, Ha2.
    set (start := inject_Z a * st) in *.
    set (bound := plot_x1 plot + st).
    set (z := Qfloor ((bound - start) / st)).
    pose proof (Qfloor_le ((bound - start) / st)) as Hz1.
    pose proof (Qlt_floor ((bound - start) / st)) as Hz2.
    fold z in Hz1, Hz2. rewrite inject_Z_plus in Hz2.
    change (inject_Z 1) with 1 in Hz2.
    pose proof (Qdiv_mult_cancel (bound - start) st Hpos) as Hq.
    assert (Hz : (1 <= z)%Z).
    { assert (H1 : inject_Z 1 <= (bound - start) / st).
      { apply Qle_shift_div_l; [done|]. change (inject_Z 1) with 1.
        unfold bound. lra. }
      apply Qfloor_resp_le in H1. by rewrite Qfloor_Z in H1. }
    assert (Hn : inject_Z (Z.of_nat (Z.to_nat z)) = inject_Z z)
      by (by rewrite Z2Nat.id by lia).
    exists (Z.to_nat z), a. fold start. split; [lia|].
    set (d := (bound - start) / st) in *.
    split; [|split; [done|split; [lra|]]].
    + unfold timeTicks. fold st. fold a. fold start. fold bound. fold d. fold z.
      apply ticks_loop_progression; [done|lia| |].
      * intros _. rewrite Nat2Z.inj_succ. unfold Z.succ. rewrite inject_Z_plus.
        change (inject_Z 1) with 1. rewrite Hn. clearbody d z. nra.
      * rewrite Nat2Z.inj_succ. unfold Z.succ. rewrite inject_Z_plus.
        change (inject_Z 1) with 1. rewrite Hn. clearbody d z. nra.
    + rewrite Hn. unfold bound in *. clearbody d z. split; nra.
Qed.

(** The time axis of the plot of [canvas] over the hour of [gap_points]. *)
Lemma timeTicks_witness :
  In (timeStep gap_plot) stepCandidates
  /\ (forall c, In c stepCandidates ->
        Qabs (timeStep gap_plot - (plot_x1 gap_plot - plot_x0 gap_plot) / 7)
        <= Qabs (c - (plot_x1 gap_plot - plot_x0 gap_plot) / 7))
  /\ exists (n : nat) (m : Z),
       (1 <= n)%nat
       /\ timeTicks gap_plot
          = progression (inject_Z m * timeStep gap_plot) (timeStep gap_plot) (S n)
       /\ inject_Z m * timeStep gap_plot <= plot_x0 gap_plot
       /\ plot_x0 gap_plot < inject_Z m * timeStep gap_plot + timeStep gap_plot
       /\ plot_x1 gap_plot
          < inject_Z m * timeStep gap_plot
            + inject_Z (Z.of_nat n) * timeStep gap_plot
       /\ inject_Z m * timeStep gap_plot
          + inject_Z (Z.of_nat n) * timeStep gap_plot
          <= plot_x1 gap_plot + timeStep gap_plot.
Proof. apply (timeTicks_cover gap_plot). q_compute. Defined.

(** *** The domain of a channel *)

(** X3.  [domainForKey] looks only at the finite values of the channel
    at the points of the window.  When there is none the domain is
    [0, 1].  Otherwise, with [a] the least and [b] the greatest of them,
    it is [a - 1, b + 1] when they are equal and the interval from [a]
    to [b] widened by six hundredths of its length on each side when
    they are not, each result rounded; in exact arithmetic these are
    the ends themselves. *)
Theorem domainForKey_cases (rnd : Q -> Q) (data : list Point) (key : Key)
    (lo hi : Q) :
  (forall v, In v (window_values data key lo hi)
             <-> exists p, In p data /\ lo <= x p <= hi
                           /\ channel p key = Fin v)
  /\ (window_values data key lo hi = [] ->
      domainForKey rnd data key (lo, hi) = (0, 1))
  /\ (window_values data key lo hi <> [] ->
      exists a b,
        In a (window_values data key lo hi)
        /\ In b (window_values data key lo hi)
        /\ (forall v, In v (window_values data key lo hi) -> a <= v <= b)
        /\ domainForKey rnd data key (lo, hi)
           = (if Qeq_bool a b then (rnd (a - 1), rnd (b + 1))
              else (rnd (a - rnd (rnd (b - a) * rnd 0.06)),
                    rnd (b + rnd (rnd (b - a) * rnd 0.06))))
        /\ domainForKey exact_result data key (lo, hi)
           = (if Qeq_bool a b then (a - 1, b + 1)
              else (a - (b - a) * 0.06, b + (b - a) * 0.06))).
Proof.
  split; [intros v; apply window_values_In|].
  destruct (domainForKey_shape rnd data key lo hi) as [Hnil _].
  split; [exact Hnil|]. intros Hne.
  unfold domainForKey. cbn [fst snd]. rewrite domain_fold_values.
  destruct (window_values data key lo hi) as [|v vs]; [done|].
  cbn [fold_left Math_min Math_max fst snd]. rewrite fold_min_max.
  destruct (fold_Qmin_spec vs v) as [Hin1 Hle1].
  destruct (fold_Qmax_spec vs v) as [Hin2 Hle2].
  exists (fold_left Qmin vs v), (fold_left Qmax vs v).
  split; [done|]. split; [done|]. split; [|by split].
  intros w Hw. split; [by apply Hle1|by apply Hle2].
Qed.

(** X3 on [gap_points], with the rounding of the doubles: no reading
    between 1 and 2 milliseconds, and the readings 20 and 22 in the
    hour. *)
Lemma domainForKey_cases_witness :
  domainForKey round53 gap_points K_temp_OUT (1, 2) = (0, 1)
  /\ exists a b,
       In a (window_values gap_points K_temp_OUT 0 3600000)
       /\ In b (window_values gap_points K_temp_OUT 0 3600000)
       /\ (forall v, In v (window_values gap_points K_temp_OUT 0 3600000) ->
              a <= v <= b)
       /\ domainForKey round53 gap_points K_temp_OUT (0, 3600000)
          = (if Qeq_bool a b then (round53 (a - 1), round53 (b + 1))
             else (round53 (a - round53 (round53 (b - a) * round53 0.06)),
                   round53 (b + round53 (round53 (b - a) * round53 0.06))))
       /\ domainForKey exact_result gap_points K_temp_OUT (0, 3600000)
          = (if Qeq_bool a b then (a - 1, b + 1)
             else (a - (b - a) * 0.06, b + (b - a) * 0.06)).
Proof.
  split.
  - apply (domainForKey_cases round53 gap_points K_temp_OUT 1 2). reflexivity.
  - apply (domainForKey_cases round53 gap_points K_temp_OUT 0 3600000).
    discriminate.
Defined.

(** *** The two scales *)

(** X4.  On a plot whose window and whose width are not empty, [xToPx]
    and the conversion of a pixel to a time in [hitTest] undo each
    other; [xToPx] sends the start of the window to the left edge and
    its end to the right edge, and, when both are in order, a later time
    to a pixel further right. *)
Theorem xToPx_pixel_time (plot : Plot) :
  ~ plot_x1 plot - plot_x0 plot == 0 ->
  ~ plot_right plot - plot_left plot == 0 ->
  (forall t, pixel_time plot (xToPx t plot) == t)
  /\ (forall px, xToPx (pixel_time plot px) plot == px)
  /\ xToPx (plot_x0 plot) plot == plot_left plot
  /\ xToPx (plot_x1 plot) plot == plot_right plot
  /\ (plot_x0 plot < plot_x1 plot -> plot_left plot < plot_right plot ->
      forall t u, t < u -> xToPx t plot < xToPx u plot).
Proof.
  intros Hx Hp. unfold pixel_time, xToPx.
  split; [intros t; field; by split|].
  split; [intros px; field; by split|].
  split; [field; done|]. split; [field; done|].
  intros Hx01 Hlr t u Htu.
  assert (Hq : (t - plot_x0 plot) / (plot_x1 plot - plot_x0 plot)
               < (u - plot_x0 plot) / (plot_x1 plot - plot_x0 plot)).
  { apply Qmult_lt_compat_r; [|lra]. apply Qinv_lt_0_compat. lra. }
  set (a := (t - plot_x0 plot) / _) in *. set (b := (u - plot_x0 plot) / _) in *.
  clearbody a b. nra.
Qed.

Lemma xToPx_pixel_time_witness :
  (forall t, pixel_time gap_plot (xToPx t gap_plot) == t)
  /\ (forall px, xToPx (pixel_time gap_plot px) gap_plot == px)
  /\ xToPx (plot_x0 gap_plot) gap_plot == plot_left gap_plot
  /\ xToPx (plot_x1 gap_plot) gap_plot == plot_right gap_plot
  /\ forall t u, t < u -> xToPx t gap_plot < xToPx u gap_plot.
Proof.
  assert (Hx : ~ plot_x1 gap_plot - plot_x0 gap_plot == 0) by q_compute.
  assert (Hp : ~ plot_right gap_plot - plot_left gap_plot == 0) by q_compute.
  destruct (xToPx_pixel_time gap_plot Hx Hp) as (A & B & C & D & E).
  split; [exact A|]. split; [exact B|]. split; [exact C|]. split; [exact D|].
  apply E; q_compute.
Defined.

(** X5.  On a domain and a plot that are not empty, [yToPx] sends the
    lower end of the domain to the bottom of the plot and its upper end
    to the top, and a greater value to a pixel further up. *)
Theorem yToPx_inverted (yDomain : Q * Q) (top bottom : Q) :
  yDomain.1 < yDomain.2 -> top < bottom ->
  yToPx yDomain.1 yDomain top bottom == bottom
  /\ yToPx yDomain.2 yDomain top bottom == top
  /\ forall v w, v < w -> yToPx w yDomain top bottom < yToPx v yDomain top bottom.
Proof.
  intros Hd Htb. unfold yToPx.
  split; [field; lra|]. split; [field; lra|].
  intros v w Hvw.
  assert (Hq : (v - yDomain.1) / (yDomain.2 - yDomain.1)
               < (w - yDomain.1) / (yDomain.2 - yDomain.1)).
  { apply Qmult_lt_compat_r; [|lra]. apply Qinv_lt_0_compat. lra. }
  set (a := (v - yDomain.1) / _) in *. set (b := (w - yDomain.1) / _) in *.
  clearbody a b. nra.
Qed.

Lemma yToPx_inverted_witness :
  yToPx gap_domain.1 gap_domain 42 474 == 474
  /\ yToPx gap_domain.2 gap_domain 42 474 == 42
  /\ forall v w, v < w -> yToPx w gap_domain 42 474 < yToPx v gap_domain 42 474.
Proof. apply (yToPx_inverted gap_domain 42 474); q_compute. Defined.

(** *** The series stay in the plot *)

Lemma draws_polyline_inv (vs : list (Q * Q)) (w : Q * Q) :
  draws (polyline vs) w -> In w vs.
Proof.
  destruct vs as [|v vs]; [by intros [[]|[]]|].
  unfold draws. cbn [polyline In].
  intros [[H|H]|[H|H]].
  - left. destruct v, w. cbn in H. congruence.
  - apply in_map_iff in H as (u & Hu & _). discriminate.
  - discriminate.
  - apply in_map_iff in H as (u & Hu & Hin). right.
    destruct u, w. cbn in Hu. congruence.
Qed.

Lemma vertices_inv (plot : Plot) (key : Key) (yDomain : Q * Q)
    (data : list Point) (w : Q * Q) :
  In w (vertices plot key yDomain data) ->
  exists p v, In p data /\ plot_x0 plot <= x p <= plot_x1 plot
              /\ channel p key = Fin v /\ w = vertex plot yDomain p v.
Proof.
  unfold vertices. rewrite <- list_elem_of_In, list_elem_of_omap.
  intros (p & Hp & Hw). apply list_elem_of_In in Hp.
  unfold drawn in Hw.
  destruct (Qltb (x p) _) eqn:E1; [done|].
  destruct (Qltb _ (x p)) eqn:E2; [done|]. q_bool.
  destruct (channel p key) as [| |v] eqn:Hc; [done|done|]. cbn in Hw.
  exists p, v. split; [done|]. split; [lra|]. split; [done|congruence].
Qed.

Lemma drawSeries_draws_inv (data : list Point) (rightKey : Key) (dpr : Q)
    (plot : Plot) (keyLeft keyRight : Key) (yL yR : Q * Q) (w : Q * Q) :
  draws (drawSeries data rightKey dpr plot keyLeft keyRight yL yR) w ->
  draws (series_path plot keyLeft yL false data) w
  \/ draws (series_path plot keyRight yR false data) w.
Proof.
  unfold draws, drawSeries, drawText. rewrite !in_app_iff. cbn [In].
  intros [H|H].
  - decompose [or] H; try discriminate; try done; [left; by left|right; by left].
  - decompose [or] H; try discriminate; try done; [left; by right|right; by right].
Qed.

Lemma xToPx_inside (plot : Plot) (t : Q) :
  plot_x0 plot < plot_x1 plot -> plot_left plot <= plot_right plot ->
  plot_x0 plot <= t <= plot_x1 plot ->
  plot_left plot <= xToPx t plot <= plot_right plot.
Proof.
  intros Hx Hp Ht. unfold xToPx.
  assert (Hr : 0 <= (t - plot_x0 plot) / (plot_x1 plot - plot_x0 plot) <= 1).
  { split; [apply Qle_shift_div_l|apply Qle_shift_div_r]; lra. }
  set (r := (t - plot_x0 plot) / _) in *. clearbody r. nra.
Qed.

Lemma yToPx_inside (yDomain : Q * Q) (top bottom v : Q) :
  yDomain.1 < yDomain.2 -> yDomain.1 <= v <= yDomain.2 -> top < bottom ->
  top <= yToPx v yDomain top bottom <= bottom.
Proof.
  intros Hd Hv Htb. unfold yToPx.
  assert (Hr : 0 <= (v - yDomain.1) / (yDomain.2 - yDomain.1) <= 1).
  { split; [apply Qle_shift_div_l|apply Qle_shift_div_r]; lra. }
  set (r := (v - yDomain.1) / _) in *. clearbody r. nra.
Qed.

(** X6.  With data, a window that is not empty, and readings that are
    doubles of magnitude [2^53 - 1] at most, [draw] lays the plot out
    from 64 to the width of the canvas less 64, at least 616, and from
    42 to 474, over the window of the view; and every pixel the paths
    of the two series pass through lies in that plot. *)
Theorem series_inside_plot (rnd : Q -> Q) (s : State) (width dpr : Q) :
  data s <> [] -> x0 (view s) < x1 (view s) ->
  Rounding rnd ->
  (forall p key v, In p (data s) -> channel p key = Fin v ->
                   is_double rnd v /\ Qabs v <= Qpower 2 53 - 1) ->
  exists frame,
    draw rnd s width dpr = Some frame
    /\ plot_left (frame_plot frame) == 64
    /\ plot_right (frame_plot frame) == Qmax 680 (inject_Z (Qfloor width)) - 64
    /\ 616 <= plot_right (frame_plot frame)
    /\ plot_top (frame_plot frame) == 42
    /\ plot_bottom (frame_plot frame) == 474
    /\ plot_x0 (frame_plot frame) = x0 (view s)
    /\ plot_x1 (frame_plot frame) = x1 (view s)
    /\ forall w, draws (series frame) w ->
         plot_left (frame_plot frame) <= w.1 <= plot_right (frame_plot frame)
         /\ plot_top (frame_plot frame) <= w.2 <= plot_bottom (frame_plot frame).
Proof.
  intros Hne Hx Hr Hd. unfold draw.
  destruct (data s) as [|p0 l] eqn:Hdata; [done|].
  rewrite <- Hdata in *. eexists. split; [reflexivity|].
  cbn [frame_plot series plot_left plot_right plot_top plot_bottom plot_x0 plot_x1].
  assert (Hright : 616 <= Qmax 680 (inject_Z (Qfloor width)) - pad_right padding).
  { pose proof (Q.le_max_l 680 (inject_Z (Qfloor width))).
    change (pad_right padding) with 64. lra. }
  split; [reflexivity|]. split; [reflexivity|].
  split; [exact Hright|]. split; [reflexivity|]. split; [reflexivity|].
  split; [reflexivity|]. split; [reflexivity|].
  intros w Hw.
  set (plot := {| plot_left := pad_left padding;
                  plot_right := Qmax 680 (inject_Z (Qfloor width)) - pad_right padding;
                  plot_top := pad_top padding + legendH;
                  plot_bottom := 520 - pad_bottom padding;
                  plot_x0 := x0 (view s); plot_x1 := x1 (view s) |}) in *.
  assert (Hin : exists key p v,
             In p (data s) /\ plot_x0 plot <= x p <= plot_x1 plot
             /\ channel p key = Fin v
             /\ w = vertex plot (domainForKey rnd (data s) key
                                   (plot_x0 plot, plot_x1 plot)) p v).
  { apply drawSeries_draws_inv in Hw as [Hw|Hw];
      rewrite series_path_polyline in Hw;
      apply draws_polyline_inv, vertices_inv in Hw as (p & v & H);
      [exists K_temp_OUT, p, v|exists (rightKey s), p, v]; exact H. }
  destruct Hin as (key & p & v & Hp & Hxp & Hc & ->).
  unfold vertex. cbn [fst snd]. split.
  - change (pad_left padding) with (plot_left plot).
    change (Qmax 680 (inject_Z (Qfloor width)) - pad_right padding)
      with (plot_right plot).
    apply xToPx_inside; [exact Hx| |exact Hxp].
    change (plot_left plot) with 64.
    change (plot_right plot)
      with (Qmax 680 (inject_Z (Qfloor width)) - pad_right padding). lra.
  - change (pad_top padding + legendH) with (plot_top plot).
    change (520 - pad_bottom padding) with (plot_bottom plot).
    assert (Hvals : forall u,
               In u (window_values (data s) key (plot_x0 plot) (plot_x1 plot)) ->
               is_double rnd u /\ Qabs u <= Qpower 2 53 - 1).
    { intros u (q & Hq & _ & Hu)%window_values_In. by apply (Hd q key). }
    apply yToPx_inside; [| |reflexivity].
    + by apply domainForKey_positive.
    + apply domainForKey_holds; [done| |].
      * intros u Hu. by apply Hvals.
      * apply window_values_In. by exists p.
Qed.

(** X6 on [gap_points], with the rounding of the doubles. *)
Lemma series_inside_plot_witness :
  exists frame,
    draw round53 (loaded gap_points) 928 1 = Some frame
    /\ plot_left (frame_plot frame) == 64
    /\ plot_right (frame_plot frame) == Qmax 680 (inject_Z (Qfloor 928)) - 64
    /\ 616 <= plot_right (frame_plot frame)
    /\ plot_top (frame_plot frame) == 42
    /\ plot_bottom (frame_plot frame) == 474
    /\ plot_x0 (frame_plot frame) = x0 (view (loaded gap_points))
    /\ plot_x1 (frame_plot frame) = x1 (view (loaded gap_points))
    /\ forall w, draws (series frame) w ->
         plot_left (frame_plot frame) <= w.1 <= plot_right (frame_plot frame)
         /\ plot_top (frame_plot frame) <= w.2 <= plot_bottom (frame_plot frame).
Proof.
  apply (series_inside_plot round53 (loaded gap_points) 928 1).
  - discriminate.
  - q_compute.
  - exact Rounding_round53.
  - intros p key v Hp Hv.
    destruct Hp as [<-|[<-|[<-|[]]]]; destruct key; cbn in Hv;
      try discriminate Hv; injection Hv as <-; q_compute.
Defined.

(** *** hitTest without an order on the points *)

Lemma bsearch_in_range (data : list Point) (xVal : Q) :
  forall (fuel : nat) (lo hi : Z),
    (hi - lo <= Z.of_nat fuel)%Z ->
    (0 <= lo <= hi)%Z -> (hi < Z.of_nat (length data))%Z ->
    exists r, bsearch fuel data xVal lo hi = Some r /\ (lo <= r <= hi)%Z.
Proof.
  induction fuel as [|fuel IH]; intros lo hi Hfuel Hlo Hhi; cbn [bsearch].
  - case Z.ltb_spec; [intros ?; exfalso; lia|intros _].
    exists lo. split; [done|lia].
  - case Z.ltb_spec; intros Hlt; [|exists lo; split; [done|lia]].
    assert (Hmid : (lo <= (lo + hi) / 2 < hi)%Z).
    { split; [apply Z.div_le_lower_bound; lia|apply Z.div_lt_upper_bound; lia]. }
    set (mid := ((lo + hi) / 2)%Z) in *. clearbody mid.
    destruct (at_index_in_range data mid) as [p Hp]; [lia|].
    rewrite Hp. cbn [mbind option_bind].
    destruct (Qltb (x p) xVal).
    + destruct (IH (mid + 1)%Z hi) as (r & Hr & Hb); [lia|lia|lia|].
      exists r. split; [done|lia].
    + destruct (IH lo mid) as (r & Hr & Hb); [lia|lia|lia|].
      exists r. split; [done|lia].
Qed.

Lemma nearest_fold_in (data : list Point) (xVal : Q) (cands : list Z) :
  forall (i0 : Z) (d : num),
    exists i, (fold_left (nearest_step data xVal) cands (Some i0, d)).1 = Some i
              /\ In i (i0 :: cands).
Proof.
  induction cands as [|c cands IH]; intros i0 d.
  - exists i0. split; [done|by left].
  - cbn [fold_left]. unfold nearest_step at 2. cbn [fst snd].
    destruct (at_index data c) as [p|].
    + destruct (num_ltb _ d).
      * destruct (IH c (Fin (Qabs (x p - xVal)))) as (i & Hi & Hin).
        exists i. split; [done|]. right. exact Hin.
      * destruct (IH i0 d) as (i & Hi & Hin).
        exists i. split; [done|]. destruct Hin as [<-|Hin]; [by left|right; by right].
    + destruct (IH i0 d) as (i & Hi & Hin).
      exists i. split; [done|]. destruct Hin as [<-|Hin]; [by left|right; by right].
Qed.

Lemma nearest_index_total (data : list Point) (xVal : Q) :
  data <> [] ->
  exists i p, nearest_index data xVal = Some i /\ at_index data i = Some p.
Proof.
  intros Hne.
  assert (Hlen : (0 < Z.of_nat (length data))%Z)
    by (destruct data; [done|simpl length; lia]).
  destruct (bsearch_in_range data xVal (length data) 0
              (Z.of_nat (length data) - 1)) as (r & Hr & Hb); [lia|lia|lia|].
  unfold nearest_index. rewrite Hr. cbn [mbind option_bind].
  set (len := Z.of_nat (length data)) in *.
  set (test := fun i : Z => (0 <=? i)%Z && (i <? len)%Z).
  assert (Htest : forall i, test i = true -> exists p, at_index data i = Some p).
  { intros i [H1 H2]%andb_true_iff. apply at_index_in_range.
    apply Z.leb_le in H1. apply Z.ltb_lt in H2. fold len. lia. }
  assert (Hr' : test r = true).
  { apply andb_true_iff. split; [apply Z.leb_le|apply Z.ltb_lt]; lia. }
  cbn [List.filter]. rewrite Hr'. cbn [head].
  destruct (nearest_fold_in data xVal
              (r :: List.filter test [(r - 1)%Z; (r + 1)%Z]) r (Inf false))
    as (i & Hi & Hin).
  exists i. 
  assert (Hti : test i = true).
  { destruct Hin as [<-|[<-|Hin]]; [done|done|].
    by apply filter_In in Hin as [_ Hin]. }
  destruct (Htest i Hti) as [p Hp]. exists p. split; [exact Hi|exact Hp].
Qed.

(** X7.  [hitTest] returns [null] when there is no data and when the
    pointer is not over the plot.  With data and the pointer over the
    plot of a canvas wider than its paddings it returns, whatever the
    order of the points, a point of the data, with the place of the
    pointer in the canvas and the plot of the canvas. *)
Theorem hitTest_total (s : State) (mouseX mouseY : Q) (rect : Rect) :
  (data s = [] \/ ~ in_plot mouseX mouseY rect ->
   hitTest s mouseX mouseY rect = None)
  /\ (data s <> [] -> rect_ok rect -> in_plot mouseX mouseY rect ->
      exists p,
        In p (data s)
        /\ hitTest s mouseX mouseY rect
           = Some {| hit_p := p; hit_cssX := mouseX - rect_left rect;
                     hit_cssY := mouseY - rect_top rect;
                     hit_plot := hit_plot_of s rect |}).
Proof.
  split.
  - intros [Hd|Hn]; unfold hitTest; [by rewrite Hd|].
    destruct (data s); [done|].
    cbn [plot_left plot_right plot_top plot_bottom].
    destruct (Qltb (mouseX - rect_left rect) _) eqn:E1; [done|].
    destruct (Qltb _ (mouseX - rect_left rect)) eqn:E2; [done|].
    destruct (Qltb (mouseY - rect_top rect) _) eqn:E3; [done|].
    destruct (Qltb _ (mouseY - rect_top rect)) eqn:E4; [done|].
    exfalso. apply Hn. q_bool. unfold in_plot. repeat split; lra.
  - intros Hne _ Hp. rewrite hitTest_unfold by done.
    destruct (nearest_index_total (data s) (target_time s mouseX rect) Hne)
      as (i & p & -> & Hi).
    cbn [mbind option_bind]. rewrite Hi. exists p.
    split; [by eapply at_index_In|done].
Qed.

Lemma hitTest_total_witness :
  hitTest (loaded twin_points) 10 100 canvas = None
  /\ exists p,
       In p (data (loaded twin_points))
       /\ hitTest (loaded twin_points) 464 100 canvas
          = Some {| hit_p := p; hit_cssX := 464 - rect_left canvas;
                    hit_cssY := 100 - rect_top canvas;
                    hit_plot := hit_plot_of (loaded twin_points) canvas |}.
Proof.
  split.
  - apply (hitTest_total (loaded twin_points) 10 100 canvas).
    right. unfold in_plot. intros [H _]. vm_compute in H. apply H. reflexivity.
  - apply (hitTest_total (loaded twin_points) 464 100 canvas); q_compute.
Defined.

(** *** The tooltip *)

(** X8.  [showTooltip] puts the tooltip twelve pixels right of the
    pointer, or, when its right edge would pass the width of the
    canvas, twelve pixels left of it, and likewise below or above it:
    with the pointer in the canvas, the right and bottom edges of the
    tooltip stay in the canvas. *)
Theorem tooltip_position_spec (cssX cssY : Q) (rect tRect : Rect) :
  cssX <= rect_width rect -> cssY <= rect_height rect ->
  ((tooltip_position cssX cssY rect tRect).1 == cssX + 12
   \/ (tooltip_position cssX cssY rect tRect).1 + rect_width tRect == cssX - 12)
  /\ ((tooltip_position cssX cssY rect tRect).2 == cssY + 12
      \/ (tooltip_position cssX cssY rect tRect).2 + rect_height tRect
         == cssY - 12)
  /\ (tooltip_position cssX cssY rect tRect).1 + rect_width tRect
     <= rect_width rect
  /\ (tooltip_position cssX cssY rect tRect).2 + rect_height tRect
     <= rect_height rect.
Proof.
  intros Hx Hy. unfold tooltip_position. cbn [fst snd].
  destruct (Qltb (rect_width rect) _) eqn:E1;
    destruct (Qltb (rect_height rect) _) eqn:E2; q_bool;
    (split; [first [left; lra|right; lra]|]);
    (split; [first [left; lra|right; lra]|]); split; lra.
Qed.

Lemma tooltip_position_witness :
  ((tooltip_position 900 100 canvas tip).1 == 900 + 12
   \/ (tooltip_position 900 100 canvas tip).1 + rect_width tip == 900 - 12)
  /\ ((tooltip_position 900 100 canvas tip).2 == 100 + 12
      \/ (tooltip_position 900 100 canvas tip).2 + rect_height tip == 100 - 12)
  /\ (tooltip_position 900 100 canvas tip).1 + rect_width tip
     <= rect_width canvas
  /\ (tooltip_position 900 100 canvas tip).2 + rect_height tip
     <= rect_height canvas.
Proof. apply (tooltip_position_spec 900 100 canvas tip); q_compute. Defined.

(** *** What the events leave alone *)

Lemma hover_handle (s : State) (e : Event) :
  isPanning s = false -> hover_event e ->
  view (handle s e) = view s /\ rightKey (handle s e) = rightKey s
  /\ isPanning (handle s e) = false /\ panStart (handle s e) = panStart s.
Proof.
  intros Hp He. destruct e; try done; cbn [handle].
  unfold on_mousemove. rewrite Hp. by destruct (hitTest _ _ _ _).
Qed.

(** X9.  No event changes the data or the extent of the data.  While
    no button is held, moving the pointer over the canvas and leaving
    it change neither the window nor the channel of the right axis, and
    begin no drag: they touch the tooltip alone. *)
Theorem hover_changes_tooltip_only (s : State) (events : list Event) :
  (data (run s events) = data s /\ xDomainAll (run s events) = xDomainAll s)
  /\ (isPanning s = false -> Forall hover_event events ->
      view (run s events) = view s
      /\ rightKey (run s events) = rightKey s
      /\ isPanning (run s events) = false
      /\ panStart (run s events) = panStart s).
Proof.
  split; [destruct (run_xDomainAll events s); by split|].
  revert s. induction events as [|e events IH]; intros s Hp Hall; [done|].
  apply Forall_cons in Hall as [He Hall].
  destruct (hover_handle s e Hp He) as (Hv & Hk & Hp' & Hs).
  cbn [run fold_left]. fold (run (handle s e) events).
  destruct (IH (handle s e) Hp' Hall) as (-> & -> & -> & ->). done.
Qed.

Lemma hover_witness :
  (data (run (loaded hour_points) [MouseMove 500 100 canvas; MouseLeave])
   = data (loaded hour_points)
   /\ xDomainAll (run (loaded hour_points) [MouseMove 500 100 canvas; MouseLeave])
      = xDomainAll (loaded hour_points))
  /\ view (run (loaded hour_points) [MouseMove 500 100 canvas; MouseLeave])
     = view (loaded hour_points)
  /\ rightKey (run (loaded hour_points) [MouseMove 500 100 canvas; MouseLeave])
     = rightKey (loaded hour_points)
  /\ isPanning (run (loaded hour_points) [MouseMove 500 100 canvas; MouseLeave])
     = false
  /\ panStart (run (loaded hour_points) [MouseMove 500 100 canvas; MouseLeave])
     = panStart (loaded hour_points).
Proof.
  destruct (hover_changes_tooltip_only (loaded hour_points)
              [MouseMove 500 100 canvas; MouseLeave]) as [A B].
  split; [exact A|]. apply B; [reflexivity|].
  repeat constructor.
Defined.

(** *** Drag *)

Lemma on_mousemove_pan_twice (s : State) (a b : Q) (q : Rect)
    (cx cy : Q) (r : Rect) :
  isPanning s = true ->
  on_mousemove (on_mousemove s a b q) cx cy r = on_mousemove s cx cy r
  /\ isPanning (on_mousemove s a b q) = true.
Proof. intros Hp. unfold on_mousemove. rewrite Hp. cbn. by rewrite Hp. Qed.

Lemma on_mousemove_after_moves (moves : list (Q * Q * Rect)) (cx cy : Q)
    (r : Rect) :
  forall s, isPanning s = true ->
    on_mousemove (run s (List.map (fun m => MouseMove m.1.1 m.1.2 m.2) moves))
                 cx cy r
    = on_mousemove s cx cy r.
Proof.
  induction moves as [|m moves IH]; intros s Hs; [done|].
  cbn [List.map run fold_left handle].
  destruct (on_mousemove_pan_twice s m.1.1 m.1.2 m.2 cx cy r Hs) as [Ha Hb].
  fold (run (on_mousemove s m.1.1 m.1.2 m.2)
            (List.map (fun m => MouseMove m.1.1 m.1.2 m.2) moves)).
  rewrite IH by exact Hb. exact Ha.
Qed.

Lemma run_app (s : State) (a b : list Event) : run s (a ++ b) = run (run s a) b.
Proof. unfold run. apply fold_left_app. Qed.

(** X10.  While a drag goes on, the state after a move of the pointer
    does not depend on the moves before it: it is the state the same
    move gives when it is the first of the drag. *)
Theorem drag_path_independent (s : State) (moves : list (Q * Q * Rect))
    (cx cy : Q) (r : Rect) :
  isPanning s = true ->
  run s (List.map (fun m => MouseMove m.1.1 m.1.2 m.2) moves
         ++ [MouseMove cx cy r])
  = on_mousemove s cx cy r.
Proof.
  intros Hp. rewrite run_app. cbn [run fold_left handle].
  fold (run s (List.map (fun m => MouseMove m.1.1 m.1.2 m.2) moves)).
  by apply on_mousemove_after_moves.
Qed.

Lemma drag_path_independent_witness :
  run dragging (List.map (fun m => MouseMove m.1.1 m.1.2 m.2)
                  [(500, 100, canvas); (300, 80, canvas)]
                ++ [MouseMove 450 90 canvas])
  = on_mousemove dragging 450 90 canvas.
Proof.
  apply (drag_path_independent dragging
           [(500, 100, canvas); (300, 80, canvas)] 450 90 canvas).
  reflexivity.
Defined.

(** X11.  A drag that began on a window inside the extent and brings
    the pointer back to the pixel it began at shows that window again,
    wherever the pointer went in between. *)
Theorem drag_back_restores (s : State) (cx : Q) (r : Rect)
    (moves : list (Q * Q * Rect)) (cx' cy' : Q) (r' : Rect) :
  (xDomainAll s).1 <= x0 (view s) -> x0 (view s) <= x1 (view s) ->
  x1 (view s) <= (xDomainAll s).2 ->
  rect_ok r' ->
  cx' - rect_left r' == cx - rect_left r ->
  x0 (view (run (on_mousedown s cx r)
                (List.map (fun m => MouseMove m.1.1 m.1.2 m.2) moves
                 ++ [MouseMove cx' cy' r'])))
  == x0 (view s)
  /\ x1 (view (run (on_mousedown s cx r)
                   (List.map (fun m => MouseMove m.1.1 m.1.2 m.2) moves
                    ++ [MouseMove cx' cy' r'])))
     == x1 (view s).
Proof.
  intros H0 H01 H1 Hr Hx.
  assert (Hrun : run (on_mousedown s cx r)
                   (List.map (fun m => MouseMove m.1.1 m.1.2 m.2) moves
                    ++ [MouseMove cx' cy' r'])
                 = on_mousemove (on_mousedown s cx r) cx' cy' r').
  { rewrite run_app. cbn [run fold_left handle].
    fold (run (on_mousedown s cx r)
              (List.map (fun m => MouseMove m.1.1 m.1.2 m.2) moves)).
    by apply on_mousemove_after_moves. }
  rewrite Hrun. unfold on_mousemove, on_mousedown.
  cbn [set_panning isPanning panStart pan_x pan_x0 pan_x1 xDomainAll
       set_view view x0 x1].
  assert (Hs : - (cx' - rect_left r' - (cx - rect_left r))
               * ((x1 (view s) - x0 (view s))
                  / (rect_width r' - pad_left padding - pad_right padding)) == 0).
  { set (m := (x1 (view s) - x0 (view s)) / _). clearbody m. nra. }
  set (shift := - (cx' - rect_left r' - (cx - rect_left r)) * _) in *.
  clearbody shift.
  pose proof (clamp_id (x0 (view s) + shift) (xDomainAll s).1
                ((xDomainAll s).2 - (x1 (view s) - x0 (view s)))) as Hc.
  split; [rewrite Hc; lra|]. rewrite Hc; lra.
Qed.

Lemma drag_back_restores_witness :
  x0 (view (run (on_mousedown zoomed 400 canvas)
                (List.map (fun m => MouseMove m.1.1 m.1.2 m.2)
                   [(500, 100, canvas); (300, 80, canvas)]
                 ++ [MouseMove 400 90 canvas])))
  == x0 (view zoomed)
  /\ x1 (view (run (on_mousedown zoomed 400 canvas)
                   (List.map (fun m => MouseMove m.1.1 m.1.2 m.2)
                      [(500, 100, canvas); (300, 80, canvas)]
                    ++ [MouseMove 400 90 canvas])))
     == x1 (view zoomed).
Proof.
  apply (drag_back_restores zoomed 400 canvas
           [(500, 100, canvas); (300, 80, canvas)] 400 90 canvas); q_compute.
Defined.

(** *** The controls *)

(** X12.  Whatever events came before, a choice in the range control
    leaves a window that ends where the data ends; its span is the
    whole extent for [all] and the lesser of the extent and of six
    hours for [6h], and of twenty-four hours for any other value. *)
Theorem range_preset_window (s : State) (events : list Event) (v : string) :
  x1 (view (run s (events ++ [RangeChange v]))) = (xDomainAll s).2
  /\ (v = "all"%string ->
      span (view (run s (events ++ [RangeChange v])))
      == (xDomainAll s).2 - (xDomainAll s).1)
  /\ (v = "6h"%string ->
      span (view (run s (events ++ [RangeChange v])))
      == Qmin ((xDomainAll s).2 - (xDomainAll s).1) (6 * 60 * 60 * 1000))
  /\ (v <> "all"%string -> v <> "6h"%string ->
      span (view (run s (events ++ [RangeChange v])))
      == Qmin ((xDomainAll s).2 - (xDomainAll s).1) (24 * 60 * 60 * 1000)).
Proof.
  rewrite run_app. destruct (run_xDomainAll events s) as [Hx _].
  cbn [run fold_left handle]. unfold on_range_change, span. rewrite Hx.
  split; [by destruct (String.eqb v "all")|].
  split; [intros ->; cbn; lra|].
  split; [intros ->; cbn [String.eqb Ascii.eqb Bool.eqb set_view view x0 x1];
          q_solve|].
  intros Hall H6.
  destruct (String.eqb_spec v "all"); [done|].
  destruct (String.eqb_spec v "6h"); [done|].
  cbn [set_view view x0 x1]. q_solve.
Qed.

Lemma range_preset_witness :
  x1 (view (run (loaded hour_points) (hour_events ++ [RangeChange "6h"])))
  = (xDomainAll (loaded hour_points)).2
  /\ span (view (run (loaded hour_points) (hour_events ++ [RangeChange "all"])))
     == (xDomainAll (loaded hour_points)).2 - (xDomainAll (loaded hour_points)).1
  /\ span (view (run (loaded hour_points) (hour_events ++ [RangeChange "6h"])))
     == Qmin ((xDomainAll (loaded hour_points)).2
              - (xDomainAll (loaded hour_points)).1) (6 * 60 * 60 * 1000)
  /\ span (view (run (loaded hour_points) (hour_events ++ [RangeChange "1h"])))
     == Qmin ((xDomainAll (loaded hour_points)).2
              - (xDomainAll (loaded hour_points)).1) (24 * 60 * 60 * 1000).
Proof.
  destruct (range_preset_window (loaded hour_points) hour_events "all")
    as (_ & A & _ & _).
  destruct (range_preset_window (loaded hour_points) hour_events "6h")
    as (B1 & _ & B & _).
  destruct (range_preset_window (loaded hour_points) hour_events "1h")
    as (_ & _ & _ & C).
  split; [exact B1|]. split; [apply A; reflexivity|].
  split; [apply B; reflexivity|]. apply C; discriminate.
Defined.

(** X13.  Whatever events came before and after the load, a click on
    the reset button shows the window the load showed, the whole extent
    of the data, with [moist_lv] on the right axis. *)
Theorem reset_restores (pre : State) (points : list Point) (s0 : State)
    (events : list Event) :
  start pre points = Some s0 ->
  view (run s0 (events ++ [ResetClick])) = view s0
  /\ data (run s0 (events ++ [ResetClick])) = points
  /\ x0 (view (run s0 (events ++ [ResetClick]))) = (xDomainAll s0).1
  /\ x1 (view (run s0 (events ++ [ResetClick]))) = (xDomainAll s0).2
  /\ rightKey (run s0 (events ++ [ResetClick])) = K_moist_lv.
Proof.
  intros Hs. rewrite run_app. destruct (run_xDomainAll events s0) as [Hx Hd].
  cbn [run fold_left handle]. unfold on_reset.
  cbn [set_view set_rightKey view rightKey data x0 x1 xDomainAll].
  rewrite Hx, Hd.
  unfold start in Hs. destruct points as [|p l]; [done|].
  destruct (at_index (p :: l) 0) as [first|]; [|done].
  destruct (at_index (p :: l) _) as [last|]; [|done].
  cbn in Hs. injection Hs as <-. done.
Qed.

(** X13 on [late_hour] and the events [hour_events]. *)
Lemma reset_restores_witness :
  view (run late_hour (hour_events ++ [ResetClick])) = view late_hour
  /\ data (run late_hour (hour_events ++ [ResetClick])) = hour_points
  /\ x0 (view (run late_hour (hour_events ++ [ResetClick])))
     = (xDomainAll late_hour).1
  /\ x1 (view (run late_hour (hour_events ++ [ResetClick])))
     = (xDomainAll late_hour).2
  /\ rightKey (run late_hour (hour_events ++ [ResetClick])) = K_moist_lv.
Proof.
  apply (reset_restores (run initial [RightAxisChange K_light]) hour_points
           late_hour hour_events).
  reflexivity.
Defined.

(** *** Zoom *)

Lemma centerRatio_range (cx : Q) (r : Rect) :
  rect_ok r -> over_plot cx r -> 0 <= centerRatio cx r <= 1.
Proof.
  unfold rect_ok, over_plot, centerRatio. change (pad_left padding) with 64.
  change (pad_right padding) with 64. intros Hr [Hl Hh].
  split; [apply Qle_shift_div_l|apply Qle_shift_div_r]; lra.
Qed.

(** X14.  On a window that satisfies the invariant, with the cursor
    over the plot: a turn of the wheel with a factor of at most one
    leaves a window inside the old one, and a turn with a factor of at
    least one a window that contains the old one.  With the cursor
    left or right of the plot the wheel changes nothing. *)
Theorem wheel_nests (s : State) (cx f : Q) (r : Rect) :
  view_ok s -> rect_ok r ->
  (over_plot cx r -> f <= 1 ->
   x0 (view s) <= x0 (view (on_wheel s cx f r))
   /\ x1 (view (on_wheel s cx f r)) <= x1 (view s))
  /\ (over_plot cx r -> 1 <= f ->
      x0 (view (on_wheel s cx f r)) <= x0 (view s)
      /\ x1 (view s) <= x1 (view (on_wheel s cx f r)))
  /\ (cx - rect_left r < pad_left padding
      \/ rect_width r - pad_right padding < cx - rect_left r ->
      on_wheel s cx f r = s).
Proof.
  intros Hv Hr.
  pose proof (window_ok_extent _ _ _ Hv) as Hext.
  pose proof (wheel_span_lower s f) as Hlo.
  pose proof (wheel_span_upper s f Hext) as Hhi.
  pose proof minSpan_pos as Hm.
  destruct Hv as (V0 & V01 & V1 & Vm).
  assert (Hnew : forall c, 0 <= c <= 1 ->
            (f <= 1 -> wheel_span s f * c <= span (view s) * c
                       /\ wheel_span s f * (1 - c) <= span (view s) * (1 - c))
            /\ (1 <= f -> span (view s) * c <= wheel_span s f * c
                          /\ span (view s) * (1 - c) <= wheel_span s f * (1 - c))).
  { intros c Hc.
    assert (Hs : minSpan <= span (view s)
                 /\ span (view s) <= (xDomainAll s).2 - (xDomainAll s).1)
      by (unfold span; lra).
    split; intros Hf.
    - assert (Hn : wheel_span s f <= span (view s)).
      { assert (Hsf : span (view s) * f <= span (view s)) by nra.
        unfold wheel_span, clamp in *. fold minSpan.
        change (5 * 60 * 1000) with minSpan in *.
        revert Hsf. generalize (span (view s) * f). intros sf Hsf. q_solve. }
      split; nra.
    - assert (Hn : span (view s) <= wheel_span s f).
      { assert (Hsf : span (view s) <= span (view s) * f) by nra.
        unfold wheel_span, clamp in *.
        change (5 * 60 * 1000) with minSpan in *.
        revert Hsf. generalize (span (view s) * f). intros sf Hsf. q_solve. }
      split; nra. }
  assert (Hcases : over_plot cx r ->
    wheel_new1 s cx f r - wheel_new0 s cx f r == wheel_span s f
    /\ (f <= 1 -> x0 (view s) <= wheel_new0 s cx f r
                  /\ wheel_new1 s cx f r <= x1 (view s))
    /\ (1 <= f -> wheel_new0 s cx f r <= x0 (view s)
                  /\ x1 (view s) <= wheel_new1 s cx f r)).
  { intros Ho. pose proof (centerRatio_range cx r Hr Ho) as Hc.
    destruct (Hnew _ Hc) as [Hin Hout].
    unfold wheel_new0, wheel_new1, anchorMs in *.
    split; [ring|]. split; intros Hf.
    - destruct (Hin Hf). unfold span in *. split; lra.
    - destruct (Hout Hf). unfold span in *. split; lra. }
  assert (Hunfold : over_plot cx r ->
    view (on_wheel s cx f r)
    = (let '(new0, new1) :=
         if Qltb (wheel_new0 s cx f r) (xDomainAll s).1
         then ((xDomainAll s).1,
               wheel_new1 s cx f r + ((xDomainAll s).1 - wheel_new0 s cx f r))
         else (wheel_new0 s cx f r, wheel_new1 s cx f r) in
       let '(new0, new1) :=
         if Qltb (xDomainAll s).2 new1
         then (new0 - (new1 - (xDomainAll s).2), (xDomainAll s).2)
         else (new0, new1) in
       {| x0 := clamp new0 (xDomainAll s).1 ((xDomainAll s).2 - wheel_span s f);
          x1 := clamp new0 (xDomainAll s).1 ((xDomainAll s).2 - wheel_span s f)
                + wheel_span s f |})).
  { intros [Hl Hh]. unfold on_wheel.
    destruct (Qltb (cx - rect_left r) _) eqn:E1; [q_bool; lra|].
    destruct (Qltb _ (cx - rect_left r)) eqn:E2; [q_bool; lra|].
    cbn [orb].
    change (x1 (view s) - x0 (view s)) with (span (view s)).
    change ((cx - rect_left r - pad_left padding)
            / (rect_width r - pad_right padding - pad_left padding))
      with (centerRatio cx r).
    change (clamp (span (view s) * f) (5 * 60 * 1000)
                  ((xDomainAll s).2 - (xDomainAll s).1)) with (wheel_span s f).
    change (x0 (view s) + span (view s) * centerRatio cx r) with (anchorMs s cx r).
    change (anchorMs s cx r - wheel_span s f * centerRatio cx r)
      with (wheel_new0 s cx f r).
    change (anchorMs s cx r + wheel_span s f * (1 - centerRatio cx r))
      with (wheel_new1 s cx f r).
    destruct (Qltb (wheel_new0 s cx f r) _);
      match goal with |- context [if ?b then _ else _] => destruct b end;
      reflexivity. }
  split; [|split].
  - intros Ho Hf. rewrite (Hunfold Ho).
    destruct (Hcases Ho) as (Hd & Hin & _). destruct (Hin Hf) as [Ha Hb].
    set (n0 := wheel_new0 s cx f r) in *. set (n1 := wheel_new1 s cx f r) in *.
    set (w := wheel_span s f) in *. clearbody n0 n1 w.
    destruct (Qltb n0 _) eqn:E3; [q_bool; lra|].
    destruct (Qltb _ n1) eqn:E4; [q_bool; lra|].
    cbn [x0 x1]. unfold clamp. q_solve.
  - intros Ho Hf. rewrite (Hunfold Ho).
    destruct (Hcases Ho) as (Hd & _ & Hout). destruct (Hout Hf) as [Ha Hb].
    set (n0 := wheel_new0 s cx f r) in *. set (n1 := wheel_new1 s cx f r) in *.
    set (w := wheel_span s f) in *. clearbody n0 n1 w.
    destruct (Qltb n0 _) eqn:E3.
    + destruct (Qltb _ (n1 + _)) eqn:E4; cbn [x0 x1]; unfold clamp; q_solve.
    + destruct (Qltb _ n1) eqn:E4; cbn [x0 x1]; unfold clamp; q_solve.
  - intros Hout. unfold on_wheel.
    destruct (Qltb (cx - rect_left r) _) eqn:E1; [done|].
    destruct (Qltb _ (cx - rect_left r)) eqn:E2; [done|].
    q_bool. lra.
Qed.

Lemma wheel_nests_witness :
  (x0 (view (loaded hour_points))
   <= x0 (view (on_wheel (loaded hour_points) 464 (1 # 2) canvas))
   /\ x1 (view (on_wheel (loaded hour_points) 464 (1 # 2) canvas))
      <= x1 (view (loaded hour_points)))
  /\ (x0 (view (on_wheel zoomed 264 2 canvas)) <= x0 (view zoomed)
      /\ x1 (view zoomed) <= x1 (view (on_wheel zoomed 264 2 canvas)))
  /\ on_wheel zoomed 10 2 canvas = zoomed.
Proof.
  split; [|split].
  - apply (wheel_nests (loaded hour_points) 464 (1 # 2) canvas); q_compute.
  - apply (wheel_nests zoomed 264 2 canvas); q_compute.
  - apply (wheel_nests zoomed 10 2 canvas); [q_compute|q_compute|].
    left. q_compute.
Defined.

Lemma on_wheel_over_plot (s : State) (cx f : Q) (r : Rect) :
  over_plot cx r ->
  exists new0,
    view (on_wheel s cx f r)
    = {| x0 := clamp new0 (xDomainAll s).1 ((xDomainAll s).2 - wheel_span s f);
         x1 := clamp new0 (xDomainAll s).1 ((xDomainAll s).2 - wheel_span s f)
               + wheel_span s f |}.
Proof.
  intros [Hl Hh]. unfold on_wheel, wheel_span, span.
  destruct (Qltb (cx - rect_left r) _) eqn:E1; [q_bool; lra|].
  destruct (Qltb _ (cx - rect_left r)) eqn:E2; [q_bool; lra|].
  cbn [orb].
  repeat match goal with |- context [if ?b then _ else _] => destruct b end;
    eexists; reflexivity.
Qed.

(** X15.  When the data spans less than [minSpan], a turn of the wheel
    over the plot of a canvas wider than its paddings leaves, whatever
    the factor and the window before, the window of [minSpan] that
    begins where the data begins: it ends after the end of the data. *)
Theorem wheel_on_short_data (s : State) (cx f : Q) (r : Rect) :
  (xDomainAll s).2 - (xDomainAll s).1 < minSpan ->
  rect_ok r -> over_plot cx r ->
  x0 (view (on_wheel s cx f r)) == (xDomainAll s).1
  /\ x1 (view (on_wheel s cx f r)) == (xDomainAll s).1 + minSpan
  /\ (xDomainAll s).2 < x1 (view (on_wheel s cx f r)).
Proof.
  intros Hshort _ Ho.
  assert (Hw : wheel_span s f == minSpan).
  { unfold wheel_span, clamp, minSpan in *. q_solve. }
  destruct (on_wheel_over_plot s cx f r Ho) as [new0 ->].
  cbn [x0 x1]. set (w := wheel_span s f) in *. clearbody w.
  unfold clamp. q_solve.
Qed.

Lemma wheel_on_short_data_witness :
  x0 (view (on_wheel (loaded minute_points) 464 (1 # 2) canvas))
  == (xDomainAll (loaded minute_points)).1
  /\ x1 (view (on_wheel (loaded minute_points) 464 (1 # 2) canvas))
     == (xDomainAll (loaded minute_points)).1 + minSpan
  /\ (xDomainAll (loaded minute_points)).2
     < x1 (view (on_wheel (loaded minute_points) 464 (1 # 2) canvas)).
Proof.
  apply (wheel_on_short_data (loaded minute_points) 464 (1 # 2) canvas);
    q_compute.
Defined.

(** *** The canvas state of drawSeries *)

Lemma stack_depth_app (a b : list Cmd) (d d' : nat) :
  stack_depth a d = Some d' -> stack_depth (a ++ b) d = stack_depth b d'.
Proof.
  revert d. induction a as [|c a IH]; intros d; [by intros [= ->]|].
  destruct c; cbn [app stack_depth]; try apply IH.
  destruct d; [done|apply IH].
Qed.

Lemma stack_depth_series_path (plot : Plot) (key : Key) (yDomain : Q * Q)
    (data : list Point) (d : nat) :
  forall started, stack_depth (series_path plot key yDomain started data) d = Some d.
Proof.
  induction data as [|p data IH]; intros started; [done|].
  cbn [series_path]. destruct (Qltb _ _ || Qltb _ _); [apply IH|].
  destruct (channel p key); try apply IH.
  destruct started; cbn [stack_depth]; apply IH.
Qed.

(** X17.  [drawSeries] leaves the stack of saved canvas states as deep
    as it found it, whatever the data: each [save] is answered by a
    [restore], and no [restore] comes without a [save] before it. *)
Theorem drawSeries_balanced (data : list Point) (rightKey : Key) (dpr : Q)
    (plot : Plot) (keyLeft keyRight : Key) (yL yR : Q * Q) (d : nat) :
  stack_depth (drawSeries data rightKey dpr plot keyLeft keyRight yL yR) d
  = Some d.
Proof.
  unfold drawSeries, drawText.
  repeat (erewrite stack_depth_app;
          [|first [apply stack_depth_series_path|reflexivity]]).
  reflexivity.
Qed.

(** *** The rows of parseCSV *)

Section IngestionMore.
Variable Number_str : string -> num.
Variable String_num : Q -> string.
Variable Date_getTime : string -> num.





(** *** What main leaves *)

Lemma omap_nil_iff {A B : Type} (f : A -> option B) (l : list A) :
  omap f l = [] <-> forall a, In a l -> f a = None.
Proof.
  induction l as [|a l IH]; [done|]. cbn [omap list_omap].
  destruct (f a) eqn:E; split.
  - done.
  - intros H. specialize (H a (or_introl eq_refl)). congruence.
  - intros H b [<-|Hb]; [done|]. by apply IH.
  - intros H. apply IH. intros b Hb. apply H. by right.
Qed.

(** X19.  On a text of a header and the lines [rest], [main] fails with
    its error exactly when no line of [rest] gives a point.  When it
    succeeds, the extent is the pair of the least and the greatest time
    of the data and the window is the whole extent; the channel of the
    right axis, the drag and the tooltip are what the events before
    have left them. *)
Theorem main_loads (pre : State) (text header : string) (rest : list string) :
  split (ascii_of_nat 10) (trim (remove_cr text)) = header :: rest ->
  (main Number_str String_num Date_getTime pre text = None
   <-> forall line, In line rest ->
         accepted Number_str String_num Date_getTime
                  (List.map trim (split "," header)) line = None)
  /\ forall s, main Number_str String_num Date_getTime pre text = Some s ->
       (exists a b, In a (data s) /\ In b (data s)
                    /\ xDomainAll s = (x a, x b))
       /\ (forall p, In p (data s) ->
             (xDomainAll s).1 <= x p <= (xDomainAll s).2)
       /\ view s = {| x0 := (xDomainAll s).1; x1 := (xDomainAll s).2 |}
       /\ rightKey s = rightKey pre
       /\ isPanning s = isPanning pre
       /\ panStart s = panStart pre
       /\ tooltip s = tooltip pre.
Proof.
  intros Hlines.
  assert (Hnorm : normalize Number_str String_num Date_getTime
                    (parseCSV Number_str text)
                  = sort_by_x
                      (omap (accepted Number_str String_num Date_getTime
                               (List.map trim (split "," header))) rest)).
  { unfold normalize, parseCSV. rewrite Hlines.
    destruct rest as [|line rest]; [done|]. by rewrite normalize_parse_lines. }
  unfold main. rewrite Hnorm.
  set (pts := sort_by_x _).
  assert (Hs : Sorted by_x pts) by apply sort_by_x_sorted.
  assert (Hnil : pts = [] <->
            forall line, In line rest ->
              accepted Number_str String_num Date_getTime
                       (List.map trim (split "," header)) line = None).
  { rewrite <- omap_nil_iff. subst pts. split.
    - intros H. pose proof (sort_by_x_perm
        (omap (accepted Number_str String_num Date_getTime
                 (List.map trim (split "," header))) rest)) as Hp.
      rewrite H in Hp. by apply Permutation_nil in Hp.
    - by intros ->. }
  split.
  - rewrite <- Hnil. split.
    + intros Hnone. destruct pts as [|p l] eqn:Hp; [done|].
      destruct (start_nonempty pre (p :: l)) as [s Hsome]; [done|]. congruence.
    + by intros ->.
  - intros s Hsome.
    assert (Hne : pts <> []) by (intros H; rewrite H in Hsome; done).
    destruct (at_index_in_range pts 0) as [first Hfirst].
    { destruct pts; [done|]. simpl length. lia. }
    destruct (at_index_in_range pts (Z.of_nat (length pts) - 1)) as [last Hlast].
    { destruct pts; [done|]. simpl length. lia. }
    rewrite (start_some pre pts first last Hfirst Hlast) in Hsome.
    injection Hsome as <-.
    cbn [data xDomainAll view rightKey isPanning panStart tooltip fst snd].
    split; [exists first, last; split; [by eapply at_index_In|];
            split; [by eapply at_index_In|done]|].
    split; [|done].
    intros p [i Hi]%In_at_index.
    pose proof Hi as [Hr _]%at_index_Some.
    split.
    + apply (sorted_at_index pts 0 i); [done|lia|done|done].
    + apply (sorted_at_index pts i (Z.of_nat (length pts) - 1));
        [done|lia|done|done].
Qed.
End IngestionMore.


(** X19 on [csv_text], fetched while the button is held. *)
Lemma main_loads_witness :
  (main Number_dec String_dec Date_utc (on_mousedown initial 400 canvas)
        csv_text = None
   <-> forall line, In line csv_lines ->
         accepted Number_dec String_dec Date_utc
                  (List.map trim (split "," csv_header)) line = None)
  /\ forall s,
       main Number_dec String_dec Date_utc (on_mousedown initial 400 canvas)
            csv_text = Some s ->
       (exists a b, In a (data s) /\ In b (data s)
                    /\ xDomainAll s = (x a, x b))
       /\ (forall p, In p (data s) ->
             (xDomainAll s).1 <= x p <= (xDomainAll s).2)
       /\ view s = {| x0 := (xDomainAll s).1; x1 := (xDomainAll s).2 |}
       /\ rightKey s = rightKey (on_mousedown initial 400 canvas)
       /\ isPanning s = isPanning (on_mousedown initial 400 canvas)
       /\ panStart s = panStart (on_mousedown initial 400 canvas)
       /\ tooltip s = tooltip (on_mousedown initial 400 canvas).
Proof.
  apply (main_loads Number_dec String_dec Date_utc
           (on_mousedown initial 400 canvas) csv_text csv_header csv_lines).
  vm_compute. reflexivity.
Defined.
